(** * The continuously seeded pool generator of libgcrypt
      (random/random-csprng.c): a shallow embedding and its properties.

    The pool buffers are byte arrays ([list Z], one [Z] in [0,256) per
    [unsigned char]); a pool pointer [pool] and the scratch pointer
    [hashbuf = pool + POOLSIZE] address one and the same allocation of
    [POOLSIZE + BLOCKLEN] bytes.  The file-level [static] variables form
    the record [rng_state]; the operating system, the seed file and the
    entropy gatherers form the record [environment], questioned through a
    running [tick].  The build that is modelled has an 8-byte, little
    endian [unsigned long] and a 4-byte [pid_t]. *)

From Stdlib Require Import ZArith Lia String.
From stdpp Require Import base tactics option list numbers.

Local Open Scope Z_scope.
Local Open Scope nat_scope.

(** ** Constants pertaining to the hash pool *)

Definition BLOCKLEN : nat := 64.
Definition DIGESTLEN : nat := 20.
Definition POOLBLOCKS : nat := 30.
Definition POOLSIZE : nat := POOLBLOCKS * DIGESTLEN.
Definition SIZEOF_UNSIGNED_LONG : nat := 8.
Definition POOLWORDS : nat := POOLSIZE / SIZEOF_UNSIGNED_LONG.
Definition ADD_VALUE : Z := 0xa5a5a5a5a5a5a5a5.

Lemma POOLSIZE_eq : POOLSIZE = 600.
Proof. reflexivity. Qed.

Lemma POOLWORDS_eq : POOLWORDS = 75.
Proof. reflexivity. Qed.

Arguments POOLSIZE : simpl never.
Arguments BLOCKLEN : simpl never.
Arguments DIGESTLEN : simpl never.
Arguments POOLBLOCKS : simpl never.
Arguments POOLWORDS : simpl never.

(** ** Machine integers *)

(** [size_t] and [unsigned long] arithmetic is modulo 2^64. *)
Definition wrap64 (z : Z) : Z := (z mod 2 ^ 64)%Z.

(** The conversion of an [int] to [size_t], as C performs it when an
    [int] meets a [size_t] in a comparison or a subtraction. *)
Definition size_t_of_int (i : Z) : Z := wrap64 i.

(** The conversion of a [size_t] back to a 32-bit [int]. *)
Definition int_of_size_t (z : Z) : Z :=
  let r := (z mod 2 ^ 32)%Z in
  if (r <? 2 ^ 31)%Z then r else (r - 2 ^ 32)%Z.

(** ** Byte buffers *)

Definition peek (mem : list Z) (i : nat) : Z := default 0%Z (mem !! i).
Definition poke (mem : list Z) (i : nat) (v : Z) : list Z := <[i := v]> mem.
Definition read_bytes (mem : list Z) (off n : nat) : list Z :=
  take n (drop off mem).
Definition write_bytes (mem : list Z) (off : nat) (bs : list Z) : list Z :=
  list_inserts off bs mem.

(** [memcpy (mem + dst, mem + src, n)] inside one allocation. *)
Definition memcpy (mem : list Z) (dst src n : nat) : list Z :=
  write_bytes mem dst (read_bytes mem src n).

(** [memset (mem, v, n)]. *)
Definition memset (mem : list Z) (v : Z) (n : nat) : list Z :=
  write_bytes mem 0 (replicate n v).

(** [buf[i] ^= src[i]] for [i < length src]. *)
Fixpoint xor_into (mem : list Z) (i : nat) (src : list Z) : list Z :=
  match src with
  | [] => mem
  | b :: src' => xor_into (poke mem i (Z.lxor (peek mem i) b)) (S i) src'
  end.

(** An [unsigned long] as it lies in memory, and back. *)
Fixpoint word_of_bytes (bs : list Z) : Z :=
  match bs with
  | [] => 0%Z
  | b :: bs' => (b + 256 * word_of_bytes bs')%Z
  end.

Fixpoint bytes_of_word (n : nat) (w : Z) : list Z :=
  match n with
  | 0 => []
  | S n' => (w mod 256)%Z :: bytes_of_word n' (w / 256)%Z
  end.

Definition load_word (mem : list Z) (i : nat) : Z :=
  word_of_bytes (read_bytes mem (i * SIZEOF_UNSIGNED_LONG) SIZEOF_UNSIGNED_LONG).

Definition store_word (mem : list Z) (i : nat) (w : Z) : list Z :=
  write_bytes mem (i * SIZEOF_UNSIGNED_LONG) (bytes_of_word SIZEOF_UNSIGNED_LONG w).

(** ** The hash primitive

    [_gcry_sha1_mixblock_init], [_gcry_sha1_mixblock] and
    [_gcry_sha1_hash_buffer] live in cipher/sha1.c; the pool code only
    relies on their interface, which is what this class records.
    [sha1_mixblock md block] is given the 64 bytes of the block and
    returns the new chaining state together with the 20 bytes that
    the C function stores back over the head of the block. *)
Class Sha1 := {
  sha1_ctx : Type;
  sha1_mixblock_init : sha1_ctx;
  sha1_mixblock : sha1_ctx -> list Z -> sha1_ctx * list Z;
  sha1_hash_buffer : list Z -> list Z;
  sha1_mixblock_length :
    forall md block, length (sha1_mixblock md block).2 = DIGESTLEN;
  sha1_hash_buffer_length :
    forall buf, length (sha1_hash_buffer buf) = DIGESTLEN
}.

(** ** The mixer on one allocation *)

Section Mixer.
Context `{Sha1}.

(** [_gcry_sha1_mixblock (&md, hashbuf)] with [hashbuf = pool + POOLSIZE]. *)
Definition mixblock_hashbuf (md : sha1_ctx) (mem : list Z) : sha1_ctx * list Z :=
  let r := sha1_mixblock md (read_bytes mem POOLSIZE BLOCKLEN) in
  (r.1, write_bytes mem POOLSIZE r.2).

(** The byte loop of the [else] branch:
    [for (i=0; i < BLOCKLEN; i++) { if (pp >= pend) pp = pool; hashbuf[i] = *pp++; }],
    with [k] iterations still to run. *)
Fixpoint wrap_copy (mem : list Z) (i pp k : nat) : list Z :=
  match k with
  | 0 => mem
  | S k' =>
      let pp := if POOLSIZE <=? pp then 0 else pp in
      wrap_copy (poke mem (POOLSIZE + i) (peek mem pp)) (S i) (S pp) k'
  end.

(** How one round of the loop fills the scratch block from [p]. *)
Definition fill_hashbuf (mem : list Z) (p : nat) : list Z :=
  if p + BLOCKLEN <? POOLSIZE
  then memcpy mem POOLSIZE p BLOCKLEN
  else wrap_copy mem 0 p BLOCKLEN.

(** One round of [for (n=1; n < POOLBLOCKS; n++)]; the loop variable
    is not used by the body, the pointer [p] is. *)
Definition mix_iter (st : sha1_ctx * list Z * nat) : sha1_ctx * list Z * nat :=
  let '(md, mem, p) := st in
  let mem := fill_hashbuf mem p in
  let '(md, mem) := mixblock_hashbuf md mem in
  let p := p + DIGESTLEN in
  (md, memcpy mem p POOLSIZE DIGESTLEN, p).

(** pool_0 -> pool': the first block is the tail of the pool followed
    by its head. *)
Definition mix_first (md : sha1_ctx) (mem : list Z) : sha1_ctx * list Z :=
  let mem := memcpy mem POOLSIZE (POOLSIZE - DIGESTLEN) DIGESTLEN in
  let mem := memcpy mem (POOLSIZE + DIGESTLEN) 0 (BLOCKLEN - DIGESTLEN) in
  let '(md, mem) := mixblock_hashbuf md mem in
  (md, memcpy mem 0 POOLSIZE DIGESTLEN).

(** The state of the loop after [k] rounds, which is the state round
    [k + 1] begins with. *)
Definition mix_rounds (k : nat) (md : sha1_ctx) (mem : list Z)
  : sha1_ctx * list Z * nat :=
  Nat.iter k mix_iter (md, mem, 0).

(** What the loop starts from: the first block is hashed and, when
    [failsafe] is [Some failsafe_digest] (the digest is valid and the
    pool is [rndpool]), the digest is XORed over its result. *)
Definition mix_start (failsafe : option (list Z)) (mem : list Z)
  : sha1_ctx * list Z :=
  let r := mix_first sha1_mixblock_init mem in
  (r.1, match failsafe with
        | Some d => xor_into r.2 0 (take DIGESTLEN d)
        | None => r.2
        end).

(** The whole of [mix_pool] on the bytes of one pool. *)
Definition mix_bytes (failsafe : option (list Z)) (mem : list Z) : list Z :=
  let r := mix_start failsafe mem in
  (mix_rounds (POOLBLOCKS - 1) r.1 r.2).1.2.

End Mixer.

(** ** Origins, levels and fatal ends *)

(** Modelled from the spec: [enum random_origins] is declared in
    random/rand-internal.h, which is not part of the sources at hand.
    The spec fixes what the pool code needs of it: only origins at or
    above [SLOWPOLL] count towards the initial fill, [INIT] and
    [EXTERNAL] are below [SLOWPOLL], [EXTRAPOLL] is not, and a fast poll
    never counts. *)
Inductive random_origins :=
| RANDOM_ORIGIN_INIT
| RANDOM_ORIGIN_EXTERNAL
| RANDOM_ORIGIN_FASTPOLL
| RANDOM_ORIGIN_SLOWPOLL
| RANDOM_ORIGIN_EXTRAPOLL.

Definition origin_value (o : random_origins) : Z :=
  match o with
  | RANDOM_ORIGIN_INIT => 0
  | RANDOM_ORIGIN_EXTERNAL => 1
  | RANDOM_ORIGIN_FASTPOLL => 2
  | RANDOM_ORIGIN_SLOWPOLL => 3
  | RANDOM_ORIGIN_EXTRAPOLL => 4
  end%Z.

#[global] Instance random_origins_eq_dec : EqDecision random_origins.
Proof. solve_decision. Defined.

(** The levels, with the values [initialize_basics] asserts. *)
Definition GCRY_WEAK_RANDOM : Z := 0.
Definition GCRY_STRONG_RANDOM : Z := 1.
Definition GCRY_VERY_STRONG_RANDOM : Z := 2.

(** One call of [slow_gather_fnc]: origin, length, level. *)
Definition gather_request : Type := random_origins * Z * Z.

(** The places where the process is terminated. *)
Inductive fatal :=
| Bug_too_many_random_bits      (* read_pool: log_bug *)
| Bug_initial_extra_seeding     (* read_pool: first BUG () *)
| Bug_balance_topup             (* read_pool: second BUG () *)
| Bug_seed_file_set_twice       (* _gcry_rngcsprng_set_seed_file: BUG () *)
| Bug_time_source               (* do_fast_random_poll: BUG () *)
| Fatal_cannot_read_seed_file   (* read_seed_file: log_fatal *)
| Fatal_no_gather_module        (* getfnc_gather_random: log_fatal *)
| Fatal_gather_not_initialized  (* read_random_source: log_fatal *)
| Fatal_no_entropy.             (* read_random_source: log_fatal *)

#[global] Instance fatal_eq_dec : EqDecision fatal.
Proof. solve_decision. Defined.

(** The value an API function hands back to its caller. *)
Inductive gcry_error := GPG_ERR_NO_ERROR | GPG_ERR_INV_ARG.

(** ** The static variables of the module *)

(** The counters kept for [_gcry_rngcsprng_dump_stats]; each is an
    [unsigned long]. *)
Record stats := mkStats {
  mixrnd : Z; mixkey : Z; slowpolls : Z; fastpolls : Z;
  getbytes1 : Z; ngetbytes1 : Z; getbytes2 : Z; ngetbytes2 : Z;
  addbytes : Z; naddbytes : Z
}.

Definition set_mixrnd (v : Z) (st : stats) : stats :=
  mkStats v (mixkey st) (slowpolls st) (fastpolls st) (getbytes1 st)
    (ngetbytes1 st) (getbytes2 st) (ngetbytes2 st) (addbytes st)
    (naddbytes st).
Definition set_mixkey (v : Z) (st : stats) : stats :=
  mkStats (mixrnd st) v (slowpolls st) (fastpolls st) (getbytes1 st)
    (ngetbytes1 st) (getbytes2 st) (ngetbytes2 st) (addbytes st)
    (naddbytes st).
Definition set_slowpolls (v : Z) (st : stats) : stats :=
  mkStats (mixrnd st) (mixkey st) v (fastpolls st) (getbytes1 st)
    (ngetbytes1 st) (getbytes2 st) (ngetbytes2 st) (addbytes st)
    (naddbytes st).
Definition set_fastpolls (v : Z) (st : stats) : stats :=
  mkStats (mixrnd st) (mixkey st) (slowpolls st) v (getbytes1 st)
    (ngetbytes1 st) (getbytes2 st) (ngetbytes2 st) (addbytes st)
    (naddbytes st).
Definition set_getbytes1 (v : Z) (st : stats) : stats :=
  mkStats (mixrnd st) (mixkey st) (slowpolls st) (fastpolls st) v
    (ngetbytes1 st) (getbytes2 st) (ngetbytes2 st) (addbytes st)
    (naddbytes st).
Definition set_ngetbytes1 (v : Z) (st : stats) : stats :=
  mkStats (mixrnd st) (mixkey st) (slowpolls st) (fastpolls st)
    (getbytes1 st) v (getbytes2 st) (ngetbytes2 st) (addbytes st)
    (naddbytes st).
Definition set_getbytes2 (v : Z) (st : stats) : stats :=
  mkStats (mixrnd st) (mixkey st) (slowpolls st) (fastpolls st)
    (getbytes1 st) (ngetbytes1 st) v (ngetbytes2 st) (addbytes st)
    (naddbytes st).
Definition set_ngetbytes2 (v : Z) (st : stats) : stats :=
  mkStats (mixrnd st) (mixkey st) (slowpolls st) (fastpolls st)
    (getbytes1 st) (ngetbytes1 st) (getbytes2 st) v (addbytes st)
    (naddbytes st).
Definition set_addbytes (v : Z) (st : stats) : stats :=
  mkStats (mixrnd st) (mixkey st) (slowpolls st) (fastpolls st)
    (getbytes1 st) (ngetbytes1 st) (getbytes2 st) (ngetbytes2 st) v
    (naddbytes st).
Definition set_naddbytes (v : Z) (st : stats) : stats :=
  mkStats (mixrnd st) (mixkey st) (slowpolls st) (fastpolls st)
    (getbytes1 st) (ngetbytes1 st) (getbytes2 st) (ngetbytes2 st)
    (addbytes st) v.

Record rng_state := mkState {
  rndpool : list Z;  (* the bytes at [rndpool]; [[]] while the pointer is NULL *)
  keypool : list Z;  (* the bytes at [keypool] *)
  rndpool_set : bool;  (* whether [rndpool] is not NULL *)
  pool_writepos : nat;
  pool_readpos : nat;
  pool_filled : bool;
  pool_filled_counter : Z;
  did_initial_extra_seeding : bool;
  pool_balance : Z;
  just_mixed : bool;
  seed_file_name : option string;
  allow_seed_file_update : bool;
  slow_gather_fnc : bool;  (* whether the function pointer is set *)
  fast_gather_fnc : bool;  (* whether the function pointer is set *)
  quick_test : bool;
  pool_is_locked : bool;
  rndstats : stats;
  failsafe_digest : list Z;  (* static in [mix_pool] *)
  failsafe_digest_valid : bool;  (* static in [mix_pool] *)
  my_pid : Z;  (* static in [read_pool] *)
  tick : nat;  (* how many questions the environment has answered *)
  gather_log : list gather_request;  (* every call of [slow_gather_fnc], oldest first *)
  release_log : list (nat * nat)
    (* the cursors at every [unlock_pool], latest first *)
}.

Definition set_rndpool (v : list Z) (s : rng_state) : rng_state :=
  mkState v (keypool s) (rndpool_set s) (pool_writepos s) (pool_readpos s)
    (pool_filled s) (pool_filled_counter s) (did_initial_extra_seeding s)
    (pool_balance s) (just_mixed s) (seed_file_name s)
    (allow_seed_file_update s) (slow_gather_fnc s) (fast_gather_fnc s)
    (quick_test s) (pool_is_locked s) (rndstats s) (failsafe_digest s)
    (failsafe_digest_valid s) (my_pid s) (tick s) (gather_log s)
    (release_log s).
Definition set_keypool (v : list Z) (s : rng_state) : rng_state :=
  mkState (rndpool s) v (rndpool_set s) (pool_writepos s) (pool_readpos s)
    (pool_filled s) (pool_filled_counter s) (did_initial_extra_seeding s)
    (pool_balance s) (just_mixed s) (seed_file_name s)
    (allow_seed_file_update s) (slow_gather_fnc s) (fast_gather_fnc s)
    (quick_test s) (pool_is_locked s) (rndstats s) (failsafe_digest s)
    (failsafe_digest_valid s) (my_pid s) (tick s) (gather_log s)
    (release_log s).
Definition set_rndpool_set (v : bool) (s : rng_state) : rng_state :=
  mkState (rndpool s) (keypool s) v (pool_writepos s) (pool_readpos s)
    (pool_filled s) (pool_filled_counter s) (did_initial_extra_seeding s)
    (pool_balance s) (just_mixed s) (seed_file_name s)
    (allow_seed_file_update s) (slow_gather_fnc s) (fast_gather_fnc s)
    (quick_test s) (pool_is_locked s) (rndstats s) (failsafe_digest s)
    (failsafe_digest_valid s) (my_pid s) (tick s) (gather_log s)
    (release_log s).
Definition set_pool_writepos (v : nat) (s : rng_state) : rng_state :=
  mkState (rndpool s) (keypool s) (rndpool_set s) v (pool_readpos s)
    (pool_filled s) (pool_filled_counter s) (did_initial_extra_seeding s)
    (pool_balance s) (just_mixed s) (seed_file_name s)
    (allow_seed_file_update s) (slow_gather_fnc s) (fast_gather_fnc s)
    (quick_test s) (pool_is_locked s) (rndstats s) (failsafe_digest s)
    (failsafe_digest_valid s) (my_pid s) (tick s) (gather_log s)
    (release_log s).
Definition set_pool_readpos (v : nat) (s : rng_state) : rng_state :=
  mkState (rndpool s) (keypool s) (rndpool_set s) (pool_writepos s) v
    (pool_filled s) (pool_filled_counter s) (did_initial_extra_seeding s)
    (pool_balance s) (just_mixed s) (seed_file_name s)
    (allow_seed_file_update s) (slow_gather_fnc s) (fast_gather_fnc s)
    (quick_test s) (pool_is_locked s) (rndstats s) (failsafe_digest s)
    (failsafe_digest_valid s) (my_pid s) (tick s) (gather_log s)
    (release_log s).
Definition set_pool_filled (v : bool) (s : rng_state) : rng_state :=
  mkState (rndpool s) (keypool s) (rndpool_set s) (pool_writepos s)
    (pool_readpos s) v (pool_filled_counter s) (did_initial_extra_seeding s)
    (pool_balance s) (just_mixed s) (seed_file_name s)
    (allow_seed_file_update s) (slow_gather_fnc s) (fast_gather_fnc s)
    (quick_test s) (pool_is_locked s) (rndstats s) (failsafe_digest s)
    (failsafe_digest_valid s) (my_pid s) (tick s) (gather_log s)
    (release_log s).
Definition set_pool_filled_counter (v : Z) (s : rng_state) : rng_state :=
  mkState (rndpool s) (keypool s) (rndpool_set s) (pool_writepos s)
    (pool_readpos s) (pool_filled s) v (did_initial_extra_seeding s)
    (pool_balance s) (just_mixed s) (seed_file_name s)
    (allow_seed_file_update s) (slow_gather_fnc s) (fast_gather_fnc s)
    (quick_test s) (pool_is_locked s) (rndstats s) (failsafe_digest s)
    (failsafe_digest_valid s) (my_pid s) (tick s) (gather_log s)
    (release_log s).
Definition set_did_initial_extra_seeding (v : bool) (s : rng_state) : rng_state :=
  mkState (rndpool s) (keypool s) (rndpool_set s) (pool_writepos s)
    (pool_readpos s) (pool_filled s) (pool_filled_counter s) v
    (pool_balance s) (just_mixed s) (seed_file_name s)
    (allow_seed_file_update s) (slow_gather_fnc s) (fast_gather_fnc s)
    (quick_test s) (pool_is_locked s) (rndstats s) (failsafe_digest s)
    (failsafe_digest_valid s) (my_pid s) (tick s) (gather_log s)
    (release_log s).
Definition set_pool_balance (v : Z) (s : rng_state) : rng_state :=
  mkState (rndpool s) (keypool s) (rndpool_set s) (pool_writepos s)
    (pool_readpos s) (pool_filled s) (pool_filled_counter s)
    (did_initial_extra_seeding s) v (just_mixed s) (seed_file_name s)
    (allow_seed_file_update s) (slow_gather_fnc s) (fast_gather_fnc s)
    (quick_test s) (pool_is_locked s) (rndstats s) (failsafe_digest s)
    (failsafe_digest_valid s) (my_pid s) (tick s) (gather_log s)
    (release_log s).
Definition set_just_mixed (v : bool) (s : rng_state) : rng_state :=
  mkState (rndpool s) (keypool s) (rndpool_set s) (pool_writepos s)
    (pool_readpos s) (pool_filled s) (pool_filled_counter s)
    (did_initial_extra_seeding s) (pool_balance s) v (seed_file_name s)
    (allow_seed_file_update s) (slow_gather_fnc s) (fast_gather_fnc s)
    (quick_test s) (pool_is_locked s) (rndstats s) (failsafe_digest s)
    (failsafe_digest_valid s) (my_pid s) (tick s) (gather_log s)
    (release_log s).
Definition set_seed_file_name (v : option string) (s : rng_state) : rng_state :=
  mkState (rndpool s) (keypool s) (rndpool_set s) (pool_writepos s)
    (pool_readpos s) (pool_filled s) (pool_filled_counter s)
    (did_initial_extra_seeding s) (pool_balance s) (just_mixed s) v
    (allow_seed_file_update s) (slow_gather_fnc s) (fast_gather_fnc s)
    (quick_test s) (pool_is_locked s) (rndstats s) (failsafe_digest s)
    (failsafe_digest_valid s) (my_pid s) (tick s) (gather_log s)
    (release_log s).
Definition set_allow_seed_file_update (v : bool) (s : rng_state) : rng_state :=
  mkState (rndpool s) (keypool s) (rndpool_set s) (pool_writepos s)
    (pool_readpos s) (pool_filled s) (pool_filled_counter s)
    (did_initial_extra_seeding s) (pool_balance s) (just_mixed s)
    (seed_file_name s) v (slow_gather_fnc s) (fast_gather_fnc s)
    (quick_test s) (pool_is_locked s) (rndstats s) (failsafe_digest s)
    (failsafe_digest_valid s) (my_pid s) (tick s) (gather_log s)
    (release_log s).
Definition set_slow_gather_fnc (v : bool) (s : rng_state) : rng_state :=
  mkState (rndpool s) (keypool s) (rndpool_set s) (pool_writepos s)
    (pool_readpos s) (pool_filled s) (pool_filled_counter s)
    (did_initial_extra_seeding s) (pool_balance s) (just_mixed s)
    (seed_file_name s) (allow_seed_file_update s) v (fast_gather_fnc s)
    (quick_test s) (pool_is_locked s) (rndstats s) (failsafe_digest s)
    (failsafe_digest_valid s) (my_pid s) (tick s) (gather_log s)
    (release_log s).
Definition set_fast_gather_fnc (v : bool) (s : rng_state) : rng_state :=
  mkState (rndpool s) (keypool s) (rndpool_set s) (pool_writepos s)
    (pool_readpos s) (pool_filled s) (pool_filled_counter s)
    (did_initial_extra_seeding s) (pool_balance s) (just_mixed s)
    (seed_file_name s) (allow_seed_file_update s) (slow_gather_fnc s) v
    (quick_test s) (pool_is_locked s) (rndstats s) (failsafe_digest s)
    (failsafe_digest_valid s) (my_pid s) (tick s) (gather_log s)
    (release_log s).
Definition set_quick_test (v : bool) (s : rng_state) : rng_state :=
  mkState (rndpool s) (keypool s) (rndpool_set s) (pool_writepos s)
    (pool_readpos s) (pool_filled s) (pool_filled_counter s)
    (did_initial_extra_seeding s) (pool_balance s) (just_mixed s)
    (seed_file_name s) (allow_seed_file_update s) (slow_gather_fnc s)
    (fast_gather_fnc s) v (pool_is_locked s) (rndstats s)
    (failsafe_digest s) (failsafe_digest_valid s) (my_pid s) (tick s)
    (gather_log s) (release_log s).
Definition set_pool_is_locked (v : bool) (s : rng_state) : rng_state :=
  mkState (rndpool s) (keypool s) (rndpool_set s) (pool_writepos s)
    (pool_readpos s) (pool_filled s) (pool_filled_counter s)
    (did_initial_extra_seeding s) (pool_balance s) (just_mixed s)
    (seed_file_name s) (allow_seed_file_update s) (slow_gather_fnc s)
    (fast_gather_fnc s) (quick_test s) v (rndstats s) (failsafe_digest s)
    (failsafe_digest_valid s) (my_pid s) (tick s) (gather_log s)
    (release_log s).
Definition set_rndstats (v : stats) (s : rng_state) : rng_state :=
  mkState (rndpool s) (keypool s) (rndpool_set s) (pool_writepos s)
    (pool_readpos s) (pool_filled s) (pool_filled_counter s)
    (did_initial_extra_seeding s) (pool_balance s) (just_mixed s)
    (seed_file_name s) (allow_seed_file_update s) (slow_gather_fnc s)
    (fast_gather_fnc s) (quick_test s) (pool_is_locked s) v
    (failsafe_digest s) (failsafe_digest_valid s) (my_pid s) (tick s)
    (gather_log s) (release_log s).
Definition set_failsafe_digest (v : list Z) (s : rng_state) : rng_state :=
  mkState (rndpool s) (keypool s) (rndpool_set s) (pool_writepos s)
    (pool_readpos s) (pool_filled s) (pool_filled_counter s)
    (did_initial_extra_seeding s) (pool_balance s) (just_mixed s)
    (seed_file_name s) (allow_seed_file_update s) (slow_gather_fnc s)
    (fast_gather_fnc s) (quick_test s) (pool_is_locked s) (rndstats s) v
    (failsafe_digest_valid s) (my_pid s) (tick s) (gather_log s)
    (release_log s).
Definition set_failsafe_digest_valid (v : bool) (s : rng_state) : rng_state :=
  mkState (rndpool s) (keypool s) (rndpool_set s) (pool_writepos s)
    (pool_readpos s) (pool_filled s) (pool_filled_counter s)
    (did_initial_extra_seeding s) (pool_balance s) (just_mixed s)
    (seed_file_name s) (allow_seed_file_update s) (slow_gather_fnc s)
    (fast_gather_fnc s) (quick_test s) (pool_is_locked s) (rndstats s)
    (failsafe_digest s) v (my_pid s) (tick s) (gather_log s) (release_log s).
Definition set_my_pid (v : Z) (s : rng_state) : rng_state :=
  mkState (rndpool s) (keypool s) (rndpool_set s) (pool_writepos s)
    (pool_readpos s) (pool_filled s) (pool_filled_counter s)
    (did_initial_extra_seeding s) (pool_balance s) (just_mixed s)
    (seed_file_name s) (allow_seed_file_update s) (slow_gather_fnc s)
    (fast_gather_fnc s) (quick_test s) (pool_is_locked s) (rndstats s)
    (failsafe_digest s) (failsafe_digest_valid s) v (tick s) (gather_log s)
    (release_log s).
Definition set_tick (v : nat) (s : rng_state) : rng_state :=
  mkState (rndpool s) (keypool s) (rndpool_set s) (pool_writepos s)
    (pool_readpos s) (pool_filled s) (pool_filled_counter s)
    (did_initial_extra_seeding s) (pool_balance s) (just_mixed s)
    (seed_file_name s) (allow_seed_file_update s) (slow_gather_fnc s)
    (fast_gather_fnc s) (quick_test s) (pool_is_locked s) (rndstats s)
    (failsafe_digest s) (failsafe_digest_valid s) (my_pid s) v
    (gather_log s) (release_log s).
Definition set_gather_log (v : list gather_request) (s : rng_state) : rng_state :=
  mkState (rndpool s) (keypool s) (rndpool_set s) (pool_writepos s)
    (pool_readpos s) (pool_filled s) (pool_filled_counter s)
    (did_initial_extra_seeding s) (pool_balance s) (just_mixed s)
    (seed_file_name s) (allow_seed_file_update s) (slow_gather_fnc s)
    (fast_gather_fnc s) (quick_test s) (pool_is_locked s) (rndstats s)
    (failsafe_digest s) (failsafe_digest_valid s) (my_pid s) (tick s) v
    (release_log s).
Definition set_release_log (v : list (nat * nat)) (s : rng_state) : rng_state :=
  mkState (rndpool s) (keypool s) (rndpool_set s) (pool_writepos s)
    (pool_readpos s) (pool_filled s) (pool_filled_counter s)
    (did_initial_extra_seeding s) (pool_balance s) (just_mixed s)
    (seed_file_name s) (allow_seed_file_update s) (slow_gather_fnc s)
    (fast_gather_fnc s) (quick_test s) (pool_is_locked s) (rndstats s)
    (failsafe_digest s) (failsafe_digest_valid s) (my_pid s) (tick s)
    (gather_log s) v.

(** [rndstats.f += d] on an [unsigned long]. *)
Definition bump (get : stats -> Z) (set : Z -> stats -> stats) (d : Z)
  (s : rng_state) : rng_state :=
  set_rndstats (set (wrap64 (get (rndstats s) + d)) (rndstats s)) s.

(** ** The world outside the module *)

(** What [read_seed_file] finds when it opens, locks, stats and reads
    the registered file. *)
Inductive seed_file :=
| Seed_ENOENT          (* open fails with ENOENT *)
| Seed_open_failed     (* open fails for another reason *)
| Seed_lock_failed     (* lock_seed_file returns -1 *)
| Seed_stat_failed     (* fstat fails *)
| Seed_not_regular     (* !S_ISREG *)
| Seed_regular (st_size n : Z) (buffer : list Z).
    (* a regular file of [st_size] bytes; [read] returns [n] and leaves
       [buffer] in the POOLSIZE bytes of the local array *)

(** Every answer is indexed by the tick at which the question is asked,
    so that two calls need not agree.  A gatherer answers with the
    buffers it hands to its callback, in order, and its return value. *)
Record environment := {
  env_getpid : nat -> Z;
  env_time : nat -> list Z;             (* the bytes of [time (NULL)] *)
  env_clock : nat -> list Z;            (* the bytes of [clock ()] *)
  env_jent : nat -> bool;               (* _gcry_rndjent_get_version (NULL) *)
  env_seed_file : nat -> seed_file;
  env_gather_module : nat -> bool;      (* getfnc_gather_random finds one *)
  env_fast_module : bool;               (* getfnc_fast_random_poll finds one *)
  env_slow_gather : nat -> random_origins -> Z -> Z -> list (list Z) * Z;
  env_fast_gather : nat -> list (list Z);
  env_hires_time : nat -> option (list (list Z));
    (* the one of gethrtime, gettimeofday, clock_gettime and times that
       is compiled in; [None] when the call fails *)
  env_rusage : nat -> list (list Z);    (* getrusage, where available *)
  env_rndhw : nat -> list (list Z)      (* _gcry_rndhw_poll_fast *)
}.

(** ** Computations that may end the process *)

Inductive result (A : Type) : Type :=
| Val (a : A)
| Fatal (why : fatal)
| OutOfFuel.
Arguments Val {A} a.
Arguments Fatal {A} why.
Arguments OutOfFuel {A}.

Definition M (A : Type) : Type := rng_state -> result A * rng_state.

Definition ret {A} (a : A) : M A := fun s => (Val a, s).

Definition bind {A B} (m : M A) (k : A -> M B) : M B := fun s =>
  match m s with
  | (Val a, s') => k a s'
  | (Fatal why, s') => (Fatal why, s')
  | (OutOfFuel, s') => (OutOfFuel, s')
  end.

Definition die {A} (why : fatal) : M A := fun s => (Fatal why, s).
Definition out_of_fuel {A} : M A := fun s => (OutOfFuel, s).
Definition gets {A} (f : rng_state -> A) : M A := fun s => (Val (f s), s).
Definition modify (f : rng_state -> rng_state) : M unit := fun s => (Val tt, f s).

Notation "'do' x <- m ; k" := (bind m (fun x => k))
  (at level 10, x name, m at level 100, k at level 200).
Notation "'run' m ; k" := (bind m (fun _ => k))
  (at level 10, m at level 100, k at level 200).

(** The bytes of a [pid_t]. *)
Definition pid_bytes (pid : Z) : list Z := bytes_of_word 4 pid.

Inductive pool_id := RNDPOOL | KEYPOOL.

Section Generator.
Context `{Sha1} (E : environment).

(** One question to the environment. *)
Definition ask {A} (q : environment -> nat -> A) : M A := fun s =>
  (Val (q E (tick s)), set_tick (S (tick s)) s).

(** *** mix_pool *)

(** [gcry_assert (pool_is_locked)] is an aid for the test suite and is
    not part of the embedding; every caller below holds the lock. *)
Definition mix_pool (pool : pool_id) (s : rng_state) : rng_state :=
  match pool with
  | RNDPOOL =>
      let failsafe :=
        if failsafe_digest_valid s then Some (failsafe_digest s) else None in
      let mem := mix_bytes failsafe (rndpool s) in
      let s := set_rndpool mem s in
      let s := set_failsafe_digest
                 (sha1_hash_buffer (read_bytes mem 0 POOLSIZE)) s in
      set_failsafe_digest_valid true s
  | KEYPOOL => set_keypool (mix_bytes None (keypool s)) s
  end.

(** *** add_randomness *)

(** [origin >= RANDOM_ORIGIN_SLOWPOLL && !pool_filled] *)
Definition counts_towards_fill (origin : random_origins) (s : rng_state) : bool :=
  (origin_value RANDOM_ORIGIN_SLOWPOLL <=? origin_value origin)%Z
  && negb (pool_filled s).

(** [rndpool[pool_writepos++] ^= *p++] *)
Definition xor_byte (b : Z) (s : rng_state) : rng_state :=
  let i := pool_writepos s in
  let s := set_rndpool (poke (rndpool s) i (Z.lxor (peek (rndpool s) i) b)) s in
  set_pool_writepos (S i) s.

(** The inner [if] of the wrap: the state and [count] after it. *)
Definition credit_fill (origin : random_origins) (count : Z) (s : rng_state)
  : rng_state * Z :=
  if counts_towards_fill origin s then
    let s := set_pool_filled_counter (wrap64 (pool_filled_counter s + count)) s in
    let s := if (Z.of_nat POOLSIZE <=? pool_filled_counter s)%Z
             then set_pool_filled true s else s in
    (s, 0%Z)
  else (s, count).

(** The [while (length--)] loop; the list holds the bytes from [p] on,
    so that [length], once decremented, is the length of [rest]. *)
Fixpoint add_loop (bytes : list Z) (count : Z) (origin : random_origins)
  (s : rng_state) : rng_state :=
  match bytes with
  | [] => s
  | b :: rest =>
      let s := xor_byte b s in
      let count := wrap64 (count + 1) in
      if POOLSIZE <=? pool_writepos s then
        let sc := credit_fill origin count s in
        let s := set_pool_writepos 0 sc.1 in
        let s := mix_pool RNDPOOL s in
        let s := bump mixrnd set_mixrnd 1 s in
        let s := set_just_mixed (length rest =? 0) s in
        add_loop rest sc.2 origin s
      else add_loop rest count origin s
  end.

Definition add_randomness (buffer : list Z) (origin : random_origins)
  (s : rng_state) : rng_state :=
  let s := bump addbytes set_addbytes (Z.of_nat (length buffer)) s in
  let s := bump naddbytes set_naddbytes 1 s in
  add_loop buffer 0 origin s.

(** A gatherer or poll function calling back with each buffer. *)
Definition add_each (chunks : list (list Z)) (origin : random_origins)
  (s : rng_state) : rng_state :=
  foldl (fun s chunk => add_randomness chunk origin s) s chunks.

(** *** read_random_source, random_poll, do_fast_random_poll *)

Definition read_random_source (origin : random_origins) (length level : Z)
  : M unit :=
  do fnc <- gets slow_gather_fnc;
  if negb fnc then die Fatal_gather_not_initialized else
  do r <- ask (fun E t => env_slow_gather E t origin length level);
  run modify (fun s => set_gather_log (gather_log s ++ [(origin, length, level)]) s);
  run modify (add_each r.1 origin);
  if (r.2 <? 0)%Z then die Fatal_no_entropy else ret tt.

Definition random_poll : M unit :=
  run modify (bump slowpolls set_slowpolls 1);
  read_random_source RANDOM_ORIGIN_SLOWPOLL (Z.of_nat (POOLSIZE / 5))
    GCRY_STRONG_RANDOM.

Definition do_fast_random_poll : M unit :=
  run modify (bump fastpolls set_fastpolls 1);
  do fnc <- gets fast_gather_fnc;
  run (if fnc
       then do chunks <- ask env_fast_gather;
            modify (add_each chunks RANDOM_ORIGIN_FASTPOLL)
       else ret tt);
  do tv <- ask env_hires_time;
  match tv with
  | None => die Bug_time_source
  | Some chunks =>
      run modify (add_each chunks RANDOM_ORIGIN_FASTPOLL);
      do ru <- ask env_rusage;
      run modify (add_each ru RANDOM_ORIGIN_FASTPOLL);
      do x <- ask env_time;
      run modify (add_randomness x RANDOM_ORIGIN_FASTPOLL);
      do x <- ask env_clock;
      run modify (add_randomness x RANDOM_ORIGIN_FASTPOLL);
      do hw <- ask env_rndhw;
      modify (add_each hw RANDOM_ORIGIN_FASTPOLL)
  end.

End Generator.

Section Extractor.
Context `{Sha1} (E : environment).

(** *** read_seed_file *)

Definition read_seed_file : M bool :=
  do name <- gets seed_file_name;
  match name with
  | None => ret false
  | Some _ =>
      do f <- ask E env_seed_file;
      match f with
      | Seed_ENOENT =>
          run modify (set_allow_seed_file_update true); ret false
      | Seed_open_failed | Seed_lock_failed | Seed_stat_failed
      | Seed_not_regular => ret false
      | Seed_regular st_size n buffer =>
          if (st_size =? 0)%Z then
            run modify (set_allow_seed_file_update true); ret false
          else if negb (st_size =? Z.of_nat POOLSIZE)%Z then ret false
          else if negb (n =? Z.of_nat POOLSIZE)%Z then
            die Fatal_cannot_read_seed_file
          else
            run modify (add_randomness (read_bytes buffer 0 POOLSIZE)
                          RANDOM_ORIGIN_INIT);
            do x <- ask E env_getpid;
            run modify (add_randomness (pid_bytes x) RANDOM_ORIGIN_INIT);
            do x <- ask E env_time;
            run modify (add_randomness x RANDOM_ORIGIN_INIT);
            do x <- ask E env_clock;
            run modify (add_randomness x RANDOM_ORIGIN_INIT);
            do jent <- ask E env_jent;
            run (if jent
                 then read_random_source E RANDOM_ORIGIN_INIT 128
                        GCRY_STRONG_RANDOM
                 else read_random_source E RANDOM_ORIGIN_INIT 32
                        GCRY_STRONG_RANDOM);
            run modify (set_allow_seed_file_update true);
            ret true
      end
  end.

(** *** read_pool, block by block *)

(** From [retry:] to the second assertion; the value is [my_pid2]. *)
Definition fork_check : M Z :=
  do my_pid2 <- ask E env_getpid;
  run modify (fun s => if (my_pid s =? -1)%Z then set_my_pid my_pid2 s else s);
  do pid <- gets my_pid;
  run (if negb (pid =? my_pid2)%Z
       then modify (fun s =>
              let s := set_my_pid my_pid2 s in
              let s := add_randomness (pid_bytes (my_pid s)) RANDOM_ORIGIN_INIT s in
              set_just_mixed false s)
       else ret tt);
  ret my_pid2.

(** [if (!pool_filled) { if (read_seed_file ()) pool_filled = 1; }] *)
Definition seed_on_demand : M unit :=
  do filled <- gets pool_filled;
  if filled then ret tt else
  do loaded <- read_seed_file;
  if loaded then modify (set_pool_filled true) else ret tt.

(** The first block for level 2. *)
Definition initial_extra_seeding (length level : Z) : M unit :=
  do done <- gets did_initial_extra_seeding;
  if (level =? GCRY_VERY_STRONG_RANDOM)%Z && negb done then
    run modify (set_pool_balance 0);
    do balance <- gets pool_balance;
    let needed := wrap64 (length - size_t_of_int balance) in
    do needed <- (if (needed <? 16)%Z then ret 16%Z
                  else if (needed >? Z.of_nat POOLSIZE)%Z
                       then die Bug_initial_extra_seeding
                       else ret needed);
    run read_random_source E RANDOM_ORIGIN_EXTRAPOLL needed
          GCRY_VERY_STRONG_RANDOM;
    run modify (fun s => set_pool_balance
                  (int_of_size_t (wrap64 (size_t_of_int (pool_balance s) + needed))) s);
    modify (set_did_initial_extra_seeding true)
  else ret tt.

(** The second block for level 2. *)
Definition balance_topup (length level : Z) : M unit :=
  do balance <- gets pool_balance;
  if (level =? GCRY_VERY_STRONG_RANDOM)%Z
     && (size_t_of_int balance <? length)%Z then
    run modify (fun s => if (pool_balance s <? 0)%Z
                         then set_pool_balance 0 s else s);
    do balance <- gets pool_balance;
    let needed := wrap64 (length - size_t_of_int balance) in
    if (needed >? Z.of_nat POOLSIZE)%Z then die Bug_balance_topup else
    run read_random_source E RANDOM_ORIGIN_EXTRAPOLL needed
          GCRY_VERY_STRONG_RANDOM;
    modify (fun s => set_pool_balance
              (int_of_size_t (wrap64 (size_t_of_int (pool_balance s) + needed))) s)
  else ret tt.

(** [while (!pool_filled) random_poll ();] *)
Fixpoint fill_pool (fuel : nat) : M unit :=
  do filled <- gets pool_filled;
  if filled then ret tt else
  match fuel with
  | 0 => out_of_fuel
  | S fuel' => run random_poll E; fill_pool fuel'
  end.

(** Mix the pid in. *)
Definition add_own_pid : M unit :=
  modify (fun s => add_randomness (pid_bytes (my_pid s)) RANDOM_ORIGIN_INIT s).

(** Mix the pool (if add_randomness () didn't it). *)
Definition mix_if_needed : M unit :=
  modify (fun s => if just_mixed s then s
                   else bump mixrnd set_mixrnd 1 (mix_pool RNDPOOL s)).

(** Create a new pool: [*dp = *sp + ADD_VALUE] for every word. *)
Definition create_keypool (s : rng_state) : rng_state :=
  set_keypool
    (foldl (fun kp i => store_word kp i (wrap64 (load_word (rndpool s) i + ADD_VALUE)))
           (keypool s) (seq 0 POOLWORDS)) s.

(** Mix both pools. *)
Definition mix_both (s : rng_state) : rng_state :=
  let s := bump mixrnd set_mixrnd 1 (mix_pool RNDPOOL s) in
  bump mixkey set_mixkey 1 (mix_pool KEYPOOL s).

(** [while (length--) { *buffer++ = keypool[pool_readpos++]; ... }] run
    for the [k] bytes that remain; the test that ends the loop
    decrements [length] once more. *)
Fixpoint deliver (k : nat) (buffer : list Z) (p : nat) (length : Z)
  (s : rng_state) : list Z * nat * Z * rng_state :=
  match k with
  | 0 => (buffer, p, wrap64 (length - 1), s)
  | S k' =>
      let length := wrap64 (length - 1) in
      let buffer := poke buffer p (peek (keypool s) (pool_readpos s)) in
      let s := set_pool_readpos (S (pool_readpos s)) s in
      let s := if POOLSIZE <=? pool_readpos s then set_pool_readpos 0 s else s in
      let s := set_pool_balance (pool_balance s - 1) s in
      deliver k' buffer (S p) length s
  end.

Definition clamp_balance (s : rng_state) : rng_state :=
  if (pool_balance s <? 0)%Z then set_pool_balance 0 s else s.

(** [memset (keypool, 0, POOLSIZE)] *)
Definition clear_keypool (s : rng_state) : rng_state :=
  set_keypool (memset (keypool s) 0 POOLSIZE) s.

(** [buffer] is the caller's memory and [p] the offset in it at which
    this call writes.  [goto retry] runs the function again with the
    variables as the first pass left them. *)
Fixpoint read_pool (fuel : nat) (buffer : list Z) (p : nat) (length level : Z)
  : M (list Z) :=
  do my_pid2 <- fork_check;
  if (length >? Z.of_nat POOLSIZE)%Z then die Bug_too_many_random_bits else
  run seed_on_demand;
  run initial_extra_seeding length level;
  run balance_topup length level;
  run fill_pool fuel;
  run do_fast_random_poll E;
  run add_own_pid;
  run mix_if_needed;
  run modify create_keypool;
  run modify mix_both;
  do out <- (fun s => let '(buffer, p, length, s) :=
                        deliver (Z.to_nat length) buffer p length s in
                      (Val (buffer, p, length), s));
  run modify clamp_balance;
  run modify clear_keypool;
  do pid <- ask E env_getpid;
  if negb (pid =? my_pid2)%Z then
    do x <- ask E env_getpid;
    run modify (fun s =>
          let s := add_randomness (pid_bytes x) RANDOM_ORIGIN_INIT s in
          let s := set_just_mixed false s in
          set_my_pid x s);
    match fuel with
    | 0 => out_of_fuel
    | S fuel' => read_pool fuel' out.1.1 out.1.2 out.2 level
    end
  else ret out.1.1.

End Extractor.

Section Api.
Context `{Sha1} (E : environment).

(** *** The pool lock

    The embedding is sequential: taking and releasing the lock always
    succeed.  [unlock_pool] also files the cursors as they are when the
    lock is released. *)
Definition locked (s : rng_state) : rng_state := set_pool_is_locked true s.

Definition released (s : rng_state) : rng_state :=
  let s := set_pool_is_locked false s in
  set_release_log ((pool_writepos s, pool_readpos s) :: release_log s) s.

Definition lock_pool : M unit := modify locked.
Definition unlock_pool : M unit := modify released.

(** *** initialize *)

(** [initialize_basics] only checks the values of the level constants. *)
Definition initialize_basics : M unit := ret tt.

Definition initialize : M unit :=
  run initialize_basics;
  run lock_pool;
  do allocated <- gets rndpool_set;
  run (if negb allocated then
         run modify (fun s =>
               let s := set_rndpool (replicate (POOLSIZE + BLOCKLEN) 0%Z) s in
               let s := set_rndpool_set true s in
               set_keypool (replicate (POOLSIZE + BLOCKLEN) 0%Z) s);
         do found <- ask E env_gather_module;
         run (if found then modify (set_slow_gather_fnc true)
              else die Fatal_no_gather_module);
         modify (set_fast_gather_fnc (env_fast_module E))
       else ret tt);
  unlock_pool.

Definition _gcry_rngcsprng_initialize (full : bool) : M unit :=
  if negb full then initialize_basics else initialize.

(** *** _gcry_rngcsprng_close_fds *)
Definition _gcry_rngcsprng_close_fds : M unit :=
  run lock_pool;
  run modify (fun s =>
        let s := set_pool_writepos 0 s in
        let s := set_pool_readpos 0 s in
        let s := set_pool_filled false s in
        let s := set_pool_filled_counter 0 s in
        let s := set_did_initial_extra_seeding false s in
        let s := set_pool_balance 0 s in
        let s := set_just_mixed false s in
        let s := set_rndpool [] s in
        let s := set_keypool [] s in
        set_rndpool_set false s);
  unlock_pool.

Definition _gcry_rngcsprng_enable_quick_gen : M unit :=
  modify (set_quick_test true).

Definition _gcry_rngcsprng_is_faked : M bool :=
  run initialize; gets quick_test.

(** *** _gcry_rngcsprng_add_bytes *)

Definition clamp_quality (quality : Z) : Z :=
  if (quality =? -1)%Z then 35%Z
  else if (quality >? 100)%Z then 100%Z
  else if (quality <? 0)%Z then 0%Z
  else quality.

(** [while (buflen)]: every round consumes a byte at least, so that
    [length buf] rounds are enough. *)
Fixpoint add_bytes_loop (rounds : nat) (bufptr : list Z) : M unit :=
  if length bufptr =? 0 then ret tt else
  match rounds with
  | 0 => out_of_fuel
  | S rounds' =>
      let nbytes := if POOLSIZE <? length bufptr then POOLSIZE
                    else length bufptr in
      run lock_pool;
      do allocated <- gets rndpool_set;
      run (if allocated
           then modify (add_randomness (take nbytes bufptr)
                          RANDOM_ORIGIN_EXTERNAL)
           else ret tt);
      run unlock_pool;
      add_bytes_loop rounds' (drop nbytes bufptr)
  end.

(** [buf] is [None] for a NULL pointer and holds the [buflen] bytes
    otherwise. *)
Definition _gcry_rngcsprng_add_bytes (buf : option (list Z)) (quality : Z)
  : M gcry_error :=
  let quality := clamp_quality quality in
  match buf with
  | None => ret GPG_ERR_INV_ARG
  | Some bytes =>
      if (length bytes =? 0) || (quality <? 10)%Z
      then ret GPG_ERR_NO_ERROR   (* Take a shortcut. *)
      else
        run initialize_basics;
        run add_bytes_loop (length bytes) bytes;
        ret GPG_ERR_NO_ERROR
  end.

(** *** _gcry_rngcsprng_randomize *)

(** [for (p = buffer; length > 0;)]: every round takes a byte at least
    off [length]. *)
Fixpoint randomize_loop (rounds fuel : nat) (buffer : list Z) (p : nat)
  (length level : Z) : M (list Z) :=
  if (length >? 0)%Z then
    match rounds with
    | 0 => out_of_fuel
    | S rounds' =>
        let n := if (length >? Z.of_nat POOLSIZE)%Z then Z.of_nat POOLSIZE
                 else length in
        do buffer <- read_pool E fuel buffer p n level;
        randomize_loop rounds' fuel buffer (p + Z.to_nat n) (length - n) level
    end
  else ret buffer.

Definition _gcry_rngcsprng_randomize (fuel : nat) (buffer : list Z)
  (length level : Z) : M (list Z) :=
  run initialize;
  do quick <- gets quick_test;
  let level := if quick && (level >? GCRY_STRONG_RANDOM)%Z
               then GCRY_STRONG_RANDOM else level in
  let level := Z.land level 3 in
  run lock_pool;
  run (if (level >=? GCRY_VERY_STRONG_RANDOM)%Z
       then modify (fun s => bump ngetbytes2 set_ngetbytes2 1
                               (bump getbytes2 set_getbytes2 length s))
       else modify (fun s => bump ngetbytes1 set_ngetbytes1 1
                               (bump getbytes1 set_getbytes1 length s)));
  do buffer <- randomize_loop (Z.to_nat length) fuel buffer 0 length level;
  run unlock_pool;
  ret buffer.

(** *** The seed file *)

Definition _gcry_rngcsprng_set_seed_file (name : string) : M unit :=
  do old <- gets seed_file_name;
  match old with
  | Some _ => die Bug_seed_file_set_twice
  | None => modify (set_seed_file_name (Some name))
  end.

(** Whatever becomes of opening, locking and writing the file is only
    logged. *)
Definition _gcry_rngcsprng_update_seed_file : M unit :=
  run initialize_basics;
  run lock_pool;
  do s <- gets id;
  if bool_decide (seed_file_name s = None) || negb (rndpool_set s)
     || negb (pool_filled s)
  then unlock_pool
  else if negb (allow_seed_file_update s) then unlock_pool
  else
    run modify (create_keypool);
    run modify mix_both;
    unlock_pool.

(** *** _gcry_rngcsprng_fast_poll *)
Definition _gcry_rngcsprng_fast_poll : M unit :=
  run initialize_basics;
  run lock_pool;
  do allocated <- gets rndpool_set;
  run (if allocated then do_fast_random_poll E else ret tt);
  unlock_pool.

(** *** Runs of the library *)

(** The calls a program can make; [_gcry_rngcsprng_dump_stats] and
    [_gcry_rngcsprng_secure_alloc] touch nothing that is modelled. *)
Inductive api_call :=
| Call_initialize (full : bool)
| Call_close_fds
| Call_enable_quick_gen
| Call_is_faked
| Call_add_bytes (buf : option (list Z)) (quality : Z)
| Call_randomize (buffer : list Z) (length level : Z)
| Call_set_seed_file (name : string)
| Call_update_seed_file
| Call_fast_poll.

Definition ignore {A} (m : M A) : M unit := run m; ret tt.

Definition run_call (fuel : nat) (c : api_call) : M unit :=
  match c with
  | Call_initialize full => _gcry_rngcsprng_initialize full
  | Call_close_fds => _gcry_rngcsprng_close_fds
  | Call_enable_quick_gen => _gcry_rngcsprng_enable_quick_gen
  | Call_is_faked => ignore _gcry_rngcsprng_is_faked
  | Call_add_bytes buf quality => ignore (_gcry_rngcsprng_add_bytes buf quality)
  | Call_randomize buffer length level =>
      ignore (_gcry_rngcsprng_randomize fuel buffer length level)
  | Call_set_seed_file name => _gcry_rngcsprng_set_seed_file name
  | Call_update_seed_file => _gcry_rngcsprng_update_seed_file
  | Call_fast_poll => _gcry_rngcsprng_fast_poll
  end.

Fixpoint run_calls (fuel : nat) (cs : list api_call) : M unit :=
  match cs with
  | [] => ret tt
  | c :: cs' => run run_call fuel c; run_calls fuel cs'
  end.

End Api.

(** ** The helpers of the seed file *)

(** *** lock_seed_file *)

(** What [fcntl (fd, F_SETLK, &lck)] answers. *)
Inductive fcntl_result :=
| Fcntl_granted     (* not -1 *)
| Fcntl_busy        (* -1 with EAGAIN or EACCES *)
| Fcntl_failed.     (* -1 with another errno *)

(** What [lock_seed_file] does besides answering: the lines it logs and
    the [select] calls it sleeps in. *)
Inductive lock_event :=
| Log_cannot_lock
| Log_waiting
| Sleep (tv_sec tv_usec : Z).

(** The [while] loop; [k] counts the calls of [fcntl] so far. *)
Fixpoint lock_loop (fcntl : nat -> fcntl_result) (fuel k : nat) (backoff : Z)
  : option (Z * list lock_event) :=
  match fuel with
  | 0 => None
  | S fuel' =>
      match fcntl k with
      | Fcntl_granted => Some (0%Z, [])
      | Fcntl_failed => Some ((-1)%Z, [Log_cannot_lock])
      | Fcntl_busy =>
          let events := (if (backoff >? 2)%Z then [Log_waiting] else [])
                          ++ [Sleep backoff 250000] in
          let backoff := if (backoff <? 10)%Z then (backoff + 1)%Z else backoff in
          match lock_loop fcntl fuel' (S k) backoff with
          | Some (r, rest) => Some (r, events ++ rest)
          | None => None
          end
      end
  end.

(** [locking] is [LOCK_SEED_FILE]; [for_write] chooses between
    [F_WRLCK] and [F_RDLCK], which is all [fcntl] sees of it. *)
Definition lock_seed_file (locking : bool) (fcntl : bool -> nat -> fcntl_result)
  (fuel : nat) (for_write : bool) : option (Z * list lock_event) :=
  if locking then lock_loop (fcntl for_write) fuel 0 0%Z else Some (0%Z, []).

(** *** any8bitchar *)

(** The loop over the bytes from [string] on: it ends at the NUL, or
    before it with 1 at a byte that has the bit 0x80 set.  The list
    holds the bytes of the string; where it ends without a NUL the loop
    ends as at one. *)
Fixpoint any8bit_loop (bytes : list Z) : Z :=
  match bytes with
  | [] => 0
  | c :: rest =>
      if (c =? 0)%Z then 0
      else if negb (Z.land c 0x80 =? 0)%Z then 1
      else any8bit_loop rest
  end%Z.

(** [string] is [None] for a NULL pointer. *)
Definition any8bitchar (string : option (list Z)) : Z :=
  match string with
  | None => 0%Z
  | Some bytes => any8bit_loop bytes
  end.

(** The module as the loader leaves it. *)
Definition initial_stats : stats := mkStats 0 0 0 0 0 0 0 0 0 0.

Definition initial_state : rng_state :=
  {| rndpool := []; keypool := []; rndpool_set := false;
     pool_writepos := 0; pool_readpos := 0;
     pool_filled := false; pool_filled_counter := 0;
     did_initial_extra_seeding := false; pool_balance := 0;
     just_mixed := false; seed_file_name := None;
     allow_seed_file_update := false;
     slow_gather_fnc := false; fast_gather_fnc := false;
     quick_test := false; pool_is_locked := false;
     rndstats := initial_stats;
     failsafe_digest := replicate DIGESTLEN 0%Z;
     failsafe_digest_valid := false;
     my_pid := (-1)%Z; tick := 0; gather_log := []; release_log := [] |}.

Arguments wrap64 : simpl never.
Arguments int_of_size_t : simpl never.
Arguments size_t_of_int : simpl never.
Arguments mix_pool : simpl never.
Arguments add_randomness : simpl never.
Arguments add_each : simpl never.

(** * What is proved about the generator *)

(** ** Statements about the mixer *)

(** 64 bytes read from offset [p] on, wrapping at the end of the pool. *)
Definition wrap_read (mem : list Z) (p : nat) : list Z :=
  (fun i => peek mem ((p + i) mod POOLSIZE)) <$> seq 0 BLOCKLEN.

(** One round of the mixer, entered in state [st], hashes the block read
    from [read_at] and stores the digest at [write_at], leaving the rest
    of the pool alone. *)
Definition mix_round_at `{Sha1} (read_at write_at : nat)
  (st : sha1_ctx * list Z * nat) : Prop :=
  let block := wrap_read st.1.2 read_at in
  let st' := mix_iter st in
  read_bytes (fill_hashbuf st.1.2 st.2) POOLSIZE BLOCKLEN = block /\
  st'.1.1 = (sha1_mixblock st.1.1 block).1 /\
  read_bytes st'.1.2 write_at DIGESTLEN = (sha1_mixblock st.1.1 block).2 /\
  (forall j, j < POOLSIZE -> ~ (write_at <= j < write_at + DIGESTLEN) ->
             peek st'.1.2 j = peek st.1.2 j).

(** ** Statements about monadic code *)

(** An invariant of a computation, whatever its outcome. *)
Definition always {A} (I : rng_state -> Prop) (m : M A) : Prop :=
  forall s, I s -> I (m s).2.

(** A fatal end a computation never comes to. *)
Definition never {A} (why : fatal) (m : M A) : Prop :=
  forall s, (m s).1 <> Fatal why.

(** ** Statements about the cursors and the pools *)

Definition cursors_ok (c : nat * nat) : Prop := c.1 < POOLSIZE /\ c.2 < POOLSIZE.

(** Both cursors are inside the pool, now and at every release of the
    lock so far. *)
Definition cursor_inv (s : rng_state) : Prop :=
  cursors_ok (pool_writepos s, pool_readpos s) /\ Forall cursors_ok (release_log s).

(** The key pool is allocated: [POOLSIZE] bytes and the scratch block. *)
Definition keypool_allocated (s : rng_state) : Prop :=
  length (keypool s) = POOLSIZE + BLOCKLEN.

(** The pool part of the key pool is blank. *)
Definition keypool_cleared (s : rng_state) : Prop :=
  read_bytes (keypool s) 0 POOLSIZE = replicate POOLSIZE 0%Z.

(** The fields [add_randomness] leaves alone. *)
Definition bystanders (s : rng_state) :=
  (keypool s, rndpool_set s, pool_readpos s, did_initial_extra_seeding s,
   pool_balance s, seed_file_name s, allow_seed_file_update s,
   slow_gather_fnc s, fast_gather_fnc s, quick_test s, pool_is_locked s,
   my_pid s, tick s, gather_log s, release_log s).

(** What the initial fill is judged by. *)
Definition fill_state (s : rng_state) : bool * Z :=
  (pool_filled s, pool_filled_counter s).

(** An origin that does not count towards the initial fill. *)
Definition unreliable (origin : random_origins) : Prop :=
  (origin_value origin < origin_value RANDOM_ORIGIN_SLOWPOLL)%Z.

(** The environment has answered one more question. *)
Definition tick_step (s : rng_state) : rng_state := set_tick (S (tick s)) s.

(** The pieces [_gcry_rngcsprng_add_bytes] cuts a buffer into; [rounds]
    bounds their number. *)
Fixpoint chunks (rounds : nat) (bytes : list Z) : list (list Z) :=
  if length bytes =? 0 then [] else
  match rounds with
  | 0 => []
  | S rounds' =>
      take (Nat.min POOLSIZE (length bytes)) bytes
        :: chunks rounds' (drop (Nat.min POOLSIZE (length bytes)) bytes)
  end.

Section Statements.
Context `{Sha1} (E : environment).

(** *** The accumulator in the words of the specification

    The bytes of the buffer are taken by index.  [since_wrap] counts the
    bytes of this buffer folded in since the last wrap, or since the
    call began when the pool has not wrapped yet; it and the fill
    counter are unbounded integers. *)
Definition spec_wrap (origin : random_origins) (last : bool) (since_wrap : Z)
  (s : rng_state) : rng_state :=
  let s :=
    if decide ((origin_value RANDOM_ORIGIN_SLOWPOLL <= origin_value origin)%Z
               /\ pool_filled s = false)
    then
      let s := set_pool_filled_counter (pool_filled_counter s + since_wrap)%Z s in
      if decide (Z.of_nat POOLSIZE <= pool_filled_counter s)%Z
      then set_pool_filled true s else s
    else s in
  let s := set_pool_writepos 0 s in
  let s := bump mixrnd set_mixrnd 1 (mix_pool RNDPOOL s) in
  set_just_mixed last s.

Definition spec_add_byte (origin : random_origins) (buffer : list Z)
  (acc : rng_state * Z) (k : nat) : rng_state * Z :=
  let s := acc.1 in
  let s := set_rndpool (poke (rndpool s) (pool_writepos s)
                          (Z.lxor (peek (rndpool s) (pool_writepos s))
                                  (peek buffer k))) s in
  let s := set_pool_writepos (pool_writepos s + 1) s in
  let since_wrap := (acc.2 + 1)%Z in
  if pool_writepos s =? POOLSIZE
  then (spec_wrap origin (bool_decide (k + 1 = length buffer)) since_wrap s, 0%Z)
  else (s, since_wrap).

Definition spec_add (buffer : list Z) (origin : random_origins)
  (s : rng_state) : rng_state :=
  let s := bump addbytes set_addbytes (Z.of_nat (length buffer)) s in
  let s := bump naddbytes set_naddbytes 1 s in
  (foldl (spec_add_byte origin buffer) (s, 0%Z) (seq 0 (length buffer))).1.

(** *** States the seeding code leaves *)

(** What a call of the slow gatherer leaves behind: the request is on
    record and the buffers it handed over are folded in. *)
Definition after_gather (origin : random_origins) (length level : Z)
  (s : rng_state) : rng_state :=
  add_each (env_slow_gather E (tick s) origin length level).1 origin
    (set_gather_log (gather_log s ++ [(origin, length, level)])
       (set_tick (S (tick s)) s)).

(** The state the first block for level 2 leaves when all goes well. *)
Definition extra_seeded (length : Z) (s : rng_state) : rng_state :=
  let needed := Z.max length 16 in
  set_did_initial_extra_seeding true
    (set_pool_balance needed
       (after_gather RANDOM_ORIGIN_EXTRAPOLL needed GCRY_VERY_STRONG_RANDOM
          (set_pool_balance 0 s))).

(** [x = sample (); add_randomness (&x, sizeof x, origin)] *)
Definition fold_sample (sample : environment -> nat -> list Z)
  (origin : random_origins) (s : rng_state) : rng_state :=
  add_randomness (sample E (tick s)) origin (tick_step s).

(** The file and the samples [read_seed_file] folds in after it. *)
Definition seed_samples (buffer : list Z) (s : rng_state) : rng_state :=
  fold_sample env_clock RANDOM_ORIGIN_INIT
    (fold_sample env_time RANDOM_ORIGIN_INIT
       (fold_sample (fun E t => pid_bytes (env_getpid E t)) RANDOM_ORIGIN_INIT
          (fold_sample (fun _ _ => read_bytes buffer 0 POOLSIZE)
             RANDOM_ORIGIN_INIT s))).

(** The state [read_seed_file] leaves when the file is good. *)
Definition seed_loaded (buffer : list Z) (s : rng_state) : rng_state :=
  let s := seed_samples buffer s in
  let topup := if env_jent E (tick s) then 128%Z else 32%Z in
  set_allow_seed_file_update true
    (after_gather RANDOM_ORIGIN_INIT topup GCRY_STRONG_RANDOM (tick_step s)).

(** *** Rounds of [_gcry_rngcsprng_add_bytes] *)

(** One round of the loop on an allocated pool. *)
Definition add_chunk (s : rng_state) (chunk : list Z) : rng_state :=
  released (add_randomness chunk RANDOM_ORIGIN_EXTERNAL (locked s)).

(** One round of the loop before the pool is allocated. *)
Definition skip_chunk (s : rng_state) (chunk : list Z) : rng_state :=
  released (locked s).

End Statements.

(** ** What else is proved *)

(** What a computation establishes when it returns. *)
Definition hoare {A} (P : rng_state -> Prop) (m : M A)
  (Q : A -> rng_state -> Prop) : Prop :=
  forall s a s', P s -> m s = (Val a, s') -> Q a s'.

(** A fatal end a computation never comes to from a state in [P]. *)
Definition never_from {A} (P : rng_state -> Prop) (why : fatal) (m : M A) : Prop :=
  forall s, P s -> (m s).1 <> Fatal why.

(** [m] keeps [P] and never ends in [why] from a state in [P]. *)
Definition safe {A} (P : rng_state -> Prop) (why : fatal) (m : M A) : Prop :=
  always P m /\ never_from P why m.

Section Phases.
Context `{Sha1} (E : environment).

(** [read_pool] between the check of the size and the loop that fills
    the pool. *)
Definition read_pool_seeding (length level : Z) : M unit :=
  run seed_on_demand E;
  run initial_extra_seeding E length level;
  balance_topup E length level.

(** [read_pool] between that loop and the delivery. *)
Definition read_pool_stirring : M unit :=
  run do_fast_random_poll E;
  run add_own_pid;
  run mix_if_needed;
  run modify create_keypool;
  modify mix_both.

(** The state [read_pool] returns in, given the one the delivery
    started from. *)
Definition delivered (buffer : list Z) (p : nat) (length : Z) (s : rng_state)
  : rng_state :=
  tick_step (clear_keypool (clamp_balance
    (deliver (Z.to_nat length) buffer p length s).2)).

End Phases.

(** What the blocks of [read_pool] before the delivery never write. *)
Definition outside (s : rng_state) :=
  (rndpool_set s, pool_readpos s, seed_file_name s, slow_gather_fnc s,
   fast_gather_fnc s, quick_test s, pool_is_locked s, release_log s).

Definition outside_is (v : bool * nat * option string * bool * bool * bool * bool
                             * list (nat * nat)) (s : rng_state) : Prop :=
  outside s = v.

(** The pool has been filled once. *)
Definition filled (s : rng_state) : Prop := pool_filled s = true.

(** The measure of the initial fill has the value [v]. *)
Definition fill_is (v : bool * Z) (s : rng_state) : Prop := fill_state s = v.

(** [quick_test] has the value [q]. *)
Definition quick_is (q : bool) (s : rng_state) : Prop := quick_test s = q.

(** The counters of the requests. *)
Definition requests (s : rng_state) : Z * Z * Z * Z :=
  (getbytes1 (rndstats s), ngetbytes1 (rndstats s),
   getbytes2 (rndstats s), ngetbytes2 (rndstats s)).

Definition requests_are (v : Z * Z * Z * Z) (s : rng_state) : Prop := requests s = v.

(** No call of the gatherer so far was for [EXTRAPOLL]. *)
Definition no_extrapoll (s : rng_state) : Prop :=
  Forall (fun r : gather_request => r.1.1 <> RANDOM_ORIGIN_EXTRAPOLL) (gather_log s).

(** [pool_balance] holds an [int]. *)
Definition balance_int (s : rng_state) : Prop :=
  (- 2 ^ 31 <= pool_balance s < 2 ^ 31)%Z.

(** The slow gatherer is set. *)
Definition gset (s : rng_state) : Prop := slow_gather_fnc s = true.

(** The pools are not allocated. *)
Definition unallocated (s : rng_state) : Prop := rndpool_set s = false.

(** Where the pools are allocated the slow gatherer is set. *)
Definition gated (s : rng_state) : Prop :=
  rndpool_set s = true -> slow_gather_fnc s = true.

(** The seed file [n] is registered. *)
Definition named (n : string) (s : rng_state) : Prop := seed_file_name s = Some n.

(** What one busy answer costs, the [i]-th one ([i] from 0). *)
Definition wait_events (i : nat) : list lock_event :=
  (if 2 <? i then [Log_waiting] else []) ++ [Sleep (Z.min (Z.of_nat i) 10) 250000].

(** ** A hash stub and small worlds to run the generator in *)

(** The first twenty bytes of the input, padded with zeros. *)
Definition head20 (l : list Z) : list Z :=
  take DIGESTLEN (l ++ replicate DIGESTLEN 0%Z).

Lemma head20_length l : length (head20 l) = DIGESTLEN.
Proof. unfold head20. rewrite length_take, length_app, length_replicate. lia. Qed.

(** A mixer stub whose [mix_block] hands back the first 20 bytes of its
    input. *)
Definition stub_sha1 : Sha1 := {|
  sha1_ctx := unit;
  sha1_mixblock_init := tt;
  sha1_mixblock := fun _ block => (tt, head20 block);
  sha1_hash_buffer := head20;
  sha1_mixblock_length := fun _ block => head20_length block;
  sha1_hash_buffer_length := head20_length |}.

(** A world whose slow gatherer hands over a pool full of 0x5A at every
    call, with the process id [pid t] at tick [t] and a seed file that
    answers [file]. *)
Definition test_env (pid : nat -> Z) (file : seed_file) : environment := {|
  env_getpid := pid;
  env_time := fun _ => [1; 2; 3; 4; 5; 6; 7; 8]%Z;
  env_clock := fun _ => [9; 9; 9; 9; 9; 9; 9; 9]%Z;
  env_jent := fun _ => false;
  env_seed_file := fun _ => file;
  env_gather_module := fun _ => true;
  env_fast_module := false;
  env_slow_gather := fun _ _ _ _ => ([replicate POOLSIZE 0x5A%Z], 0%Z);
  env_fast_gather := fun _ => [];
  env_hires_time := fun _ => Some [[1; 2; 3; 4; 5; 6; 7; 8]%Z];
  env_rusage := fun _ => [];
  env_rndhw := fun _ => [] |}.

Definition quiet_env : environment := test_env (fun _ => 4711%Z) Seed_ENOENT.

(** The process id changes while the first extraction is under way: the
    eighth question is the [getpid] that follows the delivery. *)
Definition fork_env : environment :=
  test_env (fun t => if t <? 8 then 4711%Z else 4712%Z) Seed_ENOENT.

(** A seed file of [POOLSIZE] zero bytes. *)
Definition seed_env : environment :=
  test_env (fun _ => 4711%Z)
    (Seed_regular (Z.of_nat POOLSIZE) (Z.of_nat POOLSIZE) (replicate POOLSIZE 0%Z)).

(** The module after full initialization, with the lock taken. *)
Definition ready_state : rng_state :=
  locked (@initialize quiet_env initial_state).2.

(** The same with a seed file registered. *)
Definition seeded_state : rng_state :=
  set_seed_file_name (Some "random_seed"%string) ready_state.

(** A pool whose bytes tell their offsets apart. *)
Definition ramp : list Z :=
  (fun i => Z.of_nat (i mod 251)) <$> seq 0 (POOLSIZE + BLOCKLEN).


(** A lock that is busy four times and then granted. *)
Definition busy_fcntl (_ : bool) (k : nat) : fcntl_result :=
  if k <? 4 then Fcntl_busy else Fcntl_granted.

(** * Proofs *)

Ltac pool_consts :=
  change POOLSIZE with 600 in *; change BLOCKLEN with 64 in *;
  change DIGESTLEN with 20 in *; change POOLBLOCKS with 30 in *.

(** ** Byte buffers *)

Section Memory.
Implicit Types (mem bs : list Z) (i j n off : nat).

Lemma lookup_peek mem j : j < length mem -> mem !! j = Some (peek mem j).
Proof.
  intros Hj. unfold peek.
  destruct (lookup_lt_is_Some_2 mem j Hj) as [x ->]. reflexivity.
Qed.

Lemma peek_eq mem1 mem2 i j : mem1 !! i = mem2 !! j -> peek mem1 i = peek mem2 j.
Proof. unfold peek. by intros ->. Qed.

Lemma length_poke mem i v : length (poke mem i v) = length mem.
Proof. apply length_insert. Qed.

Lemma peek_poke_eq mem i v : i < length mem -> peek (poke mem i v) i = v.
Proof. intros Hi. unfold peek, poke. by rewrite list_lookup_insert_eq. Qed.

Lemma peek_poke_ne mem i j v : i <> j -> peek (poke mem i v) j = peek mem j.
Proof. intros Hne. unfold peek, poke. by rewrite list_lookup_insert_ne. Qed.

Lemma length_write_bytes mem off bs : length (write_bytes mem off bs) = length mem.
Proof. apply length_inserts. Qed.

Lemma length_read_bytes mem off n :
  off + n <= length mem -> length (read_bytes mem off n) = n.
Proof. intros Hle. unfold read_bytes. rewrite length_take, length_drop. lia. Qed.

Lemma lookup_read_bytes mem off n i :
  i < n -> read_bytes mem off n !! i = mem !! (off + i).
Proof. intros Hi. unfold read_bytes. by rewrite lookup_take_lt, lookup_drop. Qed.

Lemma lookup_write_bytes_in mem off bs j :
  off <= j < off + length bs -> j < length mem ->
  write_bytes mem off bs !! j = bs !! (j - off).
Proof. intros [H1 H2] H3. unfold write_bytes. by apply list_lookup_inserts. Qed.

Lemma lookup_write_bytes_out mem off bs j :
  j < off \/ off + length bs <= j ->
  write_bytes mem off bs !! j = mem !! j.
Proof.
  intros [Hlt | Hge]; unfold write_bytes.
  - by apply list_lookup_inserts_lt.
  - by apply list_lookup_inserts_ge.
Qed.

Lemma length_memcpy mem dst src n : length (memcpy mem dst src n) = length mem.
Proof. apply length_write_bytes. Qed.

Lemma lookup_memcpy_in mem dst src n j :
  src + n <= length mem -> dst + n <= length mem -> dst <= j < dst + n ->
  memcpy mem dst src n !! j = mem !! (src + (j - dst)).
Proof.
  intros Hs Hd Hj. unfold memcpy.
  rewrite lookup_write_bytes_in, lookup_read_bytes;
    rewrite ?length_read_bytes; (done || lia).
Qed.

Lemma lookup_memcpy_out mem dst src n j :
  src + n <= length mem -> j < dst \/ dst + n <= j ->
  memcpy mem dst src n !! j = mem !! j.
Proof.
  intros Hs Hj. unfold memcpy.
  rewrite lookup_write_bytes_out; [done|]. rewrite length_read_bytes; lia.
Qed.

Lemma length_xor_into mem i src : length (xor_into mem i src) = length mem.
Proof.
  revert mem i. induction src as [|b src IH]; intros mem i; simpl; [done|].
  by rewrite IH, length_poke.
Qed.

Lemma length_memset mem v n : length (memset mem v n) = length mem.
Proof. apply length_write_bytes. Qed.

Lemma read_bytes_memset mem n :
  n <= length mem -> read_bytes (memset mem 0 n) 0 n = replicate n 0%Z.
Proof.
  intros Hn. apply list_eq. intros i.
  destruct (decide (i < n)) as [Hi|Hi].
  - rewrite lookup_read_bytes by done. unfold memset.
    rewrite lookup_write_bytes_in; rewrite ?length_replicate; try lia.
    f_equal. lia.
  - rewrite !lookup_ge_None_2; [done| |].
    + rewrite length_replicate. lia.
    + rewrite length_read_bytes; rewrite ?length_memset; lia.
Qed.

Lemma length_store_word mem i w : length (store_word mem i w) = length mem.
Proof. apply length_write_bytes. Qed.

Lemma wrap64_small z : (0 <= z < 2 ^ 64)%Z -> wrap64 z = z.
Proof. intros Hz. unfold wrap64. by apply Z.mod_small. Qed.

Lemma int_of_size_t_small z : (0 <= z < 2 ^ 31)%Z -> int_of_size_t z = z.
Proof.
  intros Hz. unfold int_of_size_t. rewrite Z.mod_small by lia.
  by rewrite (proj2 (Z.ltb_lt _ _)) by lia.
Qed.

End Memory.

(** ** The mixer *)

Section MixerFacts.
Context `{Sha1}.
Implicit Types (mem : list Z) (md : sha1_ctx).

Lemma length_wrap_copy mem i pp k : length (wrap_copy mem i pp k) = length mem.
Proof.
  revert mem i pp. induction k as [|k IH]; intros mem i pp; cbn [wrap_copy]; [done|].
  by rewrite IH, length_poke.
Qed.

(** The byte loop copies the pool from [pp] on, going back to the start
    of the pool at its end, and touches nothing but the scratch block. *)
Lemma peek_wrap_copy mem i pp k j :
  pp <= POOLSIZE -> POOLSIZE + i + k <= length mem ->
  peek (wrap_copy mem i pp k) j =
    if decide (POOLSIZE + i <= j < POOLSIZE + i + k)
    then peek mem ((pp + (j - (POOLSIZE + i))) mod POOLSIZE)
    else peek mem j.
Proof.
  revert mem i pp. induction k as [|k IH]; intros mem i pp Hpp Hlen; cbn [wrap_copy].
  - case_decide; [lia | done].
  - set (pp' := if POOLSIZE <=? pp then 0 else pp).
    assert (Hpp' : pp' < POOLSIZE /\ pp' = pp mod POOLSIZE).
    { subst pp'. destruct (Nat.leb_spec POOLSIZE pp); pool_consts.
      - assert (pp = 600) as -> by lia. split; [lia | reflexivity].
      - split; [lia|]. symmetry. apply Nat.mod_small. lia. }
    destruct Hpp' as [Hlt Hmod].
    rewrite IH by (rewrite ?length_poke; lia).
    destruct (decide (j = POOLSIZE + i)) as [->|Hne].
    + rewrite decide_False by lia. rewrite decide_True by lia.
      rewrite peek_poke_eq by lia. rewrite Hmod. f_equal.
      replace (POOLSIZE + i - (POOLSIZE + i)) with 0 by lia.
      by rewrite Nat.add_0_r.
    + repeat case_decide; try lia.
      * rewrite peek_poke_ne.
        2:{ pose proof (Nat.mod_upper_bound (S pp' + (j - (POOLSIZE + S i))) POOLSIZE).
            pool_consts. lia. }
        f_equal. rewrite Hmod. pool_consts.
        replace (S (pp mod 600) + (j - (600 + S i)))
          with (pp mod 600 + (j - (600 + i))) by lia.
        rewrite Nat.Div0.add_mod_idemp_l. done.
      * by rewrite peek_poke_ne.
Qed.

Lemma length_fill_hashbuf mem p : length (fill_hashbuf mem p) = length mem.
Proof.
  unfold fill_hashbuf. case_match; [apply length_memcpy | apply length_wrap_copy].
Qed.

Lemma peek_fill_hashbuf_pool mem p j :
  length mem = POOLSIZE + BLOCKLEN -> p <= POOLSIZE -> j < POOLSIZE ->
  peek (fill_hashbuf mem p) j = peek mem j.
Proof.
  intros Hlen Hp Hj. unfold fill_hashbuf.
  destruct (Nat.ltb_spec (p + BLOCKLEN) POOLSIZE).
  - apply peek_eq, lookup_memcpy_out; pool_consts; lia.
  - rewrite peek_wrap_copy by (pool_consts; lia).
    rewrite decide_False; [done | lia].
Qed.

(** Either branch leaves in the scratch block the 64 bytes from [p] on,
    read with wrap-around. *)
Lemma fill_hashbuf_block mem p :
  length mem = POOLSIZE + BLOCKLEN -> p <= POOLSIZE ->
  read_bytes (fill_hashbuf mem p) POOLSIZE BLOCKLEN = wrap_read mem p.
Proof.
  intros Hlen Hp. apply list_eq. intros i. unfold wrap_read.
  rewrite list_lookup_fmap.
  destruct (decide (i < BLOCKLEN)) as [Hi|Hi].
  - rewrite lookup_read_bytes by done.
    rewrite lookup_seq_lt by done. cbn [fmap option_fmap option_map].
    rewrite lookup_peek by (rewrite length_fill_hashbuf; pool_consts; lia).
    f_equal. unfold fill_hashbuf.
    destruct (Nat.ltb_spec (p + BLOCKLEN) POOLSIZE).
    + rewrite Nat.mod_small by (pool_consts; lia).
      apply peek_eq. rewrite lookup_memcpy_in by (pool_consts; lia).
      f_equal. lia.
    + rewrite peek_wrap_copy by (pool_consts; lia).
      rewrite decide_True by (pool_consts; lia).
      do 2 f_equal. lia.
  - rewrite lookup_ge_None_2.
    2:{ rewrite length_read_bytes; rewrite ?length_fill_hashbuf; pool_consts; lia. }
    rewrite lookup_ge_None_2; [done|]. rewrite length_seq. lia.
Qed.

Lemma length_mixblock_hashbuf md mem :
  length (mixblock_hashbuf md mem).2 = length mem.
Proof. apply length_write_bytes. Qed.

Lemma length_mix_iter st : length (mix_iter st).1.2 = length st.1.2.
Proof.
  destruct st as [[md mem] p]. unfold mix_iter.
  destruct (mixblock_hashbuf md (fill_hashbuf mem p)) as [md' mem'] eqn:Hmb.
  cbn [fst snd]. rewrite length_memcpy.
  change mem' with (md', mem').2. rewrite <- Hmb.
  by rewrite length_mixblock_hashbuf, length_fill_hashbuf.
Qed.

Lemma mix_iter_pointer st : (mix_iter st).2 = st.2 + DIGESTLEN.
Proof.
  destruct st as [[md mem] p]. unfold mix_iter.
  by destruct (mixblock_hashbuf md (fill_hashbuf mem p)).
Qed.

Lemma mix_rounds_S k md mem :
  mix_rounds (S k) md mem = mix_iter (mix_rounds k md mem).
Proof. reflexivity. Qed.

Lemma mix_rounds_pointer k md mem : (mix_rounds k md mem).2 = k * DIGESTLEN.
Proof.
  induction k as [|k IH]; [done|].
  rewrite mix_rounds_S, mix_iter_pointer, IH. lia.
Qed.

Lemma length_mix_rounds k md mem : length (mix_rounds k md mem).1.2 = length mem.
Proof.
  induction k as [|k IH]; [done|].
  by rewrite mix_rounds_S, length_mix_iter.
Qed.

Lemma length_mix_first md mem : length (mix_first md mem).2 = length mem.
Proof.
  unfold mix_first.
  destruct (mixblock_hashbuf md _) as [md' mem'] eqn:Hmb. cbn [snd].
  rewrite length_memcpy. change mem' with (md', mem').2. rewrite <- Hmb.
  by rewrite length_mixblock_hashbuf, !length_memcpy.
Qed.

Lemma length_mix_start failsafe mem : length (mix_start failsafe mem).2 = length mem.
Proof.
  unfold mix_start. cbn [snd].
  destruct failsafe; by rewrite ?length_xor_into, length_mix_first.
Qed.

Lemma length_mix_bytes failsafe mem : length (mix_bytes failsafe mem) = length mem.
Proof. unfold mix_bytes. by rewrite length_mix_rounds, length_mix_start. Qed.

(** One round, whatever the pointer it starts from. *)
Lemma mix_iter_round md mem p :
  length mem = POOLSIZE + BLOCKLEN -> p + DIGESTLEN + DIGESTLEN <= POOLSIZE ->
  mix_round_at p (p + DIGESTLEN) (md, mem, p).
Proof.
  intros Hlen Hp. unfold mix_round_at. cbn [fst snd].
  assert (Hblock : read_bytes (fill_hashbuf mem p) POOLSIZE BLOCKLEN = wrap_read mem p)
    by (apply fill_hashbuf_block; pool_consts; lia).
  split; [done|].
  unfold mix_iter, mixblock_hashbuf. rewrite Hblock. cbn [fst snd].
  set (r := sha1_mixblock md (wrap_read mem p)).
  pose proof (sha1_mixblock_length md (wrap_read mem p)) as Hr. fold r in Hr.
  pose proof (length_fill_hashbuf mem p) as Hfl.
  split; [done|]. split.
  - apply list_eq. intros i. destruct (decide (i < DIGESTLEN)) as [Hi|Hi].
    + rewrite lookup_read_bytes by done.
      rewrite lookup_memcpy_in; rewrite ?length_write_bytes; try (pool_consts; lia).
      rewrite lookup_write_bytes_in; try (pool_consts; lia).
      f_equal. lia.
    + rewrite !lookup_ge_None_2; [done| lia |].
      rewrite length_read_bytes; [lia|].
      rewrite length_memcpy, length_write_bytes. pool_consts; lia.
  - intros j Hj Hout.
    etrans; [apply peek_eq, lookup_memcpy_out|];
      rewrite ?length_write_bytes; try (pool_consts; lia).
    etrans; [apply peek_eq, lookup_write_bytes_out|]; try (pool_consts; lia).
    apply peek_fill_hashbuf_pool; pool_consts; lia.
Qed.

(** C1, as the code has it.  In [mix_pool], round [n] of the loop
    ([1 <= n < POOLBLOCKS]) is entered with the pointer at
    [(n - 1) * DIGESTLEN]: the 64-byte block it hashes is read from that
    offset, with wrap-around at the end of the 600-byte pool, and the
    20 bytes [mix_block] hands back are written to the pool at
    [n * DIGESTLEN], the rest of the pool staying as it was. *)
Theorem mix_round_reads_behind_its_output failsafe mem n :
  length mem = POOLSIZE + BLOCKLEN -> 1 <= n < POOLBLOCKS ->
  let start := mix_start failsafe mem in
  let st := mix_rounds (n - 1) start.1 start.2 in
  st.2 = (n - 1) * DIGESTLEN /\
  mix_round_at ((n - 1) * DIGESTLEN) (n * DIGESTLEN) st.
Proof.
  intros Hlen Hn start st.
  pose proof (mix_rounds_pointer (n - 1) start.1 start.2) as Hp.
  pose proof (length_mix_rounds (n - 1) start.1 start.2) as Hl.
  fold st in Hp, Hl. split; [exact Hp|].
  destruct st as [[md0 mem0] p0]. cbn [fst snd] in *. subst p0.
  replace (n * DIGESTLEN) with ((n - 1) * DIGESTLEN + DIGESTLEN)
    by (pool_consts; lia).
  apply mix_iter_round; [|pool_consts; lia].
  rewrite Hl. subst start. by rewrite length_mix_start.
Qed.

End MixerFacts.

(** C1 as the specification words it fails: in the first round of
    mixing the ramp, the block that is hashed is not the one read from
    offset [1 * DIGESTLEN], where the round's output goes. *)
Lemma mix_round_does_not_read_at_its_output :
  let start := @mix_start stub_sha1 None ramp in
  ~ @mix_round_at stub_sha1 (1 * DIGESTLEN) (1 * DIGESTLEN)
      (@mix_rounds stub_sha1 (1 - 1) start.1 start.2).
Proof.
  cbv zeta. intros [Hblock _]. vm_compute in Hblock. discriminate Hblock.
Qed.

Lemma mix_round_reads_behind_its_output_witness :
  length ramp = POOLSIZE + BLOCKLEN /\ 1 <= 2 < POOLBLOCKS /\
  let start := @mix_start stub_sha1 None ramp in
  let st := @mix_rounds stub_sha1 (2 - 1) start.1 start.2 in
  st.2 = (2 - 1) * DIGESTLEN /\
  @mix_round_at stub_sha1 ((2 - 1) * DIGESTLEN) (2 * DIGESTLEN) st.
Proof.
  split; [reflexivity|]. split; [pool_consts; lia|].
  apply (@mix_round_reads_behind_its_output stub_sha1 None ramp 2);
    [reflexivity | pool_consts; lia].
Defined.

(** ** Reasoning about monadic code *)

Section Hoare.
Context {A B : Type} (I : rng_state -> Prop).

Lemma always_ret (a : A) : always I (ret a).
Proof. intros s Hs. exact Hs. Qed.

Lemma always_die why : always I (@die A why).
Proof. intros s Hs. exact Hs. Qed.

Lemma always_out_of_fuel : always I (@out_of_fuel A).
Proof. intros s Hs. exact Hs. Qed.

Lemma always_gets (f : rng_state -> A) : always I (gets f).
Proof. intros s Hs. exact Hs. Qed.

Lemma always_modify f : (forall s, I s -> I (f s)) -> always I (modify f).
Proof. intros Hf s Hs. by apply Hf. Qed.

Lemma always_ask E (q : environment -> nat -> A) :
  (forall s, I s -> I (set_tick (S (tick s)) s)) -> always I (ask E q).
Proof. intros Hf s Hs. by apply Hf. Qed.

Lemma always_bind (m : M A) (k : A -> M B) :
  always I m -> (forall a, always I (k a)) -> always I (bind m k).
Proof.
  intros Hm Hk s Hs. unfold bind. specialize (Hm s Hs).
  destruct (m s) as [[a|why|] s1]; cbn [snd] in *; [by apply Hk | done | done].
Qed.

End Hoare.

Section Never.
Context {A B : Type} (why : fatal).

Lemma never_ret (a : A) : never why (ret a).
Proof. intros s. discriminate. Qed.

Lemma never_out_of_fuel : never why (@out_of_fuel A).
Proof. intros s. discriminate. Qed.

Lemma never_gets (f : rng_state -> A) : never why (gets f).
Proof. intros s. discriminate. Qed.

Lemma never_modify f : never why (modify f).
Proof. intros s. discriminate. Qed.

Lemma never_ask E (q : environment -> nat -> A) : never why (ask E q).
Proof. intros s. discriminate. Qed.

Lemma never_die other : other <> why -> never why (@die A other).
Proof. intros Hne s. cbn. congruence. Qed.

Lemma never_bind (m : M A) (k : A -> M B) :
  never why m -> (forall a, never why (k a)) -> never why (bind m k).
Proof.
  intros Hm Hk s. unfold bind. specialize (Hm s).
  destruct (m s) as [[a|w|] s1]; cbn [fst] in *; [apply Hk | congruence | discriminate].
Qed.

(** The same when the next step relies on a property of the value. *)
Lemma never_bind_val (R : A -> Prop) (m : M A) (k : A -> M B) :
  (forall s a s1, m s = (Val a, s1) -> R a) ->
  never why m -> (forall a, R a -> never why (k a)) -> never why (bind m k).
Proof.
  intros HR Hm Hk s. unfold bind. specialize (Hm s). specialize (HR s).
  destruct (m s) as [[a|w|] s1]; cbn [fst] in *;
    [eapply Hk, HR; reflexivity | congruence | discriminate].
Qed.

End Never.

(** What a successful [bind] is made of. *)
Lemma bind_Val {A B} (m : M A) (k : A -> M B) s b s' :
  bind m k s = (Val b, s') ->
  exists a s1, m s = (Val a, s1) /\ k a s1 = (Val b, s').
Proof.
  unfold bind. destruct (m s) as [[a|w|] s1]; [eauto | discriminate | discriminate].
Qed.

(** Running a step. *)
Section Steps.
Context {A B C : Type} (E : environment).

Lemma bind_gets (f : rng_state -> A) (k : A -> M B) s :
  bind (gets f) k s = k (f s) s.
Proof. reflexivity. Qed.

Lemma bind_modify f (k : unit -> M B) s : bind (modify f) k s = k tt (f s).
Proof. reflexivity. Qed.

Lemma bind_ask (q : environment -> nat -> A) (k : A -> M B) s :
  bind (ask E q) k s = k (q E (tick s)) (set_tick (S (tick s)) s).
Proof. reflexivity. Qed.

Lemma bind_ret (a : A) (k : A -> M B) s : bind (ret a) k s = k a s.
Proof. reflexivity. Qed.

Lemma bind_die why (k : A -> M B) s : bind (die why) k s = (Fatal why, s).
Proof. reflexivity. Qed.

Lemma bind_ext (m : M A) (k1 k2 : A -> M B) s :
  (forall a s1, k1 a s1 = k2 a s1) -> bind m k1 s = bind m k2 s.
Proof. intros Hk. unfold bind. by destruct (m s) as [[a|why|] s1]. Qed.

Lemma bind_assoc (m : M A) (k1 : A -> M B) (k2 : B -> M C) s :
  bind (bind m k1) k2 s = bind m (fun a => bind (k1 a) k2) s.
Proof. unfold bind. by destruct (m s) as [[a|why|] s1]. Qed.

End Steps.

(** Going through a computation for an invariant: [leaf] settles the
    primitive steps, [known] the calls of functions dealt with before. *)
Ltac always_go leaf known :=
  repeat match goal with
    | |- always _ (bind _ _) => apply always_bind; [| intros ?]
    | |- always _ (ret _) => apply always_ret
    | |- always _ (die _) => apply always_die
    | |- always _ out_of_fuel => apply always_out_of_fuel
    | |- always _ (gets _) => apply always_gets
    | |- always _ (modify _) => apply always_modify; leaf
    | |- always _ (ask _ _) => apply always_ask; leaf
    | |- always _ (if ?c then _ else _) => destruct c
    | |- always _ (match ?x with _ => _ end) => destruct x
    | |- always _ _ => assumption
    | |- always _ _ => solve [known]
    end.

Create HintDb never discriminated.

Ltac never_go :=
  repeat match goal with
    | |- never _ (bind _ _) => apply never_bind; [| intros ?]
    | |- never _ (ret _) => apply never_ret
    | |- never _ (die _) => apply never_die; discriminate
    | |- never _ out_of_fuel => apply never_out_of_fuel
    | |- never _ (gets _) => apply never_gets
    | |- never _ (modify _) => apply never_modify
    | |- never _ (ask _ _) => apply never_ask
    | |- never _ (if ?c then _ else _) => destruct c
    | |- never _ (match ?x with _ => _ end) => destruct x
    | |- never _ _ => assumption
    | |- never _ _ => solve [auto with never]
    end.

(** ** The accumulator *)

Section AddFacts.
Context `{Sha1}.

Lemma credit_fill_bystanders origin count s :
  bystanders (credit_fill origin count s).1 = bystanders s.
Proof. unfold credit_fill. by repeat case_match. Qed.

Lemma add_loop_bystanders bytes count origin s :
  bystanders (add_loop bytes count origin s) = bystanders s.
Proof.
  revert count s. induction bytes as [|b rest IH]; intros count s; [done|].
  cbn [add_loop]. case_match; rewrite IH; [|done].
  etrans; [|apply (credit_fill_bystanders origin (wrap64 (count + 1)) (xor_byte b s))].
  reflexivity.
Qed.

Lemma add_randomness_bystanders buffer origin s :
  bystanders (add_randomness buffer origin s) = bystanders s.
Proof. unfold add_randomness. by rewrite add_loop_bystanders. Qed.

Lemma add_each_bystanders chunks origin s :
  bystanders (add_each chunks origin s) = bystanders s.
Proof.
  revert s. induction chunks as [|c cs IH]; intros s; [done|].
  unfold add_each. cbn [foldl]. fold (add_each cs origin (add_randomness c origin s)).
  by rewrite IH, add_randomness_bystanders.
Qed.

(** The write cursor never leaves the pool. *)
Lemma wrap_writepos last pool d s :
  pool_writepos (set_just_mixed last
                   (bump mixrnd set_mixrnd d (mix_pool pool (set_pool_writepos 0 s)))) = 0.
Proof. by destruct pool. Qed.

Lemma add_loop_writepos bytes count origin s :
  pool_writepos s < POOLSIZE ->
  pool_writepos (add_loop bytes count origin s) < POOLSIZE.
Proof.
  revert count s. induction bytes as [|b rest IH]; intros count s Hs; [done|].
  cbn [add_loop].
  destruct (Nat.leb_spec POOLSIZE (pool_writepos (xor_byte b s))) as [Hw|Hw].
  - apply IH. rewrite wrap_writepos. pool_consts. lia.
  - by apply IH.
Qed.

Lemma add_randomness_writepos buffer origin s :
  pool_writepos s < POOLSIZE ->
  pool_writepos (add_randomness buffer origin s) < POOLSIZE.
Proof. intros Hs. unfold add_randomness. by apply add_loop_writepos. Qed.

Lemma add_each_writepos chunks origin s :
  pool_writepos s < POOLSIZE ->
  pool_writepos (add_each chunks origin s) < POOLSIZE.
Proof.
  revert s. induction chunks as [|c cs IH]; intros s Hs; [done|].
  unfold add_each. cbn [foldl]. apply IH. by apply add_randomness_writepos.
Qed.

Lemma add_randomness_tick buffer origin s :
  tick (add_randomness buffer origin s) = tick s.
Proof.
  pose proof (add_randomness_bystanders buffer origin s) as Hb.
  unfold bystanders in Hb. injection Hb. intros. congruence.
Qed.

Lemma add_randomness_gather_log buffer origin s :
  gather_log (add_randomness buffer origin s) = gather_log s.
Proof.
  pose proof (add_randomness_bystanders buffer origin s) as Hb.
  unfold bystanders in Hb. injection Hb. intros. congruence.
Qed.

Lemma add_randomness_slow_gather_fnc buffer origin s :
  slow_gather_fnc (add_randomness buffer origin s) = slow_gather_fnc s.
Proof.
  pose proof (add_randomness_bystanders buffer origin s) as Hb.
  unfold bystanders in Hb. injection Hb. intros. congruence.
Qed.

(** Bytes of an unreliable origin never count towards the fill. *)
Lemma counts_towards_fill_spec origin s :
  counts_towards_fill origin s = true <->
  (origin_value RANDOM_ORIGIN_SLOWPOLL <= origin_value origin)%Z /\ pool_filled s = false.
Proof.
  unfold counts_towards_fill. rewrite andb_true_iff, Z.leb_le, negb_true_iff. done.
Qed.

Lemma counts_towards_fill_unreliable origin s :
  unreliable origin -> counts_towards_fill origin s = false.
Proof.
  unfold unreliable, counts_towards_fill. intros Hlow.
  by rewrite (proj2 (Z.leb_gt _ _)) by done.
Qed.

Lemma add_loop_unreliable origin bytes count s :
  unreliable origin -> fill_state (add_loop bytes count origin s) = fill_state s.
Proof.
  intros Hlow. revert count s.
  induction bytes as [|b rest IH]; intros count s; [done|].
  cbn [add_loop]. case_match; rewrite IH; [|done].
  unfold credit_fill. by rewrite counts_towards_fill_unreliable.
Qed.

Lemma add_randomness_unreliable origin buffer s :
  unreliable origin -> fill_state (add_randomness buffer origin s) = fill_state s.
Proof. intros Hlow. unfold add_randomness. by rewrite add_loop_unreliable. Qed.

Lemma add_each_unreliable origin chunks s :
  unreliable origin -> fill_state (add_each chunks origin s) = fill_state s.
Proof.
  intros Hlow. revert s. induction chunks as [|c cs IH]; intros s; [done|].
  unfold add_each. cbn [foldl]. fold (add_each cs origin (add_randomness c origin s)).
  by rewrite IH, add_randomness_unreliable.
Qed.

Lemma unreliable_INIT : unreliable RANDOM_ORIGIN_INIT.
Proof. reflexivity. Qed.

(** *** The code against the words of the specification *)

Lemma spec_add_byte_eq origin buffer s since k :
  spec_add_byte origin buffer (s, since) k =
    let x := xor_byte (peek buffer k) s in
    if pool_writepos x =? POOLSIZE
    then (spec_wrap origin (bool_decide (k + 1 = length buffer)) (since + 1) x, 0%Z)
    else (x, (since + 1)%Z).
Proof.
  unfold spec_add_byte. cbn [fst snd].
  set (y := set_pool_writepos _ _).
  assert (Hy : y = xor_byte (peek buffer k) s).
  { subst y. unfold xor_byte. cbn. f_equal. lia. }
  clearbody y. subst y. reflexivity.
Qed.

(** The loop of the code, entered after the bytes [pre] with its own
    [count], and the fold of the specification, entered with
    [since]: where bytes are credited the two counts agree, and
    nothing overflows. *)
Lemma add_loop_refines origin rest : forall pre count since s,
  pool_writepos s < POOLSIZE ->
  (counts_towards_fill origin s = true ->
     count = since /\ (0 <= since)%Z /\ (0 <= pool_filled_counter s)%Z /\
     (pool_filled_counter s + since + Z.of_nat (length rest) < 2 ^ 64)%Z) ->
  add_loop rest count origin s =
    (foldl (spec_add_byte origin (pre ++ rest)) (s, since)
           (seq (length pre) (length rest))).1.
Proof.
  induction rest as [|b rest IH]; intros pre count since s Hw Hc; [done|].
  cbn [add_loop length seq foldl].
  rewrite spec_add_byte_eq.
  assert (Hb : peek (pre ++ b :: rest) (length pre) = b).
  { unfold peek. rewrite lookup_app_r by lia. by rewrite Nat.sub_diag. }
  rewrite Hb. cbv zeta.
  assert (Hlast : bool_decide (length pre + 1 = length (pre ++ b :: rest))
                  = (length rest =? 0)).
  { rewrite length_app. cbn [length].
    destruct (Nat.eqb_spec (length rest) 0);
      [rewrite bool_decide_eq_true_2 by lia | rewrite bool_decide_eq_false_2 by lia];
      done. }
  rewrite Hlast. clear Hlast Hb.
  replace (pre ++ b :: rest) with ((pre ++ [b]) ++ rest) by (by rewrite <- app_assoc).
  specialize (IH (pre ++ [b])). rewrite length_app in IH. cbn [length] in IH.
  replace (length pre + 1) with (S (length pre)) in IH by lia.
  assert (Hxw : pool_writepos (xor_byte b s) = S (pool_writepos s)) by reflexivity.
  assert (Hxf : counts_towards_fill origin (xor_byte b s) = counts_towards_fill origin s)
    by reflexivity.
  assert (Hxc : pool_filled_counter (xor_byte b s) = pool_filled_counter s)
    by reflexivity.
  assert (Hxp : pool_filled (xor_byte b s) = pool_filled s) by reflexivity.
  set (x := xor_byte b s) in *. clearbody x.
  destruct (Nat.leb_spec POOLSIZE (pool_writepos x)) as [Hle|Hgt].
  - (* the pool wraps *)
    rewrite (proj2 (Nat.eqb_eq (pool_writepos x) POOLSIZE)) by lia.
    unfold credit_fill, spec_wrap. rewrite Hxf.
    destruct (counts_towards_fill origin s) eqn:Hel.
    + (* and the bytes are credited *)
      destruct (Hc eq_refl) as (-> & Hs0 & Hc0 & Hbound).
      apply counts_towards_fill_spec in Hel as Hel'. rewrite <- Hxp in Hel'.
      rewrite decide_True by done.
      cbn [length] in Hbound.
      rewrite (wrap64_small (since + 1)) by lia.
      rewrite (wrap64_small (pool_filled_counter x + (since + 1))) by lia.
      cbn [fst snd].
      set (x1 := set_pool_filled_counter _ x).
      assert (Hx1 : pool_filled_counter x1 = (pool_filled_counter x + (since + 1))%Z)
        by reflexivity.
      destruct (Z.leb_spec (Z.of_nat POOLSIZE) (pool_filled_counter x1)) as [Hfull|Hnot].
      * rewrite decide_True by done.
        apply IH; [rewrite wrap_writepos; pool_consts; lia |].
        intros Hf. apply counts_towards_fill_spec in Hf as [_ Hf]. discriminate Hf.
      * rewrite decide_False by lia.
        apply IH; [rewrite wrap_writepos; pool_consts; lia |].
        intros _. repeat split; try lia.
        -- change (0 <= pool_filled_counter x1)%Z. lia.
        -- change (pool_filled_counter x1 + 0 + Z.of_nat (length rest) < 2 ^ 64)%Z. lia.
    + (* and nothing is credited *)
      rewrite decide_False.
      2:{ intros Hno. rewrite Hxp in Hno. apply counts_towards_fill_spec in Hno.
          congruence. }
      cbn [fst snd].
      apply IH; [rewrite wrap_writepos; pool_consts; lia |].
      intros Hf. exfalso.
      change (counts_towards_fill origin x = true) in Hf. congruence.
  - (* no wrap *)
    rewrite (proj2 (Nat.eqb_neq (pool_writepos x) POOLSIZE)) by lia.
    apply IH; [done|].
    intros Hf. rewrite Hxf in Hf. destruct (Hc Hf) as (-> & Hs0 & Hc0 & Hbound).
    cbn [length] in Hbound.
    rewrite wrap64_small by lia. rewrite Hxc. repeat split; lia.
Qed.

(** C3.  On a state whose write cursor is inside the pool and whose
    fill counter is far from overflow, [add_randomness] does what the
    specification says of [add]: every byte is XORed in at [write_pos],
    which then moves on; when [write_pos] reaches [POOLSIZE] the bytes
    of this buffer folded in since the last wrap are credited to
    [pool_filled_counter] exactly when the origin is at least
    [SLOWPOLL] and [pool_filled] is still false ([pool_filled] being set
    once the counter reaches [POOLSIZE]), [write_pos] goes back to 0,
    [rndpool] is mixed, and [just_mixed] is set to whether the wrapping
    byte was the last of the buffer. *)
Theorem add_randomness_follows_the_specification buffer origin s :
  pool_writepos s < POOLSIZE ->
  (0 <= pool_filled_counter s)%Z ->
  (pool_filled_counter s + Z.of_nat (length buffer) < 2 ^ 64)%Z ->
  add_randomness buffer origin s = spec_add buffer origin s.
Proof.
  intros Hw Hc Hbound. unfold add_randomness, spec_add.
  apply (add_loop_refines origin buffer []); [exact Hw|].
  intros _. repeat split; [lia | exact Hc |].
  change (pool_filled_counter s + 0 + Z.of_nat (length buffer) < 2 ^ 64)%Z. lia.
Qed.

End AddFacts.

Lemma add_randomness_follows_the_specification_witness :
  pool_writepos ready_state < POOLSIZE /\
  (0 <= pool_filled_counter ready_state)%Z /\
  (pool_filled_counter ready_state + Z.of_nat (length (replicate 700 0x5A%Z)) < 2 ^ 64)%Z /\
  @add_randomness stub_sha1 (replicate 700 0x5A%Z) RANDOM_ORIGIN_SLOWPOLL ready_state
  = @spec_add stub_sha1 (replicate 700 0x5A%Z) RANDOM_ORIGIN_SLOWPOLL ready_state.
Proof.
  assert (Hw : pool_writepos ready_state < POOLSIZE)
    by (apply Nat.ltb_lt; vm_compute; reflexivity).
  assert (Hc : (0 <= pool_filled_counter ready_state)%Z)
    by (apply Z.leb_le; vm_compute; reflexivity).
  assert (Hb : (pool_filled_counter ready_state
                + Z.of_nat (length (replicate 700 0x5A%Z)) < 2 ^ 64)%Z)
    by (apply Z.ltb_lt; vm_compute; reflexivity).
  split; [exact Hw | split; [exact Hc | split; [exact Hb |]]].
  exact (@add_randomness_follows_the_specification stub_sha1 _ _ _ Hw Hc Hb).
Defined.

(** The bytes credited at a wrap are those of the buffer at hand: with
    480 bytes in the pool from earlier calls, the 120 bytes that make it
    wrap count for 120. *)
Example credit_is_for_the_buffer_at_hand :
  let s := @add_randomness stub_sha1 (replicate 120 0x5A%Z) RANDOM_ORIGIN_SLOWPOLL
             (set_pool_writepos 480 ready_state) in
  (pool_writepos s, pool_filled_counter s, pool_filled s, just_mixed s)
  = (0, 120%Z, false, true).
Proof. vm_compute. reflexivity. Qed.

(** ** The cursors *)

Create HintDb cursor discriminated.

Section CursorFacts.
Context `{Sha1} (E : environment).

Lemma cursor_inv_same s s' :
  cursor_inv s -> pool_writepos s' = pool_writepos s ->
  pool_readpos s' = pool_readpos s -> release_log s' = release_log s ->
  cursor_inv s'.
Proof. unfold cursor_inv. by intros Hs -> -> ->. Qed.

Lemma cursor_inv_bystanders s s' :
  cursor_inv s -> pool_writepos s' < POOLSIZE -> bystanders s' = bystanders s ->
  cursor_inv s'.
Proof.
  unfold cursor_inv, cursors_ok, bystanders. intros [[Hw Hr] Hl] Hw' Hb.
  simplify_eq. cbn [fst snd] in *. repeat split; congruence.
Qed.

Lemma cursor_inv_add_randomness buffer origin s :
  cursor_inv s -> cursor_inv (add_randomness buffer origin s).
Proof.
  intros Hs. eapply cursor_inv_bystanders; [exact Hs | | apply add_randomness_bystanders].
  apply add_randomness_writepos, Hs.
Qed.

Lemma cursor_inv_add_each chunks origin s :
  cursor_inv s -> cursor_inv (add_each chunks origin s).
Proof.
  intros Hs. eapply cursor_inv_bystanders; [exact Hs | | apply add_each_bystanders].
  apply add_each_writepos, Hs.
Qed.

Lemma cursor_inv_mix_pool pool s : cursor_inv s -> cursor_inv (mix_pool pool s).
Proof. intros Hs. destruct pool; by eapply cursor_inv_same. Qed.

Lemma cursor_inv_bump get set d s : cursor_inv s -> cursor_inv (bump get set d s).
Proof. intros Hs. by eapply cursor_inv_same. Qed.

Lemma cursor_inv_mix_both s : cursor_inv s -> cursor_inv (mix_both s).
Proof.
  intros Hs. unfold mix_both.
  by do 2 (apply cursor_inv_bump, cursor_inv_mix_pool).
Qed.

Lemma cursor_inv_create_keypool s : cursor_inv s -> cursor_inv (create_keypool s).
Proof. intros Hs. by eapply cursor_inv_same. Qed.

Lemma cursor_inv_deliver k buffer p length s :
  cursor_inv s -> cursor_inv (deliver k buffer p length s).2.
Proof.
  revert buffer p length s. induction k as [|k IH]; intros buffer p length s Hs; [done|].
  cbn [deliver]. apply IH. destruct Hs as [[Hw Hr] Hl].
  case_match eqn:Hle; (split; [split|]); cbn in *; try done.
  - pool_consts. lia.
  - apply Nat.leb_gt in Hle. cbn in Hle. done.
Qed.

Ltac cursor_known := auto with cursor.

Ltac cursor_leaf :=
  intros ? ?; cbv beta zeta;
  repeat match goal with
  | |- cursor_inv (if ?c then _ else _) => destruct c
  | |- cursor_inv (add_randomness _ _ _) => apply cursor_inv_add_randomness
  | |- cursor_inv (add_each _ _ _) => apply cursor_inv_add_each
  | |- cursor_inv (mix_pool _ _) => apply cursor_inv_mix_pool
  | |- cursor_inv (bump _ _ _ _) => apply cursor_inv_bump
  | |- cursor_inv (mix_both _) => apply cursor_inv_mix_both
  | |- cursor_inv (create_keypool _) => apply cursor_inv_create_keypool
  | |- cursor_inv (clamp_balance _) => unfold clamp_balance
  | |- cursor_inv (clear_keypool _) => unfold clear_keypool
  | |- cursor_inv (?f ?v ?s) =>
      cut (cursor_inv s);
      [ generalize s; intros ? ?; eapply cursor_inv_same; [eassumption | reflexivity ..] | ]
  end; try assumption.

Lemma cursor_read_random_source origin length level :
  always cursor_inv (read_random_source E origin length level).
Proof. unfold read_random_source. always_go cursor_leaf cursor_known. Qed.
#[local] Hint Resolve cursor_read_random_source : cursor.

Lemma cursor_random_poll : always cursor_inv (random_poll E).
Proof. unfold random_poll. always_go cursor_leaf cursor_known. Qed.
#[local] Hint Resolve cursor_random_poll : cursor.

Lemma cursor_do_fast_random_poll : always cursor_inv (do_fast_random_poll E).
Proof. unfold do_fast_random_poll. always_go cursor_leaf cursor_known. Qed.
#[local] Hint Resolve cursor_do_fast_random_poll : cursor.

Lemma cursor_read_seed_file : always cursor_inv (read_seed_file E).
Proof. unfold read_seed_file. always_go cursor_leaf cursor_known. Qed.
#[local] Hint Resolve cursor_read_seed_file : cursor.

Lemma cursor_fork_check : always cursor_inv (fork_check E).
Proof. unfold fork_check. always_go cursor_leaf cursor_known. Qed.
#[local] Hint Resolve cursor_fork_check : cursor.

Lemma cursor_seed_on_demand : always cursor_inv (seed_on_demand E).
Proof. unfold seed_on_demand. always_go cursor_leaf cursor_known. Qed.
#[local] Hint Resolve cursor_seed_on_demand : cursor.

Lemma cursor_initial_extra_seeding length level :
  always cursor_inv (initial_extra_seeding E length level).
Proof. unfold initial_extra_seeding. always_go cursor_leaf cursor_known. Qed.
#[local] Hint Resolve cursor_initial_extra_seeding : cursor.

Lemma cursor_balance_topup length level :
  always cursor_inv (balance_topup E length level).
Proof. unfold balance_topup. always_go cursor_leaf cursor_known. Qed.
#[local] Hint Resolve cursor_balance_topup : cursor.

Lemma cursor_fill_pool fuel : always cursor_inv (fill_pool E fuel).
Proof. induction fuel as [|fuel IH]; cbn [fill_pool]; always_go cursor_leaf cursor_known. Qed.
#[local] Hint Resolve cursor_fill_pool : cursor.

Lemma cursor_read_pool fuel buffer p length level :
  always cursor_inv (read_pool E fuel buffer p length level).
Proof.
  revert buffer p length.
  induction fuel as [|fuel IH]; intros buffer p length; cbn [read_pool];
    unfold add_own_pid, mix_if_needed.
  all: always_go cursor_leaf cursor_known.
  all: try (intros s Hs; pose proof (cursor_inv_deliver (Z.to_nat length) buffer p length s Hs) as Hd;
            destruct (deliver (Z.to_nat length) buffer p length s) as [[[? ?] ?] ?]; exact Hd).
Qed.
#[local] Hint Resolve cursor_read_pool : cursor.

Lemma cursor_lock_pool : always cursor_inv lock_pool.
Proof. intros s Hs. by eapply cursor_inv_same. Qed.
#[local] Hint Resolve cursor_lock_pool : cursor.

Lemma cursor_unlock_pool : always cursor_inv unlock_pool.
Proof.
  intros s [Hc Hl]. split; [exact Hc|]. cbn. by constructor.
Qed.
#[local] Hint Resolve cursor_unlock_pool : cursor.

Lemma cursor_initialize_basics : always cursor_inv initialize_basics.
Proof. apply always_ret. Qed.
#[local] Hint Resolve cursor_initialize_basics : cursor.

Lemma cursor_initialize : always cursor_inv (initialize E).
Proof. unfold initialize. always_go cursor_leaf cursor_known. Qed.
#[local] Hint Resolve cursor_initialize : cursor.

Lemma cursor_close_fds : always cursor_inv _gcry_rngcsprng_close_fds.
Proof.
  unfold _gcry_rngcsprng_close_fds. always_go idtac cursor_known.
  intros s [_ Hl]. split; [|exact Hl]. split; cbn; pool_consts; lia.
Qed.

Lemma cursor_add_bytes_loop rounds bufptr :
  always cursor_inv (add_bytes_loop rounds bufptr).
Proof.
  revert bufptr. induction rounds as [|rounds IH]; intros bufptr;
    cbn [add_bytes_loop]; always_go cursor_leaf cursor_known.
Qed.
#[local] Hint Resolve cursor_add_bytes_loop : cursor.

Lemma cursor_add_bytes buf quality :
  always cursor_inv (_gcry_rngcsprng_add_bytes buf quality).
Proof. unfold _gcry_rngcsprng_add_bytes. always_go cursor_leaf cursor_known. Qed.

Lemma cursor_randomize_loop rounds fuel buffer p length level :
  always cursor_inv (randomize_loop E rounds fuel buffer p length level).
Proof.
  revert buffer p length. induction rounds as [|rounds IH]; intros buffer p length;
    cbn [randomize_loop]; always_go cursor_leaf cursor_known.
Qed.
#[local] Hint Resolve cursor_randomize_loop : cursor.

Lemma cursor_randomize fuel buffer length level :
  always cursor_inv (_gcry_rngcsprng_randomize E fuel buffer length level).
Proof. unfold _gcry_rngcsprng_randomize. always_go cursor_leaf cursor_known. Qed.

Lemma cursor_update_seed_file : always cursor_inv _gcry_rngcsprng_update_seed_file.
Proof. unfold _gcry_rngcsprng_update_seed_file. always_go cursor_leaf cursor_known. Qed.

Lemma cursor_fast_poll : always cursor_inv (_gcry_rngcsprng_fast_poll E).
Proof. unfold _gcry_rngcsprng_fast_poll. always_go cursor_leaf cursor_known. Qed.

Lemma cursor_run_call fuel c : always cursor_inv (run_call E fuel c).
Proof.
  destruct c; cbn [run_call]; unfold ignore, _gcry_rngcsprng_initialize,
    _gcry_rngcsprng_enable_quick_gen, _gcry_rngcsprng_is_faked,
    _gcry_rngcsprng_set_seed_file;
    auto using cursor_close_fds, cursor_update_seed_file, cursor_fast_poll;
    always_go cursor_leaf cursor_known;
    auto using cursor_add_bytes, cursor_randomize.
Qed.

Lemma cursor_run_calls fuel cs : always cursor_inv (run_calls E fuel cs).
Proof.
  induction cs as [|c cs IH]; cbn [run_calls]; always_go cursor_leaf cursor_known.
  apply cursor_run_call.
Qed.

Lemma cursor_inv_initial_state : cursor_inv initial_state.
Proof. split; [split; cbn; pool_consts; lia | constructor]. Qed.
(** C8.  Whatever calls are made on the generator, starting from the
    state the program is loaded with, the write and the read cursor are
    below [POOLSIZE] when the calls are over, and were so each time the
    pool lock was released on the way. *)
Theorem cursors_stay_in_pool fuel cs :
  let s := (run_calls E fuel cs initial_state).2 in
  pool_writepos s < POOLSIZE /\ pool_readpos s < POOLSIZE /\
  Forall (fun c => c.1 < POOLSIZE /\ c.2 < POOLSIZE) (release_log s).
Proof.
  destruct (cursor_run_calls fuel cs initial_state cursor_inv_initial_state)
    as [[Hw Hr] Hl].
  cbv zeta. split; [exact Hw | split; [exact Hr | exact Hl]].
Qed.

End CursorFacts.

(** The releases are on record, the latest first: this run has two of
    them, one when [initialize] is done and one at the end of the
    request. *)
Example release_log_of_a_request :
  release_log (@run_calls stub_sha1 quiet_env 10
                 [Call_randomize (replicate 32 0%Z) 32 GCRY_STRONG_RANDOM]
                 initial_state).2
  = [(28, 32); (0, 0)].
Proof. vm_compute. reflexivity. Qed.

(** ** The key pool *)

Create HintDb keypool discriminated.

Section KeypoolFacts.
Context `{Sha1} (E : environment).

Lemma keypool_allocated_same s s' :
  keypool_allocated s -> keypool s' = keypool s -> keypool_allocated s'.
Proof. unfold keypool_allocated. by intros Hs ->. Qed.

Lemma keypool_allocated_bystanders s s' :
  keypool_allocated s -> bystanders s' = bystanders s -> keypool_allocated s'.
Proof.
  unfold bystanders. intros Hs Hb. apply (keypool_allocated_same s); [done|].
  by simplify_eq.
Qed.

Lemma keypool_allocated_mix_pool pool s :
  keypool_allocated s -> keypool_allocated (mix_pool pool s).
Proof.
  intros Hs. destruct pool; [by eapply keypool_allocated_same|].
  unfold keypool_allocated, mix_pool. cbn [keypool set_keypool].
  by rewrite length_mix_bytes.
Qed.

Lemma keypool_allocated_create_keypool s :
  keypool_allocated s -> keypool_allocated (create_keypool s).
Proof.
  unfold keypool_allocated, create_keypool. cbn [keypool set_keypool].
  generalize (keypool s).
  induction (seq 0 POOLWORDS) as [|i l IH]; intros kp Hkp; [done|].
  cbn [foldl]. apply IH. by rewrite length_store_word.
Qed.

Lemma keypool_allocated_bump get set d s :
  keypool_allocated s -> keypool_allocated (bump get set d s).
Proof. intros Hs. by eapply keypool_allocated_same. Qed.

Lemma keypool_allocated_mix_both s :
  keypool_allocated s -> keypool_allocated (mix_both s).
Proof.
  intros Hs. unfold mix_both.
  by do 2 (apply keypool_allocated_bump, keypool_allocated_mix_pool).
Qed.

Ltac keypool_known := auto with keypool.

Ltac keypool_leaf :=
  intros ? ?; cbv beta zeta;
  repeat match goal with
  | |- keypool_allocated (if ?c then _ else _) => destruct c
  | |- keypool_allocated (add_randomness _ _ ?s) =>
      apply (keypool_allocated_bystanders s); [| apply add_randomness_bystanders]
  | |- keypool_allocated (add_each _ _ ?s) =>
      apply (keypool_allocated_bystanders s); [| apply add_each_bystanders]
  | |- keypool_allocated (mix_pool _ _) => apply keypool_allocated_mix_pool
  | |- keypool_allocated (bump _ _ _ _) => apply keypool_allocated_bump
  | |- keypool_allocated (create_keypool _) => apply keypool_allocated_create_keypool
  | |- keypool_allocated (mix_both _) => apply keypool_allocated_mix_both
  | |- keypool_allocated (clamp_balance _) => unfold clamp_balance
  | |- keypool_allocated (?f ?v ?s) =>
      cut (keypool_allocated s);
      [ generalize s; intros ? ?; eapply keypool_allocated_same; [eassumption | reflexivity] | ]
  end; try assumption.

Lemma keypool_read_random_source origin length level :
  always keypool_allocated (read_random_source E origin length level).
Proof. unfold read_random_source. always_go keypool_leaf keypool_known. Qed.
#[local] Hint Resolve keypool_read_random_source : keypool.

Lemma keypool_random_poll : always keypool_allocated (random_poll E).
Proof. unfold random_poll. always_go keypool_leaf keypool_known. Qed.
#[local] Hint Resolve keypool_random_poll : keypool.

Lemma keypool_do_fast_random_poll : always keypool_allocated (do_fast_random_poll E).
Proof. unfold do_fast_random_poll. always_go keypool_leaf keypool_known. Qed.
#[local] Hint Resolve keypool_do_fast_random_poll : keypool.

Lemma keypool_read_seed_file : always keypool_allocated (read_seed_file E).
Proof. unfold read_seed_file. always_go keypool_leaf keypool_known. Qed.
#[local] Hint Resolve keypool_read_seed_file : keypool.

Lemma keypool_fork_check : always keypool_allocated (fork_check E).
Proof. unfold fork_check. always_go keypool_leaf keypool_known. Qed.
#[local] Hint Resolve keypool_fork_check : keypool.

Lemma keypool_seed_on_demand : always keypool_allocated (seed_on_demand E).
Proof. unfold seed_on_demand. always_go keypool_leaf keypool_known. Qed.
#[local] Hint Resolve keypool_seed_on_demand : keypool.

Lemma keypool_initial_extra_seeding length level :
  always keypool_allocated (initial_extra_seeding E length level).
Proof. unfold initial_extra_seeding. always_go keypool_leaf keypool_known. Qed.
#[local] Hint Resolve keypool_initial_extra_seeding : keypool.

Lemma keypool_balance_topup length level :
  always keypool_allocated (balance_topup E length level).
Proof. unfold balance_topup. always_go keypool_leaf keypool_known. Qed.
#[local] Hint Resolve keypool_balance_topup : keypool.

Lemma keypool_fill_pool fuel : always keypool_allocated (fill_pool E fuel).
Proof.
  induction fuel as [|fuel IH]; cbn [fill_pool]; always_go keypool_leaf keypool_known.
Qed.
#[local] Hint Resolve keypool_fill_pool : keypool.

Lemma keypool_add_own_pid : always keypool_allocated add_own_pid.
Proof. unfold add_own_pid. always_go keypool_leaf keypool_known. Qed.
#[local] Hint Resolve keypool_add_own_pid : keypool.

Lemma keypool_mix_if_needed : always keypool_allocated mix_if_needed.
Proof. unfold mix_if_needed. always_go keypool_leaf keypool_known. Qed.
#[local] Hint Resolve keypool_mix_if_needed : keypool.

Lemma deliver_keypool k buffer p length s :
  keypool (deliver k buffer p length s).2 = keypool s.
Proof.
  revert buffer p length s. induction k as [|k IH]; intros buffer p length s; [done|].
  cbn [deliver]. rewrite IH. by case_match.
Qed.

Lemma keypool_cleared_clear_keypool s :
  keypool_allocated s -> keypool_cleared (clear_keypool s).
Proof.
  unfold keypool_allocated, keypool_cleared, clear_keypool. intros Hs.
  cbn [keypool set_keypool]. apply read_bytes_memset. lia.
Qed.

(** Peeling one step off a successful run. *)
Ltac peel H I :=
  let a := fresh "a" in let s1 := fresh "s" in let Hm := fresh "Hm" in
  apply bind_Val in H as (a & s1 & Hm & H);
  match type of Hm with
  | ?m ?s = _ =>
      let Hi := fresh "Hi" in
      assert (Hi : always I m)
        by (first [ solve [auto with keypool]
                  | always_go keypool_leaf keypool_known ]);
      specialize (Hi s); rewrite Hm in Hi; cbn [snd] in Hi;
      specialize (Hi ltac:(assumption)); clear Hm
  end.

Lemma read_pool_keypool_cleared fuel : forall buffer p length level s out s',
  keypool_allocated s ->
  read_pool E fuel buffer p length level s = (Val out, s') ->
  keypool_cleared s'.
Proof.
  induction fuel as [|fuel IH]; intros buffer p length level s out s' Hs Hrun;
    cbn [read_pool] in Hrun.
  all: peel Hrun keypool_allocated.
  all: destruct (length >? Z.of_nat POOLSIZE)%Z; [discriminate Hrun|].
  all: do 9 peel Hrun keypool_allocated.
  all: apply bind_Val in Hrun as (d & s10 & Hd & Hrun).
  all: pose proof (deliver_keypool (Z.to_nat length) buffer p length s9) as Hk.
  all: destruct (deliver (Z.to_nat length) buffer p length s9) as [[[b' p'] l'] s9'].
  all: injection Hd as <- <-; cbn [snd] in Hk.
  all: assert (Hi10 : keypool_allocated s9') by (by eapply keypool_allocated_same).
  all: peel Hrun keypool_allocated.
  all: apply bind_Val in Hrun as ([] & s12 & Hc & Hrun); injection Hc as <-.
  all: assert (Hz : keypool_cleared (clear_keypool s10))
         by (apply keypool_cleared_clear_keypool; assumption).
  all: assert (Ha : keypool_allocated (clear_keypool s10))
         by (unfold keypool_allocated, clear_keypool; cbn [keypool set_keypool];
             by rewrite length_memset).
  all: set (c := clear_keypool s10) in *; clearbody c.
  all: apply bind_Val in Hrun as (pid & s13 & Hp & Hrun); injection Hp as <- <-.
  all: destruct (negb _); [| injection Hrun as <- <-; exact Hz].
  all: do 2 peel Hrun keypool_allocated.
  - discriminate Hrun.
  - eapply IH; [|exact Hrun]. done.
Qed.

(** C5, as the code has it.  When [read_pool] returns, on a state whose
    key pool is allocated ([POOLSIZE] bytes and the scratch block of
    [BLOCKLEN] bytes behind them), the [POOLSIZE] bytes of the key pool
    are zero.  Nothing is said of the scratch block: the [memset] stops
    at [POOLSIZE]. *)
Theorem read_pool_clears_keypool fuel buffer p length level s out s' :
  keypool_allocated s ->
  read_pool E fuel buffer p length level s = (Val out, s') ->
  read_bytes (keypool s') 0 POOLSIZE = replicate POOLSIZE 0%Z.
Proof. apply read_pool_keypool_cleared. Qed.

End KeypoolFacts.

(** C5, as the specification has it, fails: after an extraction of 32
    bytes the scratch block behind the key pool still holds the last
    block that was hashed, so the buffer as a whole is not zero. *)
Lemma keypool_is_not_all_zero_after_read_pool :
  (@read_pool stub_sha1 quiet_env 1 (replicate 32 0%Z) 0 32 GCRY_STRONG_RANDOM
     ready_state).1 = Val (replicate 32 255%Z) /\
  length (keypool ready_state) = POOLSIZE + BLOCKLEN /\
  keypool (@read_pool stub_sha1 quiet_env 1 (replicate 32 0%Z) 0 32 GCRY_STRONG_RANDOM
             ready_state).2
  <> replicate (POOLSIZE + BLOCKLEN) 0%Z.
Proof.
  split; [vm_compute; reflexivity|]. split; [vm_compute; reflexivity|].
  intros Hz. vm_compute in Hz. apply (f_equal (fun l => peek l 600)) in Hz.
  vm_compute in Hz. discriminate Hz.
Qed.

Lemma read_pool_clears_keypool_witness :
  keypool_allocated ready_state /\
  @read_pool stub_sha1 quiet_env 1 (replicate 32 0%Z) 0 32 GCRY_STRONG_RANDOM ready_state
  = (Val (replicate 32 255%Z),
     (@read_pool stub_sha1 quiet_env 1 (replicate 32 0%Z) 0 32 GCRY_STRONG_RANDOM
        ready_state).2) /\
  read_bytes
    (keypool (@read_pool stub_sha1 quiet_env 1 (replicate 32 0%Z) 0 32 GCRY_STRONG_RANDOM
                ready_state).2) 0 POOLSIZE
  = replicate POOLSIZE 0%Z.
Proof.
  assert (Ha : keypool_allocated ready_state) by (vm_compute; reflexivity).
  assert (Hrun : @read_pool stub_sha1 quiet_env 1 (replicate 32 0%Z) 0 32
                   GCRY_STRONG_RANDOM ready_state
    = (Val (replicate 32 255%Z),
       (@read_pool stub_sha1 quiet_env 1 (replicate 32 0%Z) 0 32 GCRY_STRONG_RANDOM
          ready_state).2))
    by (vm_compute; reflexivity).
  split; [exact Ha|]. split; [exact Hrun|].
  exact (@read_pool_clears_keypool stub_sha1 quiet_env 1 _ _ _ _ _ _ _ Ha Hrun).
Defined.

(** ** The bug that cannot happen *)

Section NoBug.
Context `{Sha1} (E : environment).

Local Abbreviation no_bug := (never Bug_initial_extra_seeding).

Lemma no_bug_read_random_source origin length level :
  no_bug (read_random_source E origin length level).
Proof. unfold read_random_source. never_go. Qed.
#[local] Hint Resolve no_bug_read_random_source : never.

Lemma no_bug_random_poll : no_bug (random_poll E).
Proof. unfold random_poll. never_go. Qed.
#[local] Hint Resolve no_bug_random_poll : never.

Lemma no_bug_do_fast_random_poll : no_bug (do_fast_random_poll E).
Proof. unfold do_fast_random_poll. never_go. Qed.
#[local] Hint Resolve no_bug_do_fast_random_poll : never.

Lemma no_bug_read_seed_file : no_bug (read_seed_file E).
Proof. unfold read_seed_file. never_go. Qed.
#[local] Hint Resolve no_bug_read_seed_file : never.

Lemma no_bug_fork_check : no_bug (fork_check E).
Proof. unfold fork_check. never_go. Qed.
#[local] Hint Resolve no_bug_fork_check : never.

Lemma no_bug_seed_on_demand : no_bug (seed_on_demand E).
Proof. unfold seed_on_demand. never_go. Qed.
#[local] Hint Resolve no_bug_seed_on_demand : never.

Lemma no_bug_balance_topup length level : no_bug (balance_topup E length level).
Proof. unfold balance_topup. never_go. Qed.
#[local] Hint Resolve no_bug_balance_topup : never.

Lemma no_bug_fill_pool fuel : no_bug (fill_pool E fuel).
Proof. induction fuel as [|fuel IH]; cbn [fill_pool]; never_go. Qed.
#[local] Hint Resolve no_bug_fill_pool : never.

(** With the balance just set to zero, [needed] is [length] itself. *)
Lemma no_bug_initial_extra_seeding length level :
  (0 <= length <= Z.of_nat POOLSIZE)%Z ->
  no_bug (initial_extra_seeding E length level).
Proof.
  intros Hlen. unfold initial_extra_seeding.
  apply never_bind; [apply never_gets | intros done].
  destruct (_ && _); [|apply never_ret].
  intros s. unfold bind at 1. cbn [modify].
  unfold bind at 1. cbn [gets pool_balance set_pool_balance].
  change (size_t_of_int 0) with 0%Z. rewrite Z.sub_0_r.
  rewrite wrap64_small by (pool_consts; lia).
  generalize (set_pool_balance 0%Z s). clear s.
  change (no_bug
    (do needed <- (if (length <? 16)%Z then ret 16%Z
                   else if (length >? Z.of_nat POOLSIZE)%Z
                        then die Bug_initial_extra_seeding else ret length);
     run read_random_source E RANDOM_ORIGIN_EXTRAPOLL needed GCRY_VERY_STRONG_RANDOM;
     run modify (fun s => set_pool_balance
                   (int_of_size_t (wrap64 (size_t_of_int (pool_balance s) + needed))) s);
     modify (set_did_initial_extra_seeding true))).
  apply never_bind; [| intros; never_go].
  destruct (length <? 16)%Z; [apply never_ret|].
  destruct (Z.gtb_spec length (Z.of_nat POOLSIZE)); [lia | apply never_ret].
Qed.
#[local] Hint Resolve no_bug_initial_extra_seeding : never.

Lemma deliver_length_nonneg k buffer p length s :
  (0 <= (deliver k buffer p length s).1.2)%Z.
Proof.
  revert buffer p length s. induction k as [|k IH]; intros buffer p length s;
    cbn [deliver]; [|apply IH].
  cbn [fst snd]. unfold wrap64. apply Z.mod_pos_bound. reflexivity.
Qed.

Lemma no_bug_read_pool_all fuel : forall buffer p length level,
  (0 <= length)%Z -> no_bug (read_pool E fuel buffer p length level).
Proof.
  induction fuel as [|fuel IH]; intros buffer p length level Hlen; cbn [read_pool].
  all: apply never_bind; [auto with never | intros my_pid2].
  all: destruct (Z.gtb_spec length (Z.of_nat POOLSIZE)); [never_go|].
  all: apply never_bind; [auto with never | intros _].
  all: apply never_bind; [apply no_bug_initial_extra_seeding; lia | intros _].
  all: unfold add_own_pid, mix_if_needed.
  all: do 7 (apply never_bind; [never_go | intros _]).
  all: apply (never_bind_val _ (fun out => 0 <= out.2)%Z).
  all: try (intros s [[b' p'] l'] s1 Hd;
            pose proof (deliver_length_nonneg (Z.to_nat length) buffer p length s) as Hn;
            destruct (deliver (Z.to_nat length) buffer p length s) as [[[? ?] ?] ?];
            injection Hd as <- <- <- <-; exact Hn).
  all: try (intros s; destruct (deliver (Z.to_nat length) buffer p length s) as [[[? ?] ?] ?];
            discriminate).
  all: intros out Hout; never_go.
Qed.
(** C10.  [read_pool], asked for [length] bytes ([length] is a
    [size_t], so not negative), never ends in the [BUG ()] of the first
    seeding for level 2: a request of more than [POOLSIZE] bytes is
    stopped by the check at the entry, and for any other
    [needed = max (length, 16)] is at most [POOLSIZE]. *)
Theorem read_pool_never_reaches_the_seeding_bug fuel buffer p length level s :
  (0 <= length)%Z ->
  (read_pool E fuel buffer p length level s).1 <> Fatal Bug_initial_extra_seeding.
Proof. intros Hlen. by apply no_bug_read_pool_all. Qed.

End NoBug.

Lemma read_pool_never_reaches_the_seeding_bug_witness :
  (0 <= 600)%Z /\
  (@read_pool stub_sha1 quiet_env 1 (replicate 600 0%Z) 0 600 GCRY_VERY_STRONG_RANDOM
     ready_state).1 <> Fatal Bug_initial_extra_seeding.
Proof.
  split; [lia|].
  apply (@read_pool_never_reaches_the_seeding_bug stub_sha1 quiet_env 1). lia.
Defined.

(** The run of the witness goes through the first seeding for level 2
    and delivers. *)
Example very_strong_request_is_served :
  let r := @read_pool stub_sha1 quiet_env 1 (replicate 600 0%Z) 0 600
             GCRY_VERY_STRONG_RANDOM ready_state in
  did_initial_extra_seeding ready_state = false /\
  (exists out, r.1 = Val out) /\
  did_initial_extra_seeding r.2 = true /\
  gather_log r.2 = [(RANDOM_ORIGIN_EXTRAPOLL, 600%Z, GCRY_VERY_STRONG_RANDOM)].
Proof.
  cbv zeta. split; [vm_compute; reflexivity|].
  split; [eexists; vm_compute; reflexivity|].
  split; vm_compute; reflexivity.
Qed.

(** ** Seeding for level 2 *)

Section Seeding.
Context `{Sha1} (E : environment).

Lemma read_random_source_eq origin length level s :
  slow_gather_fnc s = true ->
  read_random_source E origin length level s =
    (if ((env_slow_gather E (tick s) origin length level).2 <? 0)%Z
     then Fatal Fatal_no_entropy else Val tt,
     after_gather E origin length level s).
Proof.
  intros Hfnc. unfold read_random_source, after_gather.
  unfold bind, gets, ask, modify. rewrite Hfnc. cbn [negb].
  by destruct (_ <? 0)%Z.
Qed.

Lemma after_gather_bystanders origin length level s :
  let s' := after_gather E origin length level s in
  pool_balance s' = pool_balance s /\
  did_initial_extra_seeding s' = did_initial_extra_seeding s /\
  slow_gather_fnc s' = slow_gather_fnc s /\
  tick s' = S (tick s) /\
  gather_log s' = gather_log s ++ [(origin, length, level)] /\
  keypool s' = keypool s /\ pool_readpos s' = pool_readpos s /\
  seed_file_name s' = seed_file_name s /\
  allow_seed_file_update s' = allow_seed_file_update s.
Proof.
  unfold after_gather.
  set (s0 := set_gather_log _ _).
  pose proof (add_each_bystanders
    (env_slow_gather E (tick s) origin length level).1 origin s0) as Hb.
  unfold bystanders in Hb. simplify_eq. cbn -[add_each] in *.
  repeat split; congruence.
Qed.

Lemma bind_read_random_source {B} origin length level (k : unit -> M B) s :
  slow_gather_fnc s = true ->
  (0 <= (env_slow_gather E (tick s) origin length level).2)%Z ->
  bind (read_random_source E origin length level) k s =
    k tt (after_gather E origin length level s).
Proof.
  intros Hfnc Hrc. unfold bind at 1. rewrite read_random_source_eq by done.
  by rewrite (proj2 (Z.ltb_ge _ _)) by done.
Qed.

Lemma initial_extra_seeding_first length s :
  did_initial_extra_seeding s = false ->
  slow_gather_fnc s = true ->
  (0 <= length < 2 ^ 64)%Z ->
  (0 <= (env_slow_gather E (tick s) RANDOM_ORIGIN_EXTRAPOLL (Z.max length 16)
           GCRY_VERY_STRONG_RANDOM).2)%Z ->
  initial_extra_seeding E length GCRY_VERY_STRONG_RANDOM s =
    if (Z.max length 16 >? Z.of_nat POOLSIZE)%Z
    then (Fatal Bug_initial_extra_seeding, set_pool_balance 0 s)
    else (Val tt, extra_seeded E length s).
Proof.
  intros Hdone Hfnc Hlen Hrc. unfold initial_extra_seeding.
  rewrite bind_gets, Hdone, Z.eqb_refl. cbn [andb negb].
  rewrite bind_modify, bind_gets.
  cbn [pool_balance set_pool_balance].
  change (size_t_of_int 0) with 0%Z. rewrite Z.sub_0_r, wrap64_small by done.
  assert (Hadd : forall needed, (16 <= needed <= Z.of_nat POOLSIZE)%Z ->
    (0 <= (env_slow_gather E (tick s) RANDOM_ORIGIN_EXTRAPOLL needed
             GCRY_VERY_STRONG_RANDOM).2)%Z ->
    (run read_random_source E RANDOM_ORIGIN_EXTRAPOLL needed GCRY_VERY_STRONG_RANDOM;
     run modify (fun s => set_pool_balance
           (int_of_size_t (wrap64 (size_t_of_int (pool_balance s) + needed))) s);
     modify (set_did_initial_extra_seeding true)) (set_pool_balance 0 s)
    = (Val tt, set_did_initial_extra_seeding true
         (set_pool_balance needed
            (after_gather E RANDOM_ORIGIN_EXTRAPOLL needed GCRY_VERY_STRONG_RANDOM
               (set_pool_balance 0 s))))).
  { intros needed Hn Hrc'. rewrite bind_read_random_source by done.
    rewrite bind_modify. unfold modify.
    destruct (after_gather_bystanders RANDOM_ORIGIN_EXTRAPOLL needed
                GCRY_VERY_STRONG_RANDOM (set_pool_balance 0 s)) as (Hb & _).
    rewrite Hb. cbn [pool_balance set_pool_balance].
    change (size_t_of_int 0) with 0%Z. rewrite Z.add_0_l.
    rewrite wrap64_small by (pool_consts; lia).
    by rewrite int_of_size_t_small by (pool_consts; lia). }
  unfold extra_seeded.
  destruct (Z.ltb_spec length 16) as [Hsmall|Hbig].
  - rewrite Z.max_r in * by lia. rewrite bind_ret.
    change (16 >? Z.of_nat POOLSIZE)%Z with false.
    apply Hadd; [pool_consts; lia | done].
  - rewrite Z.max_l in * by lia.
    destruct (Z.gtb_spec length (Z.of_nat POOLSIZE)) as [Hover|Hfits].
    + by rewrite bind_die.
    + rewrite bind_ret. apply Hadd; [lia | done].
Qed.

Lemma extra_seeded_facts length s :
  let needed := Z.max length 16 in
  let s' := extra_seeded E length s in
  gather_log s' = gather_log s
                    ++ [(RANDOM_ORIGIN_EXTRAPOLL, needed, GCRY_VERY_STRONG_RANDOM)]
  /\ pool_balance s' = needed /\ did_initial_extra_seeding s' = true.
Proof.
  cbv zeta. unfold extra_seeded.
  destruct (after_gather_bystanders RANDOM_ORIGIN_EXTRAPOLL (Z.max length 16)
              GCRY_VERY_STRONG_RANDOM (set_pool_balance 0 s))
    as (_ & _ & _ & _ & Hlog & _).
  set (g := after_gather E _ _ _ _) in *. clearbody g.
  repeat split. exact Hlog.
Qed.
(** C4.  The first block of [read_pool] for level 2, entered with
    [did_initial_extra_seeding] still false, a slow gatherer that is set
    and does not fail: [pool_balance] is set to 0 and
    [needed = max (length, 16)]; when [needed] exceeds [POOLSIZE] the
    block ends in [BUG ()]; else exactly one request goes to the slow
    gatherer, for [needed] bytes with origin [EXTRAPOLL] at level 2,
    [pool_balance] ends as [needed] and [did_initial_extra_seeding] as
    true. *)
Theorem first_very_strong_extraction_seeds length s :
  did_initial_extra_seeding s = false ->
  slow_gather_fnc s = true ->
  (0 <= length < 2 ^ 64)%Z ->
  (0 <= (env_slow_gather E (tick s) RANDOM_ORIGIN_EXTRAPOLL (Z.max length 16)
           GCRY_VERY_STRONG_RANDOM).2)%Z ->
  let needed := Z.max length 16 in
  let r := initial_extra_seeding E length GCRY_VERY_STRONG_RANDOM s in
  if (needed >? Z.of_nat POOLSIZE)%Z
  then r = (Fatal Bug_initial_extra_seeding, set_pool_balance 0 s)
  else r = (Val tt, extra_seeded E length s) /\
       gather_log r.2 = gather_log s
                          ++ [(RANDOM_ORIGIN_EXTRAPOLL, needed, GCRY_VERY_STRONG_RANDOM)] /\
       pool_balance r.2 = needed /\
       did_initial_extra_seeding r.2 = true.
Proof.
  intros Hdone Hfnc Hlen Hrc. cbv zeta.
  rewrite initial_extra_seeding_first by assumption.
  destruct (Z.max length 16 >? Z.of_nat POOLSIZE)%Z; [reflexivity|].
  split; [reflexivity|]. cbn [snd]. apply extra_seeded_facts.
Qed.

End Seeding.

Lemma first_very_strong_extraction_seeds_witness :
  did_initial_extra_seeding ready_state = false /\
  gather_log ready_state = [] /\
  gather_log (@initial_extra_seeding stub_sha1 quiet_env 32 GCRY_VERY_STRONG_RANDOM
                ready_state).2
  = [] ++ [(RANDOM_ORIGIN_EXTRAPOLL, Z.max 32 16, GCRY_VERY_STRONG_RANDOM)].
Proof.
  assert (Hd : did_initial_extra_seeding ready_state = false) by (vm_compute; reflexivity).
  assert (Hf : slow_gather_fnc ready_state = true) by (vm_compute; reflexivity).
  assert (Hl : (0 <= 32 < 2 ^ 64)%Z) by lia.
  assert (Hrc : (0 <= (env_slow_gather quiet_env (tick ready_state) RANDOM_ORIGIN_EXTRAPOLL
                         (Z.max 32 16) GCRY_VERY_STRONG_RANDOM).2)%Z)
    by (apply Z.leb_le; vm_compute; reflexivity).
  assert (Hg : gather_log ready_state = []) by (vm_compute; reflexivity).
  split; [exact Hd|]. split; [exact Hg|].
  rewrite <- Hg at 2.
  exact (proj1 (proj2 (@first_very_strong_extraction_seeds stub_sha1 quiet_env 32
                         ready_state Hd Hf Hl Hrc))).
Defined.

(** ** The seed file *)

Section SeedFile.
Context `{Sha1} (E : environment).

Lemma after_gather_unreliable origin length level s :
  unreliable origin ->
  fill_state (after_gather E origin length level s) = fill_state s.
Proof. intros Hlow. unfold after_gather. by rewrite add_each_unreliable. Qed.

Lemma fold_sample_unreliable sample origin s :
  unreliable origin -> fill_state (fold_sample E sample origin s) = fill_state s.
Proof. intros Hlow. unfold fold_sample. by rewrite add_randomness_unreliable. Qed.

Lemma fold_sample_tick sample origin s :
  tick (fold_sample E sample origin s) = S (tick s).
Proof. unfold fold_sample. by rewrite add_randomness_tick. Qed.

Lemma fold_sample_gather_log sample origin s :
  gather_log (fold_sample E sample origin s) = gather_log s.
Proof. unfold fold_sample. by rewrite add_randomness_gather_log. Qed.

Lemma fold_sample_slow_gather_fnc sample origin s :
  slow_gather_fnc (fold_sample E sample origin s) = slow_gather_fnc s.
Proof. unfold fold_sample. by rewrite add_randomness_slow_gather_fnc. Qed.

Lemma seed_samples_facts buffer s :
  let s' := seed_samples E buffer s in
  fill_state s' = fill_state s /\ tick s' = tick s + 4 /\
  gather_log s' = gather_log s /\ slow_gather_fnc s' = slow_gather_fnc s.
Proof.
  cbv zeta. unfold seed_samples.
  rewrite !fold_sample_unreliable, !fold_sample_tick, !fold_sample_gather_log,
    !fold_sample_slow_gather_fnc by apply unreliable_INIT.
  repeat split. lia.
Qed.

Lemma seed_loaded_facts buffer s :
  let s' := seed_loaded E buffer s in
  let topup := if env_jent E (tick s + 4) then 128%Z else 32%Z in
  fill_state s' = fill_state s /\
  gather_log s' = gather_log s ++ [(RANDOM_ORIGIN_INIT, topup, GCRY_STRONG_RANDOM)] /\
  allow_seed_file_update s' = true.
Proof.
  cbv zeta. unfold seed_loaded.
  destruct (seed_samples_facts buffer s) as (Hfill & Htick & Hlog & _).
  set (s4 := seed_samples E buffer s) in *. clearbody s4. rewrite Htick.
  set (topup := if env_jent E (tick s + 4) then _ else _).
  destruct (after_gather_bystanders E RANDOM_ORIGIN_INIT topup GCRY_STRONG_RANDOM
              (tick_step s4)) as (_ & _ & _ & _ & Hlog' & _).
  pose proof (after_gather_unreliable RANDOM_ORIGIN_INIT topup GCRY_STRONG_RANDOM
                (tick_step s4) unreliable_INIT) as Hfill'.
  set (g := after_gather E _ _ _ _) in *. clearbody g.
  split; [|split; [|reflexivity]].
  - change (fill_state g = fill_state s). by rewrite Hfill', <- Hfill.
  - change (gather_log g = gather_log s ++ [(RANDOM_ORIGIN_INIT, topup, GCRY_STRONG_RANDOM)]).
    by rewrite Hlog', <- Hlog.
Qed.

Lemma bind_fold_sample {A B} (q : environment -> nat -> A) (f : A -> list Z)
  origin (k : unit -> M B) s :
  bind (ask E q) (fun x => bind (modify (add_randomness (f x) origin)) k) s
  = k tt (fold_sample E (fun E t => f (q E t)) origin s).
Proof. reflexivity. Qed.

Lemma bind_fold_sample_id {B} (q : environment -> nat -> list Z)
  origin (k : unit -> M B) s :
  bind (ask E q) (fun x => bind (modify (add_randomness x origin)) k) s
  = k tt (fold_sample E q origin s).
Proof. reflexivity. Qed.

Lemma read_seed_file_good name buffer s :
  seed_file_name s = Some name ->
  env_seed_file E (tick s)
    = Seed_regular (Z.of_nat POOLSIZE) (Z.of_nat POOLSIZE) buffer ->
  slow_gather_fnc s = true ->
  (forall n, 0 <= (env_slow_gather E (tick s + 5) RANDOM_ORIGIN_INIT n
                     GCRY_STRONG_RANDOM).2)%Z ->
  read_seed_file E s = (Val true, seed_loaded E buffer s).
Proof.
  intros Hname Hseed Hfnc Hrc. unfold read_seed_file.
  rewrite bind_gets, Hname, bind_ask, Hseed.
  change (Z.of_nat POOLSIZE =? 0)%Z with false.
  rewrite Z.eqb_refl. cbn [negb].
  rewrite bind_modify.
  change (set_tick (S (tick s)) s) with (tick_step s).
  change (add_randomness (read_bytes buffer 0 POOLSIZE) RANDOM_ORIGIN_INIT (tick_step s))
    with (fold_sample E (fun _ _ => read_bytes buffer 0 POOLSIZE) RANDOM_ORIGIN_INIT s).
  rewrite (bind_fold_sample env_getpid pid_bytes).
  rewrite !bind_fold_sample_id.
  fold (seed_samples E buffer s).
  destruct (seed_samples_facts buffer s) as (_ & Htick & _ & Hfnc').
  unfold seed_loaded. cbv zeta.
  set (s4 := seed_samples E buffer s) in *. clearbody s4.
  rewrite bind_ask.
  change (set_tick (S (tick s4)) s4) with (tick_step s4).
  assert (Hgo : forall n (k : unit -> M bool),
    bind (read_random_source E RANDOM_ORIGIN_INIT n GCRY_STRONG_RANDOM) k (tick_step s4)
    = k tt (after_gather E RANDOM_ORIGIN_INIT n GCRY_STRONG_RANDOM (tick_step s4))).
  { intros n k. apply bind_read_random_source.
    - change (slow_gather_fnc s4 = true). congruence.
    - change (tick (tick_step s4)) with (S (tick s4)).
      replace (S (tick s4)) with (tick s + 5) by lia. apply Hrc. }
  destruct (env_jent E (tick s4)); rewrite Hgo; reflexivity.
Qed.

Lemma seed_on_demand_good name buffer s :
  pool_filled s = false ->
  seed_file_name s = Some name ->
  env_seed_file E (tick s)
    = Seed_regular (Z.of_nat POOLSIZE) (Z.of_nat POOLSIZE) buffer ->
  slow_gather_fnc s = true ->
  (forall n, 0 <= (env_slow_gather E (tick s + 5) RANDOM_ORIGIN_INIT n
                     GCRY_STRONG_RANDOM).2)%Z ->
  seed_on_demand E s = (Val tt, set_pool_filled true (seed_loaded E buffer s)).
Proof.
  intros Hfilled Hname Hseed Hfnc Hrc. unfold seed_on_demand.
  rewrite bind_gets, Hfilled. unfold bind.
  by rewrite (read_seed_file_good name buffer).
Qed.
(** C2, as the code has it.  When [read_pool] finds the pool not yet
    filled and [read_seed_file] loads a good seed file of [POOLSIZE]
    bytes, the fresh bytes drawn afterwards (128 with a jitter RNG, else
    32) are requested with origin [INIT] at level 1; [read_seed_file]
    moves neither [pool_filled] nor [pool_filled_counter], its bytes
    being of an origin below [SLOWPOLL]; and [pool_filled] becomes true
    because [read_pool] sets it when [read_seed_file] reports success. *)
Theorem seed_file_fills_the_pool_directly name buffer s :
  pool_filled s = false ->
  seed_file_name s = Some name ->
  env_seed_file E (tick s)
    = Seed_regular (Z.of_nat POOLSIZE) (Z.of_nat POOLSIZE) buffer ->
  slow_gather_fnc s = true ->
  (forall n, 0 <= (env_slow_gather E (tick s + 5) RANDOM_ORIGIN_INIT n
                     GCRY_STRONG_RANDOM).2)%Z ->
  let topup := if env_jent E (tick s + 4) then 128%Z else 32%Z in
  (read_seed_file E s).1 = Val true /\
  gather_log (read_seed_file E s).2
    = gather_log s ++ [(RANDOM_ORIGIN_INIT, topup, GCRY_STRONG_RANDOM)] /\
  pool_filled (read_seed_file E s).2 = false /\
  pool_filled_counter (read_seed_file E s).2 = pool_filled_counter s /\
  seed_on_demand E s = (Val tt, set_pool_filled true (read_seed_file E s).2).
Proof.
  intros Hfilled Hname Hseed Hfnc Hrc. cbv zeta.
  rewrite (seed_on_demand_good name buffer), (read_seed_file_good name buffer)
    by assumption.
  cbn [fst snd].
  destruct (seed_loaded_facts buffer s) as (Hfill & Hlog & _).
  pose proof (f_equal fst Hfill) as Hf. pose proof (f_equal snd Hfill) as Hc.
  change (pool_filled (seed_loaded E buffer s) = pool_filled s) in Hf.
  change (pool_filled_counter (seed_loaded E buffer s) = pool_filled_counter s) in Hc.
  split; [reflexivity|]. split; [exact Hlog|].
  split; [congruence|]. split; [exact Hc | reflexivity].
Qed.

End SeedFile.

(** C2, as the specification has it, fails: with a good seed file the
    only request to the gatherer has origin [INIT], not [EXTRAPOLL], and
    [pool_filled] is true afterwards although [pool_filled_counter] is
    still 0. *)
Lemma seed_topup_is_not_an_extrapoll :
  (@seed_on_demand stub_sha1 seed_env seeded_state).1 = Val tt /\
  gather_log (@seed_on_demand stub_sha1 seed_env seeded_state).2
    = [(RANDOM_ORIGIN_INIT, 32%Z, GCRY_STRONG_RANDOM)] /\
  pool_filled (@seed_on_demand stub_sha1 seed_env seeded_state).2 = true /\
  pool_filled_counter (@seed_on_demand stub_sha1 seed_env seeded_state).2 = 0%Z.
Proof. repeat split; vm_compute; reflexivity. Qed.

Lemma seed_file_fills_the_pool_directly_witness :
  pool_filled seeded_state = false /\
  gather_log (@read_seed_file stub_sha1 seed_env seeded_state).2
  = gather_log seeded_state
      ++ [(RANDOM_ORIGIN_INIT,
           if env_jent seed_env (tick seeded_state + 4) then 128%Z else 32%Z,
           GCRY_STRONG_RANDOM)].
Proof.
  assert (Hp : pool_filled seeded_state = false) by (vm_compute; reflexivity).
  assert (Hn : seed_file_name seeded_state = Some "random_seed"%string)
    by (vm_compute; reflexivity).
  assert (Hs : env_seed_file seed_env (tick seeded_state)
               = Seed_regular (Z.of_nat POOLSIZE) (Z.of_nat POOLSIZE)
                   (replicate POOLSIZE 0%Z)) by reflexivity.
  assert (Hf : slow_gather_fnc seeded_state = true) by (vm_compute; reflexivity).
  assert (Hrc : forall n, (0 <= (env_slow_gather seed_env (tick seeded_state + 5)
                                   RANDOM_ORIGIN_INIT n GCRY_STRONG_RANDOM).2)%Z)
    by (intros n; apply Z.leb_le; reflexivity).
  split; [exact Hp|].
  exact (proj1 (proj2 (@seed_file_fills_the_pool_directly stub_sha1 seed_env _ _ _
                         Hp Hn Hs Hf Hrc))).
Defined.

(** ** Bytes from outside *)

Section AddBytes.
Context `{Sha1}.

Lemma chunks_spec rounds bytes :
  length bytes <= rounds ->
  concat (chunks rounds bytes) = bytes /\
  Forall (fun c => 0 < length c <= POOLSIZE) (chunks rounds bytes).
Proof.
  revert bytes. induction rounds as [|rounds IH]; intros bytes Hlen.
  - destruct bytes; [by split | cbn in Hlen; lia].
  - cbn [chunks]. destruct (Nat.eqb_spec (length bytes) 0) as [Hz|Hnz].
    + destruct bytes; [by split | done].
    + set (n := Nat.min POOLSIZE (length bytes)).
      assert (0 < n <= POOLSIZE) by (subst n; pool_consts; lia).
      destruct (IH (drop n bytes)) as [Hcat Hall].
      { rewrite length_drop. lia. }
      split.
      * cbn [concat]. rewrite Hcat. apply take_drop.
      * constructor; [|done]. rewrite length_take. lia.
Qed.

Lemma add_chunk_rndpool_set s chunk : rndpool_set (add_chunk s chunk) = rndpool_set s.
Proof.
  unfold add_chunk.
  pose proof (add_randomness_bystanders chunk RANDOM_ORIGIN_EXTERNAL (locked s)) as Hb.
  unfold bystanders in Hb. injection Hb. intros.
  set (x := add_randomness _ _ _) in *. clearbody x.
  change (rndpool_set x = rndpool_set s). congruence.
Qed.

Lemma add_bytes_loop_allocated rounds bytes s :
  length bytes <= rounds -> rndpool_set s = true ->
  add_bytes_loop rounds bytes s = (Val tt, foldl add_chunk s (chunks rounds bytes)).
Proof.
  revert bytes s. induction rounds as [|rounds IH]; intros bytes s Hlen Hset;
    cbn [add_bytes_loop chunks].
  - destruct bytes; [done | cbn in Hlen; lia].
  - destruct (Nat.eqb_spec (length bytes) 0) as [Hz|Hnz]; [done|].
    replace (if POOLSIZE <? length bytes then POOLSIZE else length bytes)
      with (Nat.min POOLSIZE (length bytes))
      by (destruct (Nat.ltb_spec POOLSIZE (length bytes)); lia).
    unfold lock_pool, unlock_pool.
    rewrite bind_modify, bind_gets.
    change (rndpool_set (locked s)) with (rndpool_set s). rewrite Hset.
    rewrite !bind_modify. cbn [foldl].
    apply IH; [rewrite length_drop; pool_consts; lia|].
    by rewrite add_chunk_rndpool_set.
Qed.

Lemma add_bytes_loop_unallocated rounds bytes s :
  length bytes <= rounds -> rndpool_set s = false ->
  add_bytes_loop rounds bytes s = (Val tt, foldl skip_chunk s (chunks rounds bytes)).
Proof.
  revert bytes s. induction rounds as [|rounds IH]; intros bytes s Hlen Hset;
    cbn [add_bytes_loop chunks].
  - destruct bytes; [done | cbn in Hlen; lia].
  - destruct (Nat.eqb_spec (length bytes) 0) as [Hz|Hnz]; [done|].
    replace (if POOLSIZE <? length bytes then POOLSIZE else length bytes)
      with (Nat.min POOLSIZE (length bytes))
      by (destruct (Nat.ltb_spec POOLSIZE (length bytes)); lia).
    unfold lock_pool, unlock_pool.
    rewrite bind_modify, bind_gets.
    change (rndpool_set (locked s)) with (rndpool_set s). rewrite Hset.
    rewrite bind_ret, bind_modify. cbn [foldl].
    apply IH; [rewrite length_drop; pool_consts; lia | done].
Qed.

Lemma clamp_quality_low quality :
  (clamp_quality quality < 10 <-> quality < 10 /\ quality <> -1)%Z.
Proof.
  unfold clamp_quality.
  destruct (Z.eqb_spec quality (-1)); [lia|].
  destruct (Z.gtb_spec quality 100); [lia|].
  destruct (Z.ltb_spec quality 0); lia.
Qed.

Lemma add_bytes_eq buf quality s :
  _gcry_rngcsprng_add_bytes buf quality s =
    match buf with
    | None => (Val GPG_ERR_INV_ARG, s)
    | Some bytes =>
        if bool_decide (bytes = []) || (clamp_quality quality <? 10)%Z
        then (Val GPG_ERR_NO_ERROR, s)
        else (Val GPG_ERR_NO_ERROR,
              foldl (if rndpool_set s then add_chunk else skip_chunk) s
                (chunks (length bytes) bytes))
    end.
Proof.
  unfold _gcry_rngcsprng_add_bytes. destruct buf as [bytes|]; [|done].
  assert (Hnil : (length bytes =? 0) = bool_decide (bytes = [])).
  { destruct bytes; [done|]. by rewrite bool_decide_eq_false_2. }
  rewrite Hnil. destruct (_ || _); [done|].
  unfold initialize_basics. rewrite bind_ret.
  unfold bind at 1. destruct (rndpool_set s) eqn:Hset.
  - by rewrite add_bytes_loop_allocated.
  - by rewrite add_bytes_loop_unallocated.
Qed.
(** C6, as the code has it.  [_gcry_rngcsprng_add_bytes] answers a
    NULL buffer with [GPG_ERR_INV_ARG] and any other with success; the
    state is left as it was for NULL, for an empty buffer and for a
    quality below 10 other than -1 (-1 stands for 35); any other buffer
    is cut into pieces of [POOLSIZE] bytes at most, none of them empty,
    and each piece is folded in under the lock, by [add_randomness] with
    origin [EXTERNAL], provided the pool is allocated. *)
Theorem add_bytes_drops_low_quality_and_folds_the_rest buf quality s :
  let r := _gcry_rngcsprng_add_bytes buf quality s in
  match buf with
  | None => r = (Val GPG_ERR_INV_ARG, s)
  | Some bytes =>
      r.1 = Val GPG_ERR_NO_ERROR /\
      (bytes = [] \/ (quality < 10 /\ quality <> -1)%Z -> r.2 = s) /\
      (bytes <> [] -> ~ (quality < 10 /\ quality <> -1)%Z ->
       r.2 = foldl (if rndpool_set s then add_chunk else skip_chunk) s
               (chunks (length bytes) bytes) /\
       concat (chunks (length bytes) bytes) = bytes /\
       Forall (fun c => 0 < length c <= POOLSIZE) (chunks (length bytes) bytes))
  end.
Proof.
  cbv zeta. rewrite add_bytes_eq. destruct buf as [bytes|]; [|reflexivity].
  pose proof (clamp_quality_low quality) as Hq.
  destruct (decide (bytes = [])) as [Hnil|Hnil].
  - rewrite bool_decide_eq_true_2 by done. cbn [orb fst snd].
    repeat split; done.
  - rewrite bool_decide_eq_false_2 by done. cbn [orb].
    destruct (Z.ltb_spec (clamp_quality quality) 10) as [Hlow|Hhigh]; cbn [fst snd].
    + split; [done|]. split; [done|]. intros _ Hno. destruct Hno. by apply Hq.
    + split; [done|]. split.
      * intros [Hn|Hl]; [done|]. apply Hq in Hl. lia.
      * intros _ _. split; [done|]. by apply chunks_spec.
Qed.

End AddBytes.

(** C6, as the specification has it, fails for the quality -1, which is
    below 10 and yet stands for 35: the 64 bytes are folded in and
    counted. *)
Lemma add_bytes_of_quality_minus_one_are_counted :
  (-1 < 10)%Z /\
  (@_gcry_rngcsprng_add_bytes stub_sha1 (Some (replicate 64 1%Z)) (-1) ready_state).1
    = Val GPG_ERR_NO_ERROR /\
  addbytes (rndstats ready_state) = 0%Z /\
  addbytes (rndstats (@_gcry_rngcsprng_add_bytes stub_sha1 (Some (replicate 64 1%Z)) (-1)
                        ready_state).2) = 64%Z /\
  rndpool (@_gcry_rngcsprng_add_bytes stub_sha1 (Some (replicate 64 1%Z)) (-1)
             ready_state).2 <> rndpool ready_state.
Proof.
  split; [lia|]. split; [vm_compute; reflexivity|].
  split; [vm_compute; reflexivity|]. split; [vm_compute; reflexivity|].
  intros Hz. apply (f_equal (fun l => peek l 0)) in Hz.
  vm_compute in Hz. discriminate Hz.
Qed.

(** ** Requests *)

Section Randomize.
Context `{Sha1} (E : environment).

Lemma initialize_result s :
  (initialize E s).1 =
    if rndpool_set s || env_gather_module E (tick s)
    then Val tt else Fatal Fatal_no_gather_module.
Proof.
  unfold initialize, initialize_basics, lock_pool, unlock_pool.
  rewrite bind_ret, bind_modify, bind_gets.
  change (rndpool_set (locked s)) with (rndpool_set s).
  destruct (rndpool_set s); [done|]. cbn [negb orb].
  rewrite !bind_assoc, bind_modify, !bind_assoc, bind_ask.
  set (s1 := set_keypool _ _).
  change (tick s1) with (tick s).
  by destruct (env_gather_module E (tick s)).
Qed.

Lemma randomize_zero fuel buffer level s :
  (_gcry_rngcsprng_randomize E fuel buffer 0 level s).1 =
    if rndpool_set s || env_gather_module E (tick s)
    then Val buffer else Fatal Fatal_no_gather_module.
Proof.
  unfold _gcry_rngcsprng_randomize. unfold bind at 1.
  pose proof (initialize_result s) as Hinit.
  destruct (initialize E s) as [[[]|why|] s1]; cbn [fst] in Hinit;
    destruct (_ || _); try discriminate Hinit;
    [| by injection Hinit as ->].
  rewrite bind_gets. unfold lock_pool, unlock_pool. rewrite bind_modify.
  change (Z.to_nat 0) with 0. cbn [randomize_loop].
  change (0 >? 0)%Z with false. cbv iota.
  by destruct (_ >=? _)%Z.
Qed.
(** C9.  A request for no bytes hands the buffer back as it was given,
    whatever it holds, unless the module has still to be initialized and
    there is no gather module, in which case the process ends. *)
Theorem zero_length_request_leaves_the_buffer fuel buffer level s :
  (_gcry_rngcsprng_randomize E fuel buffer 0 level s).1 =
    if rndpool_set s || env_gather_module E (tick s)
    then Val buffer else Fatal Fatal_no_gather_module.
Proof. apply randomize_zero. Qed.

(** The loop of [_gcry_rngcsprng_randomize] asks [read_pool] for
    [POOLSIZE] bytes at most: 601 bytes are two calls, of 600 and of 1,
    the second writing behind the first. *)
Lemma randomize_loop_601 rounds fuel buffer level s :
  randomize_loop E (S (S rounds)) fuel buffer 0 601 level s =
    (do b <- read_pool E fuel buffer 0 600 level;
     do b <- read_pool E fuel b 600 1 level;
     ret b) s.
Proof.
  cbn [randomize_loop]. change (601 >? 0)%Z with true. cbv iota.
  change (601 >? Z.of_nat POOLSIZE)%Z with true. cbv iota zeta.
  change (Z.of_nat POOLSIZE) with 600%Z.
  apply bind_ext. intros b s1.
  change (601 - 600)%Z with 1%Z. change (0 + Z.to_nat 600) with 600.
  change (1 >? 0)%Z with true. cbv iota.
  change (1 >? 600)%Z with false. cbv iota.
  apply bind_ext. intros b' s2.
  change (1 - 1)%Z with 0%Z. by destruct rounds.
Qed.

(** What the loop that delivers leaves in [length]: the test that ends
    [while (length--)] takes it below zero, and [length] is unsigned. *)
Lemma deliver_length k buffer p s :
  (Z.of_nat k < 2 ^ 64)%Z ->
  (deliver k buffer p (Z.of_nat k) s).1.2 = (2 ^ 64 - 1)%Z.
Proof.
  revert buffer p s. induction k as [|k IH]; intros buffer p s Hk; [reflexivity|].
  cbn [deliver]. replace (wrap64 (Z.of_nat (S k) - 1)) with (Z.of_nat k).
  - apply IH. lia.
  - rewrite wrap64_small by lia. lia.
Qed.

(** A pass of [read_pool] with such a [length] ends at the check of the
    size, if it gets there. *)
Lemma read_pool_oversize fuel buffer p length level s :
  (Z.of_nat POOLSIZE < length)%Z ->
  (read_pool E fuel buffer p length level s).1 =
    match (fork_check E s).1 with
    | Val _ => Fatal Bug_too_many_random_bits
    | Fatal why => Fatal why
    | OutOfFuel => OutOfFuel
    end.
Proof.
  intros Hlen.
  assert (Hgt : (length >? Z.of_nat POOLSIZE)%Z = true)
    by (destruct (Z.gtb_spec length (Z.of_nat POOLSIZE)); [done | lia]).
  destruct fuel; cbn [read_pool]; unfold bind at 1;
    destruct (fork_check E s) as [[pid|why|] s1]; cbn [fst]; try done;
    by rewrite Hgt.
Qed.

End Randomize.

(** C7 fails in the code.  A request for 32 bytes at level 1, made
    through [_gcry_rngcsprng_randomize] on a module that has just been
    loaded, in a process whose id changes while [read_pool] is at work:
    the check for a fork at the end of [read_pool] jumps back to
    [retry] with [length] as the loop that delivers left it, and the
    check of the size ends the process. *)
Theorem retry_after_fork_trips_the_size_check :
  (@_gcry_rngcsprng_randomize stub_sha1 fork_env 10 (replicate 32 0%Z) 32
     GCRY_STRONG_RANDOM initial_state).1
  = Fatal Bug_too_many_random_bits.
Proof. vm_compute. reflexivity. Qed.

(** The same request in a process that keeps its id is served. *)
Example request_without_fork_is_served :
  (@_gcry_rngcsprng_randomize stub_sha1 quiet_env 10 (replicate 32 0%Z) 32
     GCRY_STRONG_RANDOM initial_state).1
  = Val (replicate 32 255%Z).
Proof. vm_compute. reflexivity. Qed.

(** * Further properties of the generator *)

(** ** More on [add_randomness] *)

Section AddMore.
Context `{Sha1}.

(** As long as the end of the pool is not reached the loop only XORs
    and moves the cursor. *)
Lemma add_loop_short bytes : forall count origin s,
  pool_writepos s + length bytes < POOLSIZE ->
  add_loop bytes count origin s =
    set_pool_writepos (pool_writepos s + length bytes)
      (set_rndpool (xor_into (rndpool s) (pool_writepos s) bytes) s).
Proof.
  induction bytes as [|b rest IH]; intros count origin s Hfit.
  - destruct s. cbn [length]. rewrite Nat.add_0_r. reflexivity.
  - cbn [add_loop length] in *.
    assert (Hw : pool_writepos (xor_byte b s) = S (pool_writepos s)) by reflexivity.
    rewrite (proj2 (Nat.leb_gt POOLSIZE (pool_writepos (xor_byte b s)))) by lia.
    rewrite IH by lia. rewrite Hw.
    replace (pool_writepos s + S (length rest)) with (S (pool_writepos s) + length rest)
      by lia.
    by destruct s.
Qed.

Lemma add_loop_app_short pre : forall rest count origin s,
  pool_writepos s + length pre < POOLSIZE ->
  (0 <= count)%Z -> (count + Z.of_nat (length pre) < 2 ^ 64)%Z ->
  add_loop (pre ++ rest) count origin s =
    add_loop rest (count + Z.of_nat (length pre)) origin
      (set_pool_writepos (pool_writepos s + length pre)
         (set_rndpool (xor_into (rndpool s) (pool_writepos s) pre) s)).
Proof.
  induction pre as [|b pre IH]; intros rest count origin s Hfit Hc Hb.
  - cbn [app length]. rewrite Z.add_0_r, Nat.add_0_r. f_equal. by destruct s.
  - cbn [app add_loop length] in *.
    assert (Hw : pool_writepos (xor_byte b s) = S (pool_writepos s)) by reflexivity.
    rewrite (proj2 (Nat.leb_gt POOLSIZE (pool_writepos (xor_byte b s)))) by lia.
    rewrite wrap64_small by lia.
    rewrite IH by lia. rewrite Hw.
    replace (pool_writepos s + S (length pre)) with (S (pool_writepos s) + length pre)
      by lia.
    f_equal; try lia; by destruct s.
Qed.

(** X3.  When the bytes added do not reach the end of the pool,
    [add_randomness] XORs them into the pool from the write cursor on,
    advances the cursor by their number and neither mixes the pool nor
    changes [pool_filled], [pool_filled_counter] or [just_mixed]. *)
Theorem add_randomness_below_the_end buffer origin s :
  pool_writepos s + length buffer < POOLSIZE ->
  let s' := add_randomness buffer origin s in
  rndpool s' = xor_into (rndpool s) (pool_writepos s) buffer /\
  pool_writepos s' = pool_writepos s + length buffer /\
  pool_filled s' = pool_filled s /\
  pool_filled_counter s' = pool_filled_counter s /\
  just_mixed s' = just_mixed s /\
  mixrnd (rndstats s') = mixrnd (rndstats s).
Proof.
  intros Hfit. cbv zeta. unfold add_randomness.
  rewrite add_loop_short by exact Hfit.
  repeat split; reflexivity.
Qed.




(** *** One wrap *)

Lemma add_loop_wrap_step b rest count origin x :
  POOLSIZE <= S (pool_writepos x) ->
  add_loop (b :: rest) count origin x =
    add_loop rest (credit_fill origin (wrap64 (count + 1)) (xor_byte b x)).2 origin
      (set_just_mixed (length rest =? 0)
         (bump mixrnd set_mixrnd 1
            (mix_pool RNDPOOL
               (set_pool_writepos 0
                  (credit_fill origin (wrap64 (count + 1)) (xor_byte b x)).1)))).
Proof.
  intros Hle. cbn [add_loop].
  change (pool_writepos (xor_byte b x)) with (S (pool_writepos x)).
  by rewrite (proj2 (Nat.leb_le POOLSIZE (S (pool_writepos x)))) by done.
Qed.

Lemma fill_state_wrapped last d pool x :
  fill_state (set_just_mixed last
                (bump mixrnd set_mixrnd d (mix_pool pool (set_pool_writepos 0 x))))
  = fill_state x.
Proof. by destruct pool. Qed.

Lemma fill_state_moved a b x :
  fill_state (set_pool_writepos a (set_rndpool b x)) = fill_state x.
Proof. reflexivity. Qed.

Lemma fill_state_xor_byte b x : fill_state (xor_byte b x) = fill_state x.
Proof. reflexivity. Qed.

(** What the wrap does to the measure of the fill when it counts. *)
Lemma credit_fill_counts origin count x :
  (origin_value RANDOM_ORIGIN_SLOWPOLL <= origin_value origin)%Z ->
  pool_filled x = false ->
  (0 <= pool_filled_counter x + count < 2 ^ 64)%Z ->
  fill_state (credit_fill origin count x).1
  = (bool_decide (Z.of_nat POOLSIZE <= pool_filled_counter x + count)%Z,
     (pool_filled_counter x + count)%Z).
Proof.
  intros Ho Hf Hc. unfold credit_fill.
  rewrite (proj2 (counts_towards_fill_spec origin x)) by done.
  rewrite wrap64_small by done. cbn [fst].
  change (pool_filled_counter (set_pool_filled_counter
            (pool_filled_counter x + count)%Z x))
    with (pool_filled_counter x + count)%Z.
  destruct (Z.leb_spec (Z.of_nat POOLSIZE) (pool_filled_counter x + count)).
  - by rewrite bool_decide_eq_true_2 by done.
  - rewrite bool_decide_eq_false_2 by lia. unfold fill_state.
    change (pool_filled (set_pool_filled_counter _ x)) with (pool_filled x).
    by rewrite Hf.
Qed.

Lemma add_loop_one_wrap buffer origin s :
  pool_writepos s < POOLSIZE ->
  POOLSIZE <= pool_writepos s + length buffer < 2 * POOLSIZE ->
  (origin_value RANDOM_ORIGIN_SLOWPOLL <= origin_value origin)%Z ->
  pool_filled s = false ->
  (0 <= pool_filled_counter s)%Z ->
  (pool_filled_counter s + Z.of_nat POOLSIZE < 2 ^ 64)%Z ->
  fill_state (add_loop buffer 0 origin s)
  = (bool_decide (Z.of_nat POOLSIZE
                  <= pool_filled_counter s + Z.of_nat (POOLSIZE - pool_writepos s))%Z,
     (pool_filled_counter s + Z.of_nat (POOLSIZE - pool_writepos s))%Z).
Proof.
  intros Hw Hreach Horigin Hnot Hc0 Hc1.
  set (n := POOLSIZE - pool_writepos s - 1).
  rewrite <- (take_drop n buffer).
  assert (Htake : length (take n buffer) = n) by (rewrite length_take; lia).
  destruct (drop n buffer) as [|b rest] eqn:Hdrop.
  { apply (f_equal length) in Hdrop. rewrite length_drop in Hdrop. cbn in Hdrop. lia. }
  assert (Hrest : length rest < POOLSIZE).
  { apply (f_equal length) in Hdrop. rewrite length_drop in Hdrop. cbn in Hdrop. lia. }
  rewrite add_loop_app_short by (rewrite ?Htake; pool_consts; lia).
  rewrite Htake, Z.add_0_l.
  rewrite add_loop_wrap_step by (cbn [pool_writepos set_pool_writepos]; lia).
  rewrite add_loop_short by (rewrite wrap_writepos; lia).
  rewrite fill_state_moved, fill_state_wrapped.
  rewrite wrap64_small by (pool_consts; lia).
  rewrite credit_fill_counts; [| done | exact Hnot |].
  - change (pool_filled_counter (xor_byte b _)) with (pool_filled_counter s).
    by replace (Z.of_nat n + 1)%Z with (Z.of_nat (POOLSIZE - pool_writepos s)) by lia.
  - change (pool_filled_counter (xor_byte b _)) with (pool_filled_counter s).
    pool_consts. lia.
Qed.

(** X5.  When a buffer from a reliable origin ([SLOWPOLL] or above) makes
    the write cursor wrap exactly once while the pool is not yet filled,
    [pool_filled_counter] grows by the number of bytes of this buffer
    that were needed to reach the end of the pool, which is [POOLSIZE]
    less the write cursor: not by [POOLSIZE] and not by the length of
    the buffer.  [pool_filled] becomes true exactly when the counter
    reaches [POOLSIZE]. *)
Theorem wrap_credits_the_bytes_of_this_buffer buffer origin s :
  pool_writepos s < POOLSIZE ->
  POOLSIZE <= pool_writepos s + length buffer < 2 * POOLSIZE ->
  (origin_value RANDOM_ORIGIN_SLOWPOLL <= origin_value origin)%Z ->
  pool_filled s = false ->
  (0 <= pool_filled_counter s)%Z ->
  (pool_filled_counter s + Z.of_nat POOLSIZE < 2 ^ 64)%Z ->
  let s' := add_randomness buffer origin s in
  let credit := Z.of_nat (POOLSIZE - pool_writepos s) in
  pool_filled_counter s' = (pool_filled_counter s + credit)%Z /\
  pool_filled s' = bool_decide (Z.of_nat POOLSIZE <= pool_filled_counter s + credit)%Z.
Proof.
  intros Hw Hreach Horigin Hnot Hc0 Hc1. cbv zeta.
  pose proof (add_loop_one_wrap buffer origin
                (bump naddbytes set_naddbytes 1
                   (bump addbytes set_addbytes (Z.of_nat (length buffer)) s))
                Hw Hreach Horigin Hnot Hc0 Hc1) as Hfill.
  unfold fill_state in Hfill. unfold add_randomness.
  split; [exact (f_equal snd Hfill) | exact (f_equal fst Hfill)].
Qed.

End AddMore.

(** ** What [read_pool] has done when it returns *)

Section HoareRules.
Context {A B : Type}.

Lemma hoare_ret (P : rng_state -> Prop) (a : A) : hoare P (ret a) (fun _ => P).
Proof. intros s a' s' HP Hr. by injection Hr as <- <-. Qed.

Lemma hoare_bind P (m : M A) Q (k : A -> M B) R :
  hoare P m Q -> (forall a, hoare (Q a) (k a) R) -> hoare P (bind m k) R.
Proof.
  intros Hm Hk s b s' HP Hr. apply bind_Val in Hr as (a & s1 & Hr1 & Hr2).
  eapply Hk; [|exact Hr2]. by eapply Hm.
Qed.

Lemma hoare_always (I : rng_state -> Prop) (m : M A) :
  always I m -> hoare I m (fun _ => I).
Proof. intros Hm s a s' HI Hr. specialize (Hm s HI). by rewrite Hr in Hm. Qed.

Lemma hoare_weaken (P P' : rng_state -> Prop) (m : M A) (Q Q' : A -> rng_state -> Prop) :
  hoare P m Q -> (forall s, P' s -> P s) -> (forall a s, Q a s -> Q' a s) ->
  hoare P' m Q'.
Proof. intros Hm HP HQ s a s' HP' Hr. eapply HQ, Hm; [by apply HP | done]. Qed.

End HoareRules.

Section ReadPoolReturns.
Context `{Sha1} (E : environment).

Lemma fork_check_returns s :
  exists s1, fork_check E s = (Val (env_getpid E (tick s)), s1).
Proof.
  unfold fork_check. rewrite bind_ask, bind_modify, bind_gets.
  destruct (negb _); rewrite ?bind_modify, ?bind_ret; eexists; reflexivity.
Qed.

(** A pass that starts with more than [POOLSIZE] to deliver ends the
    process. *)
Lemma read_pool_too_many fuel buffer p length level s :
  (Z.of_nat POOLSIZE < length)%Z ->
  (read_pool E fuel buffer p length level s).1 = Fatal Bug_too_many_random_bits.
Proof.
  intros Hlen. rewrite read_pool_oversize by done.
  by destruct (fork_check_returns s) as [s1 ->].
Qed.

Lemma deliver_buffer_etc k buffer p length s :
  let d := deliver k buffer p length s in
  d = (d.1.1.1, d.1.1.2, d.1.2, d.2).
Proof. cbv zeta. by destruct (deliver k buffer p length s) as [[[? ?] ?] ?]. Qed.

(** When [read_pool] returns it has gone through its blocks once: a
    second pass would have ended the process. *)
Lemma read_pool_returns fuel buffer p length level s out s' :
  (0 <= length)%Z ->
  read_pool E fuel buffer p length level s = (Val out, s') ->
  (length <= Z.of_nat POOLSIZE)%Z /\
  exists s1 s4 s5 s9,
    fork_check E s = (Val (env_getpid E (tick s)), s1) /\
    read_pool_seeding E length level s1 = (Val tt, s4) /\
    fill_pool E fuel s4 = (Val tt, s5) /\
    read_pool_stirring E s5 = (Val tt, s9) /\
    out = (deliver (Z.to_nat length) buffer p length s9).1.1.1 /\
    s' = delivered buffer p length s9.
Proof.
  intros Hlen Hrun.
  destruct (fork_check_returns s) as [s1 Hfork].
  assert (Hbody : exists my_pid2 s1,
    fork_check E s = (Val my_pid2, s1) /\
    (if (length >? Z.of_nat POOLSIZE)%Z then die Bug_too_many_random_bits else
     run seed_on_demand E;
     run initial_extra_seeding E length level;
     run balance_topup E length level;
     run fill_pool E fuel;
     run do_fast_random_poll E;
     run add_own_pid;
     run mix_if_needed;
     run modify create_keypool;
     run modify mix_both;
     do out <- (fun s => let '(buffer, p, length, s) :=
                           deliver (Z.to_nat length) buffer p length s in
                         (Val (buffer, p, length), s));
     run modify clamp_balance;
     run modify clear_keypool;
     do pid <- ask E env_getpid;
     if negb (pid =? my_pid2)%Z then
       do x <- ask E env_getpid;
       run modify (fun s =>
             let s := add_randomness (pid_bytes x) RANDOM_ORIGIN_INIT s in
             let s := set_just_mixed false s in
             set_my_pid x s);
       match fuel with
       | 0 => out_of_fuel
       | S fuel' => read_pool E fuel' out.1.1 out.1.2 out.2 level
       end
     else ret out.1.1) s1 = (Val out, s')).
  { destruct fuel; cbn [read_pool] in Hrun;
      apply bind_Val in Hrun as (pid2 & s1' & Hf & Hrun); eauto. }
  destruct Hbody as (pid2 & s1' & Hf & Hbody).
  rewrite Hfork in Hf. injection Hf as <- <-.
  destruct (Z.gtb_spec length (Z.of_nat POOLSIZE)) as [Hover|Hfits]; [discriminate Hbody|].
  split; [lia|].
  apply bind_Val in Hbody as ([] & s2 & Hm2 & Hbody).
  apply bind_Val in Hbody as ([] & s3 & Hm3 & Hbody).
  apply bind_Val in Hbody as ([] & s4 & Hm4 & Hbody).
  apply bind_Val in Hbody as ([] & s5 & Hm5 & Hbody).
  apply bind_Val in Hbody as ([] & s6 & Hm6 & Hbody).
  apply bind_Val in Hbody as ([] & s7 & Hm7 & Hbody).
  apply bind_Val in Hbody as ([] & s8 & Hm8 & Hbody).
  apply bind_Val in Hbody as ([] & s8' & Hm8' & Hbody).
  apply bind_Val in Hbody as ([] & s9 & Hm9 & Hbody).
  apply bind_Val in Hbody as (d & s10 & Hd & Hbody).
  exists s1, s4, s5, s9.
  split; [done|]. split.
  { unfold read_pool_seeding, bind. by rewrite Hm2, Hm3, Hm4. }
  split; [done|]. split.
  { unfold read_pool_stirring, bind. by rewrite Hm6, Hm7, Hm8, Hm8', Hm9. }
  pose proof (deliver_length (Z.to_nat length) buffer p s9) as Hdl.
  rewrite Z2Nat.id in Hdl by done.
  specialize (Hdl ltac:(pool_consts; lia)).
  unfold delivered.
  destruct (deliver (Z.to_nat length) buffer p length s9) as [[[b' p'] l'] s9'].
  injection Hd as <- <-. cbn [fst snd] in *.
  rewrite !bind_modify, bind_ask in Hbody.
  destruct (negb _).
  - exfalso. rewrite bind_ask, bind_modify in Hbody.
    destruct fuel; [discriminate Hbody|].
    pose proof (read_pool_too_many fuel b' p' l' level) as Hdie.
    rewrite Hdl in Hdie.
    match type of Hbody with ?r = _ =>
      assert (Hr : r.1 = Fatal Bug_too_many_random_bits)
        by (rewrite Hdl; apply Hdie; pool_consts; lia)
    end.
    rewrite Hbody in Hr. discriminate Hr.
  - injection Hbody as <- <-. done.
Qed.

End ReadPoolReturns.

(** ** What an extraction leaves alone *)

Create HintDb outside discriminated.

(** Settling a primitive step for an invariant [I], given what the
    operations on the pool do to it. *)
Ltac inv_leaf I Hadd Heach Hmix Hbump Hcreate :=
  intros ? ?; cbv beta zeta;
  repeat match goal with
    | |- I (if ?c then _ else _) => destruct c
    | |- I (add_randomness _ _ _) => apply Hadd
    | |- I (add_each _ _ _) => apply Heach
    | |- I (mix_pool _ _) => apply Hmix
    | |- I (bump _ _ _ _) => apply Hbump
    | |- I (create_keypool _) => apply Hcreate
    | |- I (mix_both _) => unfold mix_both
    | |- I (clamp_balance _) => unfold clamp_balance
    | |- I (clear_keypool _) => unfold clear_keypool
    | |- I (tick_step _) => unfold tick_step
    | |- I (?f ?v ?s) =>
        cut (I s);
        [ generalize s; intros ? ?;
          first [ match goal with Hc : I _ |- ?G => exact (@id G Hc) end | done ]
        | ]
    end; try assumption.

Section Outside.
Context `{Sha1} (E : environment).
Implicit Type v : bool * nat * option string * bool * bool * bool * bool * list (nat * nat).

Lemma outside_add_randomness v b o s :
  outside_is v s -> outside_is v (add_randomness b o s).
Proof.
  unfold outside_is, outside. intros <-.
  pose proof (add_randomness_bystanders b o s) as Hb.
  unfold bystanders in Hb. injection Hb. intros. congruence.
Qed.

Lemma outside_add_each v c o s :
  outside_is v s -> outside_is v (add_each c o s).
Proof.
  unfold outside_is, outside. intros <-.
  pose proof (add_each_bystanders c o s) as Hb.
  unfold bystanders in Hb. injection Hb. intros. congruence.
Qed.

Lemma outside_mix_pool v p s : outside_is v s -> outside_is v (mix_pool p s).
Proof. intros Hs. by destruct p. Qed.

Lemma outside_bump v get set d s : outside_is v s -> outside_is v (bump get set d s).
Proof. intros Hs. exact Hs. Qed.

Lemma outside_create_keypool v s : outside_is v s -> outside_is v (create_keypool s).
Proof. intros Hs. exact Hs. Qed.

Ltac outside_leaf v :=
  inv_leaf (outside_is v) (outside_add_randomness v) (outside_add_each v)
    (outside_mix_pool v) (outside_bump v) (outside_create_keypool v).

Lemma outside_read_random_source v origin length level :
  always (outside_is v) (read_random_source E origin length level).
Proof. unfold read_random_source. always_go ltac:(outside_leaf v) ltac:(auto with outside). Qed.
#[local] Hint Resolve outside_read_random_source : outside.

Lemma outside_random_poll v :
  always (outside_is v) (random_poll E).
Proof. unfold random_poll. always_go ltac:(outside_leaf v) ltac:(auto with outside). Qed.
#[local] Hint Resolve outside_random_poll : outside.

Lemma outside_do_fast_random_poll v :
  always (outside_is v) (do_fast_random_poll E).
Proof. unfold do_fast_random_poll. always_go ltac:(outside_leaf v) ltac:(auto with outside). Qed.
#[local] Hint Resolve outside_do_fast_random_poll : outside.

Lemma outside_read_seed_file v :
  always (outside_is v) (read_seed_file E).
Proof. unfold read_seed_file. always_go ltac:(outside_leaf v) ltac:(auto with outside). Qed.
#[local] Hint Resolve outside_read_seed_file : outside.

Lemma outside_fork_check v :
  always (outside_is v) (fork_check E).
Proof. unfold fork_check. always_go ltac:(outside_leaf v) ltac:(auto with outside). Qed.
#[local] Hint Resolve outside_fork_check : outside.

Lemma outside_seed_on_demand v :
  always (outside_is v) (seed_on_demand E).
Proof. unfold seed_on_demand. always_go ltac:(outside_leaf v) ltac:(auto with outside). Qed.
#[local] Hint Resolve outside_seed_on_demand : outside.

Lemma outside_initial_extra_seeding v length level :
  always (outside_is v) (initial_extra_seeding E length level).
Proof. unfold initial_extra_seeding. always_go ltac:(outside_leaf v) ltac:(auto with outside). Qed.
#[local] Hint Resolve outside_initial_extra_seeding : outside.

Lemma outside_balance_topup v length level :
  always (outside_is v) (balance_topup E length level).
Proof. unfold balance_topup. always_go ltac:(outside_leaf v) ltac:(auto with outside). Qed.
#[local] Hint Resolve outside_balance_topup : outside.

Lemma outside_fill_pool v fuel :
  always (outside_is v) (fill_pool E fuel).
Proof. induction fuel as [|fuel IH]; cbn [fill_pool]; always_go ltac:(outside_leaf v) ltac:(auto with outside). Qed.
#[local] Hint Resolve outside_fill_pool : outside.

Lemma outside_add_own_pid v :
  always (outside_is v) (add_own_pid).
Proof. unfold add_own_pid. always_go ltac:(outside_leaf v) ltac:(auto with outside). Qed.
#[local] Hint Resolve outside_add_own_pid : outside.

Lemma outside_mix_if_needed v :
  always (outside_is v) (mix_if_needed).
Proof. unfold mix_if_needed. always_go ltac:(outside_leaf v) ltac:(auto with outside). Qed.
#[local] Hint Resolve outside_mix_if_needed : outside.

Lemma outside_read_pool_seeding v length level :
  always (outside_is v) (read_pool_seeding E length level).
Proof. unfold read_pool_seeding. always_go ltac:(outside_leaf v) ltac:(auto with outside). Qed.
#[local] Hint Resolve outside_read_pool_seeding : outside.

Lemma outside_read_pool_stirring v :
  always (outside_is v) (read_pool_stirring E).
Proof. unfold read_pool_stirring. always_go ltac:(outside_leaf v) ltac:(auto with outside). Qed.
#[local] Hint Resolve outside_read_pool_stirring : outside.


(** *** The loop that delivers *)

Lemma deliver_buffer k : forall buffer p len s,
  length (deliver k buffer p len s).1.1.1 = length buffer /\
  forall j, ~ (p <= j < p + k) ->
    (deliver k buffer p len s).1.1.1 !! j = buffer !! j.
Proof.
  induction k as [|k IH]; intros buffer p len s; [done|].
  cbn [deliver].
  match goal with |- context [deliver k ?b ?q ?l ?t] =>
    destruct (IH b q l t) as [IHl IHj] end.
  split.
  - rewrite IHl. apply length_poke.
  - intros j Hj. rewrite IHj by lia. apply list_lookup_insert_ne. lia.
Qed.

Lemma deliver_readpos k : forall buffer p length s,
  pool_readpos s < POOLSIZE ->
  pool_readpos (deliver k buffer p length s).2 = (pool_readpos s + k) mod POOLSIZE.
Proof.
  induction k as [|k IH]; intros buffer p len s Hr.
  - cbn [deliver snd]. rewrite Nat.add_0_r. by rewrite Nat.mod_small.
  - cbn [deliver].
    set (s1 := set_pool_readpos (S (pool_readpos s)) s).
    assert (Hs1 : pool_readpos s1 = S (pool_readpos s)) by reflexivity.
    clearbody s1.
    destruct (Nat.leb_spec POOLSIZE (pool_readpos s1)) as [Hle|Hgt].
    + rewrite IH by (cbn; pool_consts; lia).
      change (pool_readpos (set_pool_balance _ (set_pool_readpos 0 s1))) with 0.
      replace (pool_readpos s + S k) with (k + 1 * POOLSIZE) by lia.
      by rewrite Nat.Div0.mod_add.
    + rewrite IH by (cbn; lia).
      change (pool_readpos (set_pool_balance _ s1)) with (pool_readpos s1).
      f_equal. lia.
Qed.

Lemma deliver_balance k : forall buffer p length s,
  pool_balance (deliver k buffer p length s).2 = (pool_balance s - Z.of_nat k)%Z.
Proof.
  induction k as [|k IH]; intros buffer p len s.
  - cbn [deliver snd]. lia.
  - cbn [deliver]. rewrite IH.
    match goal with |- context [if ?c then _ else _] => destruct c end;
      cbn [pool_balance set_pool_balance set_pool_readpos]; lia.
Qed.

Lemma delivered_readpos buffer p length s :
  pool_readpos (delivered buffer p length s)
    = pool_readpos (deliver (Z.to_nat length) buffer p length s).2.
Proof. unfold delivered, clamp_balance. by case_match. Qed.

Lemma delivered_balance buffer p length s :
  (0 <= pool_balance (delivered buffer p length s))%Z.
Proof.
  unfold delivered, clamp_balance.
  destruct (Z.ltb_spec (pool_balance (deliver (Z.to_nat length) buffer p length s).2) 0);
    [done|].
  by cbn.
Qed.

(** X9.  A request to [read_pool] for more than [POOLSIZE] bytes ends in
    the fatal error of the size check, whatever the level and the state,
    also when a fork has just been detected. *)
Theorem read_pool_rejects_oversize fuel buffer p length level s :
  (Z.of_nat POOLSIZE < length)%Z ->
  (read_pool E fuel buffer p length level s).1 = Fatal Bug_too_many_random_bits.
Proof. apply read_pool_too_many. Qed.

Lemma read_pool_frame fuel buffer p len level s out s' :
  (0 <= len)%Z ->
  read_pool E fuel buffer p len level s = (Val out, s') ->
  length out = length buffer /\
  forall j, ~ (p <= j < p + Z.to_nat len) -> out !! j = buffer !! j.
Proof.
  intros Hlen Hrun.
  destruct (read_pool_returns E fuel buffer p len level s out s' Hlen Hrun)
    as (_ & s1 & s4 & s5 & s9 & _ & _ & _ & _ & -> & _).
  apply deliver_buffer.
Qed.

(** X11.  When [read_pool] returns, the caller's memory has the size it had
    and differs from what it was at most in the [len] bytes from the
    buffer pointer [p] on. *)
Theorem read_pool_writes_only_what_was_asked fuel buffer p len level s out s' :
  (0 <= len)%Z ->
  read_pool E fuel buffer p len level s = (Val out, s') ->
  length out = length buffer /\
  forall j, ~ (p <= j < p + Z.to_nat len) -> out !! j = buffer !! j.
Proof. apply read_pool_frame. Qed.

(** X12.  When [read_pool] returns from a read cursor inside the pool,
    [pool_readpos] is the old cursor plus the length, modulo [POOLSIZE]. *)
Theorem read_pool_moves_the_read_cursor fuel buffer p length level s out s' :
  (0 <= length)%Z ->
  pool_readpos s < POOLSIZE ->
  read_pool E fuel buffer p length level s = (Val out, s') ->
  pool_readpos s' = (pool_readpos s + Z.to_nat length) mod POOLSIZE.
Proof.
  intros Hlen Hr Hrun.
  destruct (read_pool_returns E fuel buffer p length level s out s' Hlen Hrun)
    as (_ & s1 & s4 & s5 & s9 & Hfork & Hseed & Hfill & Hstir & _ & ->).
  pose proof (outside_fork_check (outside s) s eq_refl) as H1.
  rewrite Hfork in H1.
  pose proof (outside_read_pool_seeding (outside s) length level s1 H1) as H4.
  rewrite Hseed in H4.
  pose proof (outside_fill_pool (outside s) fuel s4 H4) as H5.
  rewrite Hfill in H5.
  pose proof (outside_read_pool_stirring (outside s) s5 H5) as H9.
  rewrite Hstir in H9. cbn [snd] in H9.
  assert (Hr9 : pool_readpos s9 = pool_readpos s).
  { unfold outside_is, outside in H9. injection H9. intros. congruence. }
  rewrite delivered_readpos, deliver_readpos by lia. by rewrite Hr9.
Qed.

(** X13.  When [read_pool] returns, [pool_balance] is not negative. *)
Theorem read_pool_leaves_no_negative_balance fuel buffer p length level s out s' :
  (0 <= length)%Z ->
  read_pool E fuel buffer p length level s = (Val out, s') ->
  (0 <= pool_balance s')%Z.
Proof.
  intros Hlen Hrun.
  destruct (read_pool_returns E fuel buffer p length level s out s' Hlen Hrun)
    as (_ & s1 & s4 & s5 & s9 & _ & _ & _ & _ & _ & ->).
  apply delivered_balance.
Qed.

End Outside.

(** ** The pool is filled before it is read *)

Create HintDb filled discriminated.

Section Filled.
Context `{Sha1} (E : environment).

Lemma add_loop_filled bytes : forall count origin s,
  filled s -> filled (add_loop bytes count origin s).
Proof.
  induction bytes as [|b rest IH]; intros count origin s Hs; [done|].
  cbn [add_loop].
  assert (Hx : filled (xor_byte b s)) by exact Hs.
  set (x := xor_byte b s) in *. clearbody x.
  case_match; apply IH; [|done].
  unfold credit_fill, counts_towards_fill. rewrite Hx, andb_false_r.
  cbn [fst]. by destruct x.
Qed.

Lemma filled_add_randomness b o s : filled s -> filled (add_randomness b o s).
Proof. intros Hs. unfold add_randomness. by apply add_loop_filled. Qed.

Lemma filled_add_each c o s : filled s -> filled (add_each c o s).
Proof.
  revert s. induction c as [|b c IH]; intros s Hs; [done|].
  unfold add_each. cbn [foldl]. apply IH. by apply filled_add_randomness.
Qed.

Lemma filled_mix_pool p s : filled s -> filled (mix_pool p s).
Proof. intros Hs. by destruct p. Qed.

Lemma filled_bump get set d s : filled s -> filled (bump get set d s).
Proof. intros Hs. exact Hs. Qed.

Lemma filled_create_keypool s : filled s -> filled (create_keypool s).
Proof. intros Hs. exact Hs. Qed.

Lemma deliver_filled k : forall buffer p length s,
  pool_filled (deliver k buffer p length s).2 = pool_filled s.
Proof.
  induction k as [|k IH]; intros buffer p length s; [done|].
  cbn [deliver]. rewrite IH. by case_match.
Qed.

Lemma filled_deliver k buffer p length s :
  filled s -> filled (deliver k buffer p length s).2.
Proof. unfold filled. by rewrite deliver_filled. Qed.

Ltac filled_leaf :=
  inv_leaf filled filled_add_randomness filled_add_each filled_mix_pool
    filled_bump filled_create_keypool.

Lemma filled_read_random_source origin length level :
  always filled (read_random_source E origin length level).
Proof. unfold read_random_source. always_go ltac:(filled_leaf) ltac:(auto with filled). Qed.
#[local] Hint Resolve filled_read_random_source : filled.

Lemma filled_random_poll :
  always filled (random_poll E).
Proof. unfold random_poll. always_go ltac:(filled_leaf) ltac:(auto with filled). Qed.
#[local] Hint Resolve filled_random_poll : filled.

Lemma filled_do_fast_random_poll :
  always filled (do_fast_random_poll E).
Proof. unfold do_fast_random_poll. always_go ltac:(filled_leaf) ltac:(auto with filled). Qed.
#[local] Hint Resolve filled_do_fast_random_poll : filled.

Lemma filled_read_seed_file :
  always filled (read_seed_file E).
Proof. unfold read_seed_file. always_go ltac:(filled_leaf) ltac:(auto with filled). Qed.
#[local] Hint Resolve filled_read_seed_file : filled.

Lemma filled_fork_check :
  always filled (fork_check E).
Proof. unfold fork_check. always_go ltac:(filled_leaf) ltac:(auto with filled). Qed.
#[local] Hint Resolve filled_fork_check : filled.

Lemma filled_seed_on_demand :
  always filled (seed_on_demand E).
Proof. unfold seed_on_demand. always_go ltac:(filled_leaf) ltac:(auto with filled). Qed.
#[local] Hint Resolve filled_seed_on_demand : filled.

Lemma filled_initial_extra_seeding length level :
  always filled (initial_extra_seeding E length level).
Proof. unfold initial_extra_seeding. always_go ltac:(filled_leaf) ltac:(auto with filled). Qed.
#[local] Hint Resolve filled_initial_extra_seeding : filled.

Lemma filled_balance_topup length level :
  always filled (balance_topup E length level).
Proof. unfold balance_topup. always_go ltac:(filled_leaf) ltac:(auto with filled). Qed.
#[local] Hint Resolve filled_balance_topup : filled.

Lemma filled_fill_pool fuel :
  always filled (fill_pool E fuel).
Proof. induction fuel as [|fuel IH]; cbn [fill_pool]; always_go ltac:(filled_leaf) ltac:(auto with filled). Qed.
#[local] Hint Resolve filled_fill_pool : filled.

Lemma filled_add_own_pid :
  always filled (add_own_pid).
Proof. unfold add_own_pid. always_go ltac:(filled_leaf) ltac:(auto with filled). Qed.
#[local] Hint Resolve filled_add_own_pid : filled.

Lemma filled_mix_if_needed :
  always filled (mix_if_needed).
Proof. unfold mix_if_needed. always_go ltac:(filled_leaf) ltac:(auto with filled). Qed.
#[local] Hint Resolve filled_mix_if_needed : filled.

Lemma filled_read_pool_seeding length level :
  always filled (read_pool_seeding E length level).
Proof. unfold read_pool_seeding. always_go ltac:(filled_leaf) ltac:(auto with filled). Qed.
#[local] Hint Resolve filled_read_pool_seeding : filled.

Lemma filled_read_pool_stirring :
  always filled (read_pool_stirring E).
Proof. unfold read_pool_stirring. always_go ltac:(filled_leaf) ltac:(auto with filled). Qed.
#[local] Hint Resolve filled_read_pool_stirring : filled.

Lemma filled_read_pool fuel buffer p length level :
  always filled (read_pool E fuel buffer p length level).
Proof.
  revert buffer p length.
  induction fuel as [|fuel IH]; intros buffer p length; cbn [read_pool];
    unfold add_own_pid, mix_if_needed.
  all: always_go ltac:(filled_leaf) ltac:(auto with filled).
  all: try (intros s Hs;
            pose proof (filled_deliver (Z.to_nat length) buffer p length s Hs) as Hd;
            destruct (deliver (Z.to_nat length) buffer p length s) as [[[? ?] ?] ?];
            exact Hd).
Qed.
#[local] Hint Resolve filled_read_pool : filled.

Lemma filled_lock_pool :
  always filled (lock_pool).
Proof. unfold lock_pool, locked. always_go ltac:(filled_leaf) ltac:(auto with filled). Qed.
#[local] Hint Resolve filled_lock_pool : filled.

Lemma filled_unlock_pool :
  always filled (unlock_pool).
Proof. unfold unlock_pool, released. always_go ltac:(filled_leaf) ltac:(auto with filled). Qed.
#[local] Hint Resolve filled_unlock_pool : filled.

Lemma filled_initialize_basics :
  always filled (initialize_basics).
Proof. unfold initialize_basics. always_go ltac:(filled_leaf) ltac:(auto with filled). Qed.
#[local] Hint Resolve filled_initialize_basics : filled.

Lemma filled_initialize :
  always filled (initialize E).
Proof. unfold initialize. always_go ltac:(filled_leaf) ltac:(auto with filled). Qed.
#[local] Hint Resolve filled_initialize : filled.

Lemma filled_enable_quick_gen :
  always filled (_gcry_rngcsprng_enable_quick_gen).
Proof. unfold _gcry_rngcsprng_enable_quick_gen. always_go ltac:(filled_leaf) ltac:(auto with filled). Qed.
#[local] Hint Resolve filled_enable_quick_gen : filled.

Lemma filled_is_faked :
  always filled (_gcry_rngcsprng_is_faked E).
Proof. unfold _gcry_rngcsprng_is_faked. always_go ltac:(filled_leaf) ltac:(auto with filled). Qed.
#[local] Hint Resolve filled_is_faked : filled.

Lemma filled_add_bytes_loop rounds bufptr :
  always filled (add_bytes_loop rounds bufptr).
Proof. revert bufptr. induction rounds as [|rounds IH]; intros bufptr; cbn [add_bytes_loop]; always_go ltac:(filled_leaf) ltac:(auto with filled). Qed.
#[local] Hint Resolve filled_add_bytes_loop : filled.

Lemma filled_add_bytes buf quality :
  always filled (_gcry_rngcsprng_add_bytes buf quality).
Proof. unfold _gcry_rngcsprng_add_bytes. always_go ltac:(filled_leaf) ltac:(auto with filled). Qed.
#[local] Hint Resolve filled_add_bytes : filled.

Lemma filled_randomize_loop rounds fuel buffer p length level :
  always filled (randomize_loop E rounds fuel buffer p length level).
Proof. revert buffer p length. induction rounds as [|rounds IH]; intros buffer p length; cbn [randomize_loop]; always_go ltac:(filled_leaf) ltac:(auto with filled). Qed.
#[local] Hint Resolve filled_randomize_loop : filled.

Lemma filled_randomize fuel buffer length level :
  always filled (_gcry_rngcsprng_randomize E fuel buffer length level).
Proof. unfold _gcry_rngcsprng_randomize. always_go ltac:(filled_leaf) ltac:(auto with filled). Qed.
#[local] Hint Resolve filled_randomize : filled.

Lemma filled_set_seed_file name :
  always filled (_gcry_rngcsprng_set_seed_file name).
Proof. unfold _gcry_rngcsprng_set_seed_file. always_go ltac:(filled_leaf) ltac:(auto with filled). Qed.
#[local] Hint Resolve filled_set_seed_file : filled.

Lemma filled_update_seed_file :
  always filled (_gcry_rngcsprng_update_seed_file).
Proof. unfold _gcry_rngcsprng_update_seed_file. always_go ltac:(filled_leaf) ltac:(auto with filled). Qed.
#[local] Hint Resolve filled_update_seed_file : filled.

Lemma filled_fast_poll :
  always filled (_gcry_rngcsprng_fast_poll E).
Proof. unfold _gcry_rngcsprng_fast_poll. always_go ltac:(filled_leaf) ltac:(auto with filled). Qed.
#[local] Hint Resolve filled_fast_poll : filled.

Lemma filled_run_call fuel c :
  c <> Call_close_fds -> always filled (run_call E fuel c).
Proof.
  intros Hc. destruct c; [ | done | ..]; cbn [run_call];
    unfold ignore, _gcry_rngcsprng_initialize;
    always_go ltac:(filled_leaf) ltac:(auto with filled).
Qed.

(** The loop that fills the pool ends with the pool filled. *)
Lemma fill_pool_returns fuel : forall s s',
  fill_pool E fuel s = (Val tt, s') -> filled s'.
Proof.
  induction fuel as [|fuel IH]; intros s s' Hrun; cbn [fill_pool] in Hrun;
    rewrite bind_gets in Hrun; destruct (pool_filled s) eqn:Hf.
  - by injection Hrun as <-.
  - discriminate Hrun.
  - by injection Hrun as <-.
  - apply bind_Val in Hrun as ([] & s1 & _ & Hrun). by eapply IH.
Qed.

(** X10.  Whenever [read_pool] returns, [pool_filled] is set: nothing is
    delivered from a pool that was never filled. *)
Theorem read_pool_returns_with_a_filled_pool fuel buffer p length level s out s' :
  (0 <= length)%Z ->
  read_pool E fuel buffer p length level s = (Val out, s') ->
  pool_filled s' = true.
Proof.
  intros Hlen Hrun.
  destruct (read_pool_returns E fuel buffer p length level s out s' Hlen Hrun)
    as (_ & s1 & s4 & s5 & s9 & _ & _ & Hfill & Hstir & _ & ->).
  apply fill_pool_returns in Hfill.
  pose proof (filled_read_pool_stirring s5 Hfill) as H9. rewrite Hstir in H9.
  unfold delivered, clamp_balance.
  pose proof (filled_deliver (Z.to_nat length) buffer p length s9 H9) as Hd.
  set (d := (deliver _ _ _ _ _).2) in *. clearbody d.
  by case_match.
Qed.

(** X24.  Of the public functions only [_gcry_rngcsprng_close_fds] takes
    the mark of a filled pool away: after any other call on a filled
    pool [pool_filled] is still set, after that one it is cleared. *)
Theorem only_close_fds_unfills_the_pool fuel c s :
  pool_filled s = true ->
  pool_filled (run_call E fuel c s).2 =
    match c with Call_close_fds => false | _ => true end.
Proof.
  intros Hs. destruct c; try (by apply filled_run_call). reflexivity.
Qed.

End Filled.

(** ** Unreliable origins and the levels *)

Section Unreliable.
Context `{Sha1} (E : environment).

Lemma fill_is_add_randomness v origin b s :
  unreliable origin -> fill_is v s -> fill_is v (add_randomness b origin s).
Proof. unfold fill_is. intros Ho <-. by apply add_randomness_unreliable. Qed.

Lemma fill_is_add_each v origin c s :
  unreliable origin -> fill_is v s -> fill_is v (add_each c origin s).
Proof. unfold fill_is. intros Ho <-. by apply add_each_unreliable. Qed.

Lemma fill_is_mix_pool v p s : fill_is v s -> fill_is v (mix_pool p s).
Proof. intros Hs. by destruct p. Qed.

Lemma fill_is_bump v get set d s : fill_is v s -> fill_is v (bump get set d s).
Proof. intros Hs. exact Hs. Qed.

Lemma fill_is_create_keypool v s : fill_is v s -> fill_is v (create_keypool s).
Proof. intros Hs. exact Hs. Qed.

Lemma unreliable_FASTPOLL : unreliable RANDOM_ORIGIN_FASTPOLL.
Proof. reflexivity. Qed.

Lemma unreliable_EXTERNAL : unreliable RANDOM_ORIGIN_EXTERNAL.
Proof. reflexivity. Qed.

Ltac fast_leaf v :=
  inv_leaf (fill_is v)
    (fun b => fill_is_add_randomness v RANDOM_ORIGIN_FASTPOLL b)
    (fun c => fill_is_add_each v RANDOM_ORIGIN_FASTPOLL c)
    (fill_is_mix_pool v) (fill_is_bump v) (fill_is_create_keypool v);
  try apply unreliable_FASTPOLL.

Lemma fill_is_do_fast_random_poll v : always (fill_is v) (do_fast_random_poll E).
Proof. unfold do_fast_random_poll. always_go ltac:(fast_leaf v) idtac. Qed.

(** X7.  [_gcry_rngcsprng_fast_poll] never changes [pool_filled] or
    [pool_filled_counter]: what a fast poll adds does not count towards
    the initial fill of the pool. *)
Theorem fast_poll_never_fills s :
  let s' := (_gcry_rngcsprng_fast_poll E s).2 in
  pool_filled s' = pool_filled s /\ pool_filled_counter s' = pool_filled_counter s.
Proof.
  assert (Ha : always (fill_is (fill_state s)) (_gcry_rngcsprng_fast_poll E)).
  { unfold _gcry_rngcsprng_fast_poll, initialize_basics, lock_pool, unlock_pool,
      locked, released.
    always_go ltac:(fast_leaf (fill_state s)) ltac:(apply fill_is_do_fast_random_poll). }
  specialize (Ha s eq_refl). unfold fill_is, fill_state in Ha.
  cbv zeta. by injection Ha as -> ->.
Qed.

(** X8.  Called before the pools are allocated,
    [_gcry_rngcsprng_fast_poll] returns after taking and releasing the
    lock: it polls nothing and asks nothing of the environment. *)
Theorem fast_poll_is_idle_before_initialization s :
  rndpool_set s = false ->
  _gcry_rngcsprng_fast_poll E s = (Val tt, released (locked s)).
Proof.
  intros Hset. unfold _gcry_rngcsprng_fast_poll, initialize_basics, lock_pool, unlock_pool.
  rewrite bind_ret, bind_modify, bind_gets.
  change (rndpool_set (locked s)) with (rndpool_set s). rewrite Hset.
  by rewrite bind_ret.
Qed.

Lemma add_chunk_fill_state s chunk : fill_state (add_chunk s chunk) = fill_state s.
Proof.
  unfold add_chunk.
  pose proof (add_randomness_unreliable RANDOM_ORIGIN_EXTERNAL chunk (locked s)
                unreliable_EXTERNAL) as Hu.
  set (x := add_randomness _ _ _) in *. clearbody x.
  change (fill_state x = fill_state s). by rewrite Hu.
Qed.

(** X6.  [_gcry_rngcsprng_add_bytes] never changes [pool_filled] or
    [pool_filled_counter], whatever the buffer and the quality: bytes
    from outside do not count towards the initial fill of the pool. *)
Theorem add_bytes_never_fills buf quality s :
  let s' := (_gcry_rngcsprng_add_bytes buf quality s).2 in
  pool_filled s' = pool_filled s /\ pool_filled_counter s' = pool_filled_counter s.
Proof.
  cbv zeta.
  assert (Hfs : fill_state (_gcry_rngcsprng_add_bytes buf quality s).2 = fill_state s).
  { rewrite add_bytes_eq. destruct buf as [bytes|]; [|done].
    destruct (_ || _); [done|]. cbn [snd].
    generalize (chunks (length bytes) bytes). intros cs.
    destruct (rndpool_set s).
    - revert s. induction cs as [|c cs IH]; intros s; [done|].
      cbn [foldl]. by rewrite IH, add_chunk_fill_state.
    - revert s. induction cs as [|c cs IH]; intros s; [done|].
      cbn [foldl]. by rewrite IH. }
  unfold fill_state in Hfs. by injection Hfs as -> ->.
Qed.

End Unreliable.

Section Levels.
Context `{Sha1} (E : environment).

Ltac same_steps IH :=
  repeat first
    [ reflexivity
    | apply IH
    | apply bind_ext; intros ? ?
    | match goal with |- (if ?c then _ else _) _ = _ => destruct c end
    | match goal with |- (match ?c with _ => _ end) _ = _ => destruct c end ].

(** [read_pool] only asks whether the level is the very strong one. *)
Lemma read_pool_level level level' fuel :
  (level =? GCRY_VERY_STRONG_RANDOM)%Z = (level' =? GCRY_VERY_STRONG_RANDOM)%Z ->
  forall buffer p length s,
    read_pool E fuel buffer p length level s = read_pool E fuel buffer p length level' s.
Proof.
  intros Heq.
  induction fuel as [|fuel IH]; intros buffer p length s; cbn [read_pool];
    unfold initial_extra_seeding, balance_topup; rewrite Heq.
  - same_steps I.
  - same_steps IH.
Qed.

Lemma randomize_loop_level level level' rounds fuel :
  (level =? GCRY_VERY_STRONG_RANDOM)%Z = (level' =? GCRY_VERY_STRONG_RANDOM)%Z ->
  forall buffer p length s,
    randomize_loop E rounds fuel buffer p length level s
    = randomize_loop E rounds fuel buffer p length level' s.
Proof.
  intros Heq.
  induction rounds as [|rounds IH]; intros buffer p length s; cbn [randomize_loop].
  - reflexivity.
  - destruct (length >? 0)%Z; [|reflexivity].
    unfold bind. rewrite (read_pool_level level level') by done.
    destruct (read_pool E fuel buffer p _ level' s) as [[b|w|] s1]; [apply IH|done|done].
Qed.

(** X15.  [_gcry_rngcsprng_randomize] does at the level
    [GCRY_WEAK_RANDOM] exactly what it does at [GCRY_STRONG_RANDOM]: the
    same result, the same state, the same statistics. *)
Theorem weak_random_is_strong_random fuel buffer length s :
  _gcry_rngcsprng_randomize E fuel buffer length GCRY_WEAK_RANDOM s
  = _gcry_rngcsprng_randomize E fuel buffer length GCRY_STRONG_RANDOM s.
Proof.
  unfold _gcry_rngcsprng_randomize.
  apply bind_ext. intros [] s1. rewrite !bind_gets.
  change (GCRY_WEAK_RANDOM >? GCRY_STRONG_RANDOM)%Z with false.
  change (GCRY_STRONG_RANDOM >? GCRY_STRONG_RANDOM)%Z with false.
  rewrite andb_false_r. cbv zeta.
  change (Z.land GCRY_WEAK_RANDOM 3) with 0%Z.
  change (Z.land GCRY_STRONG_RANDOM 3) with 1%Z.
  change (0 >=? GCRY_VERY_STRONG_RANDOM)%Z with false.
  change (1 >=? GCRY_VERY_STRONG_RANDOM)%Z with false. cbv iota.
  apply bind_ext. intros [] s2. apply bind_ext. intros [] s3.
  unfold bind at 1. unfold bind at 2.
  by rewrite (randomize_loop_level 0 1).
Qed.

Lemma quick_initialize : always (quick_is true) (initialize E).
Proof.
  unfold initialize, initialize_basics, lock_pool, unlock_pool, locked, released.
  always_go ltac:(inv_leaf (quick_is true) I I I I I) idtac.
Qed.

Lemma bind_ext_inv {A B} (I : rng_state -> Prop) (m : M A) (k1 k2 : A -> M B) s :
  I s -> always I m -> (forall a s1, I s1 -> k1 a s1 = k2 a s1) ->
  bind m k1 s = bind m k2 s.
Proof.
  intros Hs Hm Hk. unfold bind. specialize (Hm s Hs).
  destruct (m s) as [[a|why|] s1]; [by apply Hk | done | done].
Qed.

(** X16.  With [quick_test] set, a request at the level
    [GCRY_VERY_STRONG_RANDOM] is served exactly as one at
    [GCRY_STRONG_RANDOM]. *)
Theorem quick_test_degrades_very_strong fuel buffer length s :
  quick_test s = true ->
  _gcry_rngcsprng_randomize E fuel buffer length GCRY_VERY_STRONG_RANDOM s
  = _gcry_rngcsprng_randomize E fuel buffer length GCRY_STRONG_RANDOM s.
Proof.
  intros Hq. unfold _gcry_rngcsprng_randomize.
  apply (bind_ext_inv (quick_is true)); [exact Hq | apply quick_initialize |].
  intros [] s1 Hq1. rewrite !bind_gets, Hq1. reflexivity.
Qed.

End Levels.

(** ** The second top-up of [read_pool] *)

Section NeverFrom.
Context {A B : Type} (P : rng_state -> Prop) (why : fatal).

Lemma never_from_never (m : M A) : never why m -> never_from P why m.
Proof. intros Hm s _. apply Hm. Qed.

Lemma never_from_bind (m : M A) (k : A -> M B) :
  never_from P why m -> always P m -> (forall a, never_from P why (k a)) ->
  never_from P why (bind m k).
Proof.
  intros Hm Ha Hk s Hs. unfold bind. specialize (Hm s Hs). specialize (Ha s Hs).
  destruct (m s) as [[a|w|] s1]; cbn [fst snd] in *;
    [by apply Hk | congruence | discriminate].
Qed.

End NeverFrom.

Section NeverFromMore.
Context {A B : Type} (P : rng_state -> Prop) (why : fatal).

Lemma never_from_bind_never (m : M A) (k : A -> M B) :
  never_from P why m -> (forall a, never why (k a)) -> never_from P why (bind m k).
Proof.
  intros Hm Hk s Hs. unfold bind. specialize (Hm s Hs).
  destruct (m s) as [[a|w|] s1]; cbn [fst] in *; [apply Hk | congruence | discriminate].
Qed.

End NeverFromMore.

Lemma int_of_size_t_range z : (- 2 ^ 31 <= int_of_size_t z < 2 ^ 31)%Z.
Proof.
  unfold int_of_size_t.
  pose proof (Z.mod_pos_bound z (2 ^ 32) ltac:(lia)).
  destruct (Z.ltb_spec (z mod 2 ^ 32) (2 ^ 31)); lia.
Qed.

Section TopUp.
Context `{Sha1} (E : environment).

Local Abbreviation no_topup_bug := (never Bug_balance_topup).

Lemma no_topup_bug_read_random_source origin length level :
  no_topup_bug (read_random_source E origin length level).
Proof. unfold read_random_source. never_go. Qed.
#[local] Hint Resolve no_topup_bug_read_random_source : never.

Lemma no_topup_bug_random_poll : no_topup_bug (random_poll E).
Proof. unfold random_poll. never_go. Qed.
#[local] Hint Resolve no_topup_bug_random_poll : never.

Lemma no_topup_bug_do_fast_random_poll : no_topup_bug (do_fast_random_poll E).
Proof. unfold do_fast_random_poll. never_go. Qed.
#[local] Hint Resolve no_topup_bug_do_fast_random_poll : never.

Lemma no_topup_bug_read_seed_file : no_topup_bug (read_seed_file E).
Proof. unfold read_seed_file. never_go. Qed.
#[local] Hint Resolve no_topup_bug_read_seed_file : never.

Lemma no_topup_bug_fork_check : no_topup_bug (fork_check E).
Proof. unfold fork_check. never_go. Qed.
#[local] Hint Resolve no_topup_bug_fork_check : never.

Lemma no_topup_bug_seed_on_demand : no_topup_bug (seed_on_demand E).
Proof. unfold seed_on_demand. never_go. Qed.
#[local] Hint Resolve no_topup_bug_seed_on_demand : never.

Lemma no_topup_bug_initial_extra_seeding length level :
  no_topup_bug (initial_extra_seeding E length level).
Proof. unfold initial_extra_seeding. never_go. Qed.
#[local] Hint Resolve no_topup_bug_initial_extra_seeding : never.

Lemma no_topup_bug_fill_pool fuel : no_topup_bug (fill_pool E fuel).
Proof. induction fuel as [|fuel IH]; cbn [fill_pool]; never_go. Qed.
#[local] Hint Resolve no_topup_bug_fill_pool : never.

(** *** The balance stays an [int] up to the second block *)

Lemma balance_int_same s s' :
  balance_int s -> pool_balance s' = pool_balance s -> balance_int s'.
Proof. unfold balance_int. by intros Hs ->. Qed.

Lemma balance_int_add_randomness b o s :
  balance_int s -> balance_int (add_randomness b o s).
Proof.
  intros Hs. apply (balance_int_same s); [done|].
  pose proof (add_randomness_bystanders b o s) as Hb.
  unfold bystanders in Hb. injection Hb. intros. congruence.
Qed.

Lemma balance_int_add_each c o s : balance_int s -> balance_int (add_each c o s).
Proof.
  intros Hs. apply (balance_int_same s); [done|].
  pose proof (add_each_bystanders c o s) as Hb.
  unfold bystanders in Hb. injection Hb. intros. congruence.
Qed.

Lemma balance_int_mix_pool p s : balance_int s -> balance_int (mix_pool p s).
Proof. intros Hs. by destruct p. Qed.

Lemma balance_int_bump get set d s : balance_int s -> balance_int (bump get set d s).
Proof. intros Hs. exact Hs. Qed.

Lemma balance_int_create_keypool s : balance_int s -> balance_int (create_keypool s).
Proof. intros Hs. exact Hs. Qed.

Ltac balance_leaf :=
  inv_leaf balance_int balance_int_add_randomness balance_int_add_each
    balance_int_mix_pool balance_int_bump balance_int_create_keypool.

Lemma balance_int_read_random_source origin length level :
  always balance_int (read_random_source E origin length level).
Proof. unfold read_random_source. always_go ltac:(balance_leaf) idtac. Qed.

Lemma balance_int_read_seed_file : always balance_int (read_seed_file E).
Proof.
  unfold read_seed_file.
  always_go ltac:(balance_leaf) ltac:(apply balance_int_read_random_source).
Qed.

Lemma balance_int_fork_check : always balance_int (fork_check E).
Proof. unfold fork_check. always_go ltac:(balance_leaf) idtac. Qed.

Lemma balance_int_seed_on_demand : always balance_int (seed_on_demand E).
Proof.
  unfold seed_on_demand.
  always_go ltac:(balance_leaf) ltac:(apply balance_int_read_seed_file).
Qed.

Lemma balance_int_initial_extra_seeding length level :
  always balance_int (initial_extra_seeding E length level).
Proof.
  unfold initial_extra_seeding.
  always_go ltac:(balance_leaf) ltac:(apply balance_int_read_random_source).
  all: unfold balance_int, set_pool_balance; cbn [pool_balance];
    apply int_of_size_t_range.
Qed.

(** In the second block [needed] is what is missing of [length], which
    the check at the entry has bounded. *)
Lemma balance_topup_no_bug length level :
  (0 <= length <= Z.of_nat POOLSIZE)%Z ->
  never_from balance_int Bug_balance_topup (balance_topup E length level).
Proof.
  intros Hlen s Hs. unfold balance_topup. rewrite bind_gets.
  destruct (level =? GCRY_VERY_STRONG_RANDOM)%Z; [|discriminate].
  cbn [andb]. unfold size_t_of_int.
  destruct (Z.ltb_spec (wrap64 (pool_balance s)) length) as [Hlt|Hge]; [|discriminate].
  assert (Hb : (0 <= pool_balance s < length)%Z).
  { unfold balance_int in Hs. unfold wrap64 in Hlt.
    destruct (Z.lt_ge_cases (pool_balance s) 0) as [Hneg|Hpos].
    - replace (pool_balance s mod 2 ^ 64)%Z with (pool_balance s + 2 ^ 64)%Z in Hlt.
      + pool_consts. lia.
      + symmetry. rewrite <- (Z.mod_add _ 1) by lia. apply Z.mod_small. lia.
    - rewrite Z.mod_small in Hlt by lia. lia. }
  rewrite bind_modify, bind_gets.
  rewrite (proj2 (Z.ltb_ge (pool_balance s) 0)) by lia.
  rewrite (wrap64_small (pool_balance s)) by (pool_consts; lia).
  rewrite wrap64_small by (pool_consts; lia).
  rewrite Z.gtb_ltb, (proj2 (Z.ltb_ge _ _)) by lia.
  assert (Hrest : no_topup_bug
    (run read_random_source E RANDOM_ORIGIN_EXTRAPOLL (length - pool_balance s)
           GCRY_VERY_STRONG_RANDOM;
     modify (fun s0 => set_pool_balance
               (int_of_size_t (wrap64 (size_t_of_int (pool_balance s0)
                                       + (length - pool_balance s)))) s0)))
    by never_go.
  apply Hrest.
Qed.

(** X14.  The [BUG ()] of the second top-up block of [read_pool] is never
    reached by a request whose length is not negative, from a
    [pool_balance] that fits an [int]: a request for more than
    [POOLSIZE] bytes is stopped by the size check before, and otherwise
    [needed] is at most the length. *)
Theorem read_pool_never_reaches_the_topup_bug fuel buffer p length level s :
  (0 <= length)%Z ->
  (- 2 ^ 31 <= pool_balance s < 2 ^ 31)%Z ->
  (read_pool E fuel buffer p length level s).1 <> Fatal Bug_balance_topup.
Proof.
  intros Hlen Hs. revert s Hs. change (never_from balance_int Bug_balance_topup
    (read_pool E fuel buffer p length level)).
  destruct fuel as [|fuel]; cbn [read_pool].
  all: apply never_from_bind;
    [apply never_from_never, no_topup_bug_fork_check
    | apply balance_int_fork_check | intros my_pid2].
  all: destruct (Z.gtb_spec length (Z.of_nat POOLSIZE));
    [apply never_from_never; never_go|].
  all: apply never_from_bind;
    [apply never_from_never, no_topup_bug_seed_on_demand
    | apply balance_int_seed_on_demand | intros _].
  all: apply never_from_bind;
    [apply never_from_never, no_topup_bug_initial_extra_seeding
    | apply balance_int_initial_extra_seeding | intros _].
  all: apply never_from_bind_never; [apply balance_topup_no_bug; lia | intros _].
  all: unfold add_own_pid, mix_if_needed.
  all: do 6 (apply never_bind; [never_go | intros _]).
  all: apply (never_bind_val _ (fun out => out.2 = 2 ^ 64 - 1)%Z).
  all: try (intros s [[b' p'] l'] s1 Hd;
            pose proof (deliver_length (Z.to_nat length) buffer p s) as Hn;
            rewrite Z2Nat.id in Hn by done;
            specialize (Hn ltac:(pool_consts; lia));
            destruct (deliver (Z.to_nat length) buffer p length s) as [[[? ?] ?] ?];
            injection Hd as <- <- <- <-; exact Hn).
  all: try (intros s; destruct (deliver (Z.to_nat length) buffer p length s) as [[[? ?] ?] ?];
            discriminate).
  all: intros out Hout; never_go.
  intros s. rewrite read_pool_too_many; [discriminate|]. rewrite Hout. pool_consts. lia.
Qed.

End TopUp.

(** ** The gatherer *)

Create HintDb gset discriminated.
Create HintDb ready discriminated.
Create HintDb unallocated discriminated.

Section Safe.
Context {A B : Type} (P : rng_state -> Prop) (why : fatal).

Lemma safe_ret (a : A) : safe P why (ret a).
Proof. split; [apply always_ret | intros s _; discriminate]. Qed.

Lemma safe_gets (f : rng_state -> A) : safe P why (gets f).
Proof. split; [apply always_gets | intros s _; discriminate]. Qed.

Lemma safe_out_of_fuel : safe P why (@out_of_fuel A).
Proof. split; [apply always_out_of_fuel | intros s _; discriminate]. Qed.

Lemma safe_die other : other <> why -> safe P why (@die A other).
Proof. intros Hne. split; [apply always_die | intros s _; cbn; congruence]. Qed.

Lemma safe_modify f : (forall s, P s -> P (f s)) -> safe P why (modify f).
Proof. intros Hf. split; [by apply always_modify | intros s _; discriminate]. Qed.

Lemma safe_ask E (q : environment -> nat -> A) :
  (forall s, P s -> P (set_tick (S (tick s)) s)) -> safe P why (ask E q).
Proof. intros Hf. split; [by apply always_ask | intros s _; discriminate]. Qed.

Lemma safe_bind (m : M A) (k : A -> M B) :
  safe P why m -> (forall a, safe P why (k a)) -> safe P why (bind m k).
Proof.
  intros [Ha Hn] Hk. split.
  - apply always_bind; [done|]. intros a. apply Hk.
  - apply never_from_bind; [done | done |]. intros a. apply Hk.
Qed.

End Safe.

Ltac safe_go leaf known :=
  repeat match goal with
    | |- safe _ _ (bind _ _) => apply safe_bind; [| intros ?]
    | |- safe _ _ (ret _) => apply safe_ret
    | |- safe _ _ (die _) => apply safe_die; discriminate
    | |- safe _ _ out_of_fuel => apply safe_out_of_fuel
    | |- safe _ _ (gets _) => apply safe_gets
    | |- safe _ _ (modify _) => apply safe_modify; leaf
    | |- safe _ _ (ask _ _) => apply safe_ask; leaf
    | |- safe _ _ (if ?c then _ else _) => destruct c
    | |- safe _ _ (match ?x with _ => _ end) => destruct x
    | |- safe _ _ _ => assumption
    | |- safe _ _ _ => solve [known]
    end.

Section Gatherer.
Context `{Sha1} (E : environment).

Lemma gset_same s s' : gset s -> slow_gather_fnc s' = slow_gather_fnc s -> gset s'.
Proof. unfold gset. by intros Hs ->. Qed.

Lemma gset_add_randomness b o s : gset s -> gset (add_randomness b o s).
Proof.
  intros Hs. apply (gset_same s); [done|]. apply add_randomness_slow_gather_fnc.
Qed.

Lemma gset_add_each c o s : gset s -> gset (add_each c o s).
Proof.
  intros Hs. apply (gset_same s); [done|].
  pose proof (add_each_bystanders c o s) as Hb.
  unfold bystanders in Hb. injection Hb. intros. congruence.
Qed.

Lemma gset_mix_pool p s : gset s -> gset (mix_pool p s).
Proof. intros Hs. by destruct p. Qed.

Lemma gset_bump get set d s : gset s -> gset (bump get set d s).
Proof. intros Hs. exact Hs. Qed.

Lemma gset_create_keypool s : gset s -> gset (create_keypool s).
Proof. intros Hs. exact Hs. Qed.

Lemma gset_deliver k : forall buffer p length s,
  gset s -> gset (deliver k buffer p length s).2.
Proof.
  induction k as [|k IH]; intros buffer p length s Hs; [done|].
  cbn [deliver]. apply IH. by case_match.
Qed.

Ltac gset_leaf :=
  inv_leaf gset gset_add_randomness gset_add_each gset_mix_pool gset_bump
    gset_create_keypool.

Lemma gset_read_random_source origin length level :
  always gset (read_random_source E origin length level).
Proof. unfold read_random_source. always_go ltac:(gset_leaf) ltac:(auto with gset). Qed.
#[local] Hint Resolve gset_read_random_source : gset.

Lemma gset_random_poll :
  always gset (random_poll E).
Proof. unfold random_poll. always_go ltac:(gset_leaf) ltac:(auto with gset). Qed.
#[local] Hint Resolve gset_random_poll : gset.

Lemma gset_do_fast_random_poll :
  always gset (do_fast_random_poll E).
Proof. unfold do_fast_random_poll. always_go ltac:(gset_leaf) ltac:(auto with gset). Qed.
#[local] Hint Resolve gset_do_fast_random_poll : gset.

Lemma gset_read_seed_file :
  always gset (read_seed_file E).
Proof. unfold read_seed_file. always_go ltac:(gset_leaf) ltac:(auto with gset). Qed.
#[local] Hint Resolve gset_read_seed_file : gset.

Lemma gset_fork_check :
  always gset (fork_check E).
Proof. unfold fork_check. always_go ltac:(gset_leaf) ltac:(auto with gset). Qed.
#[local] Hint Resolve gset_fork_check : gset.

Lemma gset_seed_on_demand :
  always gset (seed_on_demand E).
Proof. unfold seed_on_demand. always_go ltac:(gset_leaf) ltac:(auto with gset). Qed.
#[local] Hint Resolve gset_seed_on_demand : gset.

Lemma gset_initial_extra_seeding length level :
  always gset (initial_extra_seeding E length level).
Proof. unfold initial_extra_seeding. always_go ltac:(gset_leaf) ltac:(auto with gset). Qed.
#[local] Hint Resolve gset_initial_extra_seeding : gset.

Lemma gset_balance_topup length level :
  always gset (balance_topup E length level).
Proof. unfold balance_topup. always_go ltac:(gset_leaf) ltac:(auto with gset). Qed.
#[local] Hint Resolve gset_balance_topup : gset.

Lemma gset_fill_pool fuel :
  always gset (fill_pool E fuel).
Proof. induction fuel as [|fuel IH]; cbn [fill_pool]; always_go ltac:(gset_leaf) ltac:(auto with gset). Qed.
#[local] Hint Resolve gset_fill_pool : gset.

Lemma gset_add_own_pid :
  always gset (add_own_pid).
Proof. unfold add_own_pid. always_go ltac:(gset_leaf) ltac:(auto with gset). Qed.
#[local] Hint Resolve gset_add_own_pid : gset.

Lemma gset_mix_if_needed :
  always gset (mix_if_needed).
Proof. unfold mix_if_needed. always_go ltac:(gset_leaf) ltac:(auto with gset). Qed.
#[local] Hint Resolve gset_mix_if_needed : gset.

Lemma gset_read_pool_seeding length level :
  always gset (read_pool_seeding E length level).
Proof. unfold read_pool_seeding. always_go ltac:(gset_leaf) ltac:(auto with gset). Qed.
#[local] Hint Resolve gset_read_pool_seeding : gset.

Lemma gset_read_pool_stirring :
  always gset (read_pool_stirring E).
Proof. unfold read_pool_stirring. always_go ltac:(gset_leaf) ltac:(auto with gset). Qed.
#[local] Hint Resolve gset_read_pool_stirring : gset.

Lemma gset_read_pool fuel buffer p length level :
  always gset (read_pool E fuel buffer p length level).
Proof.
  revert buffer p length.
  induction fuel as [|fuel IH]; intros buffer p length; cbn [read_pool];
    unfold add_own_pid, mix_if_needed.
  all: always_go ltac:(gset_leaf) ltac:(auto with gset).
  all: try (intros s Hs;
            pose proof (gset_deliver (Z.to_nat length) buffer p length s Hs) as Hd;
            destruct (deliver (Z.to_nat length) buffer p length s) as [[[? ?] ?] ?];
            exact Hd).
Qed.
#[local] Hint Resolve gset_read_pool : gset.

Lemma gset_lock_pool :
  always gset (lock_pool).
Proof. unfold lock_pool, locked. always_go ltac:(gset_leaf) ltac:(auto with gset). Qed.
#[local] Hint Resolve gset_lock_pool : gset.

Lemma gset_unlock_pool :
  always gset (unlock_pool).
Proof. unfold unlock_pool, released. always_go ltac:(gset_leaf) ltac:(auto with gset). Qed.
#[local] Hint Resolve gset_unlock_pool : gset.

Lemma gset_initialize_basics :
  always gset (initialize_basics).
Proof. unfold initialize_basics. always_go ltac:(gset_leaf) ltac:(auto with gset). Qed.
#[local] Hint Resolve gset_initialize_basics : gset.

Lemma gset_initialize :
  always gset (initialize E).
Proof. unfold initialize. always_go ltac:(gset_leaf) ltac:(auto with gset). Qed.
#[local] Hint Resolve gset_initialize : gset.

Lemma gset_close_fds :
  always gset (_gcry_rngcsprng_close_fds).
Proof. unfold _gcry_rngcsprng_close_fds. always_go ltac:(gset_leaf) ltac:(auto with gset). Qed.
#[local] Hint Resolve gset_close_fds : gset.

Lemma gset_enable_quick_gen :
  always gset (_gcry_rngcsprng_enable_quick_gen).
Proof. unfold _gcry_rngcsprng_enable_quick_gen. always_go ltac:(gset_leaf) ltac:(auto with gset). Qed.
#[local] Hint Resolve gset_enable_quick_gen : gset.

Lemma gset_is_faked :
  always gset (_gcry_rngcsprng_is_faked E).
Proof. unfold _gcry_rngcsprng_is_faked. always_go ltac:(gset_leaf) ltac:(auto with gset). Qed.
#[local] Hint Resolve gset_is_faked : gset.

Lemma gset_add_bytes_loop rounds bufptr :
  always gset (add_bytes_loop rounds bufptr).
Proof. revert bufptr. induction rounds as [|rounds IH]; intros bufptr; cbn [add_bytes_loop]; always_go ltac:(gset_leaf) ltac:(auto with gset). Qed.
#[local] Hint Resolve gset_add_bytes_loop : gset.

Lemma gset_add_bytes buf quality :
  always gset (_gcry_rngcsprng_add_bytes buf quality).
Proof. unfold _gcry_rngcsprng_add_bytes. always_go ltac:(gset_leaf) ltac:(auto with gset). Qed.
#[local] Hint Resolve gset_add_bytes : gset.

Lemma gset_randomize_loop rounds fuel buffer p length level :
  always gset (randomize_loop E rounds fuel buffer p length level).
Proof. revert buffer p length. induction rounds as [|rounds IH]; intros buffer p length; cbn [randomize_loop]; always_go ltac:(gset_leaf) ltac:(auto with gset). Qed.
#[local] Hint Resolve gset_randomize_loop : gset.

Lemma gset_randomize fuel buffer length level :
  always gset (_gcry_rngcsprng_randomize E fuel buffer length level).
Proof. unfold _gcry_rngcsprng_randomize. always_go ltac:(gset_leaf) ltac:(auto with gset). Qed.
#[local] Hint Resolve gset_randomize : gset.

Lemma gset_set_seed_file name :
  always gset (_gcry_rngcsprng_set_seed_file name).
Proof. unfold _gcry_rngcsprng_set_seed_file. always_go ltac:(gset_leaf) ltac:(auto with gset). Qed.
#[local] Hint Resolve gset_set_seed_file : gset.

Lemma gset_update_seed_file :
  always gset (_gcry_rngcsprng_update_seed_file).
Proof. unfold _gcry_rngcsprng_update_seed_file. always_go ltac:(gset_leaf) ltac:(auto with gset). Qed.
#[local] Hint Resolve gset_update_seed_file : gset.

Lemma gset_fast_poll :
  always gset (_gcry_rngcsprng_fast_poll E).
Proof. unfold _gcry_rngcsprng_fast_poll. always_go ltac:(gset_leaf) ltac:(auto with gset). Qed.
#[local] Hint Resolve gset_fast_poll : gset.

(** *** With the gatherer set its absence is never met *)

Lemma ready_read_random_source origin length level :
  safe gset Fatal_gather_not_initialized (read_random_source E origin length level).
Proof.
  split; [apply gset_read_random_source|].
  intros s Hs. unfold read_random_source. rewrite bind_gets, Hs. cbn [negb].
  rewrite bind_ask, !bind_modify. by destruct (_ <? 0)%Z.
Qed.
#[local] Hint Resolve ready_read_random_source : ready.

Lemma ready_random_poll :
  safe gset Fatal_gather_not_initialized (random_poll E).
Proof. unfold random_poll. safe_go ltac:(gset_leaf) ltac:(auto with ready). Qed.
#[local] Hint Resolve ready_random_poll : ready.

Lemma ready_do_fast_random_poll :
  safe gset Fatal_gather_not_initialized (do_fast_random_poll E).
Proof. unfold do_fast_random_poll. safe_go ltac:(gset_leaf) ltac:(auto with ready). Qed.
#[local] Hint Resolve ready_do_fast_random_poll : ready.

Lemma ready_read_seed_file :
  safe gset Fatal_gather_not_initialized (read_seed_file E).
Proof. unfold read_seed_file. safe_go ltac:(gset_leaf) ltac:(auto with ready). Qed.
#[local] Hint Resolve ready_read_seed_file : ready.

Lemma ready_fork_check :
  safe gset Fatal_gather_not_initialized (fork_check E).
Proof. unfold fork_check. safe_go ltac:(gset_leaf) ltac:(auto with ready). Qed.
#[local] Hint Resolve ready_fork_check : ready.

Lemma ready_seed_on_demand :
  safe gset Fatal_gather_not_initialized (seed_on_demand E).
Proof. unfold seed_on_demand. safe_go ltac:(gset_leaf) ltac:(auto with ready). Qed.
#[local] Hint Resolve ready_seed_on_demand : ready.

Lemma ready_initial_extra_seeding length level :
  safe gset Fatal_gather_not_initialized (initial_extra_seeding E length level).
Proof. unfold initial_extra_seeding. safe_go ltac:(gset_leaf) ltac:(auto with ready). Qed.
#[local] Hint Resolve ready_initial_extra_seeding : ready.

Lemma ready_balance_topup length level :
  safe gset Fatal_gather_not_initialized (balance_topup E length level).
Proof. unfold balance_topup. safe_go ltac:(gset_leaf) ltac:(auto with ready). Qed.
#[local] Hint Resolve ready_balance_topup : ready.

Lemma ready_fill_pool fuel :
  safe gset Fatal_gather_not_initialized (fill_pool E fuel).
Proof. induction fuel as [|fuel IH]; cbn [fill_pool]; safe_go ltac:(gset_leaf) ltac:(auto with ready). Qed.
#[local] Hint Resolve ready_fill_pool : ready.

Lemma ready_add_own_pid :
  safe gset Fatal_gather_not_initialized (add_own_pid).
Proof. unfold add_own_pid. safe_go ltac:(gset_leaf) ltac:(auto with ready). Qed.
#[local] Hint Resolve ready_add_own_pid : ready.

Lemma ready_mix_if_needed :
  safe gset Fatal_gather_not_initialized (mix_if_needed).
Proof. unfold mix_if_needed. safe_go ltac:(gset_leaf) ltac:(auto with ready). Qed.
#[local] Hint Resolve ready_mix_if_needed : ready.

Lemma ready_read_pool fuel buffer p length level :
  safe gset Fatal_gather_not_initialized (read_pool E fuel buffer p length level).
Proof.
  revert buffer p length.
  induction fuel as [|fuel IH]; intros buffer p length; cbn [read_pool];
    unfold add_own_pid, mix_if_needed.
  all: safe_go ltac:(gset_leaf) ltac:(auto with ready).
  all: split;
    [ intros s Hs; pose proof (gset_deliver (Z.to_nat length) buffer p length s Hs) as Hd;
      destruct (deliver (Z.to_nat length) buffer p length s) as [[[? ?] ?] ?]; exact Hd
    | intros s _; destruct (deliver (Z.to_nat length) buffer p length s) as [[[? ?] ?] ?];
      discriminate ].
Qed.
#[local] Hint Resolve ready_read_pool : ready.

Lemma ready_randomize_loop rounds fuel : forall buffer p length level,
  safe gset Fatal_gather_not_initialized
    (randomize_loop E rounds fuel buffer p length level).
Proof.
  induction rounds as [|rounds IH]; intros buffer p length level; cbn [randomize_loop];
    safe_go ltac:(gset_leaf) ltac:(auto with ready).
Qed.
#[local] Hint Resolve ready_randomize_loop : ready.

(** *** Before the pools are allocated *)

Lemma unallocated_same s s' :
  unallocated s -> rndpool_set s' = rndpool_set s -> unallocated s'.
Proof. unfold unallocated. by intros Hs ->. Qed.

Lemma unallocated_add_randomness b o s :
  unallocated s -> unallocated (add_randomness b o s).
Proof.
  intros Hs. apply (unallocated_same s); [done|].
  pose proof (add_randomness_bystanders b o s) as Hb.
  unfold bystanders in Hb. injection Hb. intros. congruence.
Qed.

Lemma unallocated_add_each c o s : unallocated s -> unallocated (add_each c o s).
Proof.
  intros Hs. apply (unallocated_same s); [done|].
  pose proof (add_each_bystanders c o s) as Hb.
  unfold bystanders in Hb. injection Hb. intros. congruence.
Qed.

Lemma unallocated_mix_pool p s : unallocated s -> unallocated (mix_pool p s).
Proof. intros Hs. by destruct p. Qed.

Lemma unallocated_bump get set d s : unallocated s -> unallocated (bump get set d s).
Proof. intros Hs. exact Hs. Qed.

Lemma unallocated_create_keypool s : unallocated s -> unallocated (create_keypool s).
Proof. intros Hs. exact Hs. Qed.

Ltac unallocated_leaf :=
  inv_leaf unallocated unallocated_add_randomness unallocated_add_each
    unallocated_mix_pool unallocated_bump unallocated_create_keypool.

Lemma unallocated_do_fast_random_poll :
  always unallocated (do_fast_random_poll E).
Proof. unfold do_fast_random_poll. always_go ltac:(unallocated_leaf) ltac:(auto with unallocated). Qed.
#[local] Hint Resolve unallocated_do_fast_random_poll : unallocated.

Lemma unallocated_lock_pool :
  always unallocated (lock_pool).
Proof. unfold lock_pool, locked. always_go ltac:(unallocated_leaf) ltac:(auto with unallocated). Qed.
#[local] Hint Resolve unallocated_lock_pool : unallocated.

Lemma unallocated_unlock_pool :
  always unallocated (unlock_pool).
Proof. unfold unlock_pool, released. always_go ltac:(unallocated_leaf) ltac:(auto with unallocated). Qed.
#[local] Hint Resolve unallocated_unlock_pool : unallocated.

Lemma unallocated_initialize_basics :
  always unallocated (initialize_basics).
Proof. unfold initialize_basics. always_go ltac:(unallocated_leaf) ltac:(auto with unallocated). Qed.
#[local] Hint Resolve unallocated_initialize_basics : unallocated.

Lemma unallocated_enable_quick_gen :
  always unallocated (_gcry_rngcsprng_enable_quick_gen).
Proof. unfold _gcry_rngcsprng_enable_quick_gen. always_go ltac:(unallocated_leaf) ltac:(auto with unallocated). Qed.
#[local] Hint Resolve unallocated_enable_quick_gen : unallocated.

Lemma unallocated_add_bytes_loop rounds bufptr :
  always unallocated (add_bytes_loop rounds bufptr).
Proof. revert bufptr. induction rounds as [|rounds IH]; intros bufptr; cbn [add_bytes_loop]; always_go ltac:(unallocated_leaf) ltac:(auto with unallocated). Qed.
#[local] Hint Resolve unallocated_add_bytes_loop : unallocated.

Lemma unallocated_add_bytes buf quality :
  always unallocated (_gcry_rngcsprng_add_bytes buf quality).
Proof. unfold _gcry_rngcsprng_add_bytes. always_go ltac:(unallocated_leaf) ltac:(auto with unallocated). Qed.
#[local] Hint Resolve unallocated_add_bytes : unallocated.

Lemma unallocated_set_seed_file name :
  always unallocated (_gcry_rngcsprng_set_seed_file name).
Proof. unfold _gcry_rngcsprng_set_seed_file. always_go ltac:(unallocated_leaf) ltac:(auto with unallocated). Qed.
#[local] Hint Resolve unallocated_set_seed_file : unallocated.

Lemma unallocated_update_seed_file :
  always unallocated (_gcry_rngcsprng_update_seed_file).
Proof. unfold _gcry_rngcsprng_update_seed_file. always_go ltac:(unallocated_leaf) ltac:(auto with unallocated). Qed.
#[local] Hint Resolve unallocated_update_seed_file : unallocated.

Lemma unallocated_fast_poll :
  always unallocated (_gcry_rngcsprng_fast_poll E).
Proof. unfold _gcry_rngcsprng_fast_poll. always_go ltac:(unallocated_leaf) ltac:(auto with unallocated). Qed.
#[local] Hint Resolve unallocated_fast_poll : unallocated.

(** *** The functions that never call the gatherer *)

Local Abbreviation no_absence := (never Fatal_gather_not_initialized).

Lemma no_absence_do_fast_random_poll :
  no_absence (do_fast_random_poll E).
Proof. unfold do_fast_random_poll. never_go. Qed.
#[local] Hint Resolve no_absence_do_fast_random_poll : never.

Lemma no_absence_initialize :
  no_absence (initialize E).
Proof. unfold initialize, initialize_basics, lock_pool, unlock_pool. never_go. Qed.
#[local] Hint Resolve no_absence_initialize : never.

Lemma no_absence_close_fds :
  no_absence (_gcry_rngcsprng_close_fds).
Proof. unfold _gcry_rngcsprng_close_fds, lock_pool, unlock_pool. never_go. Qed.
#[local] Hint Resolve no_absence_close_fds : never.

Lemma no_absence_is_faked :
  no_absence (_gcry_rngcsprng_is_faked E).
Proof. unfold _gcry_rngcsprng_is_faked. never_go. Qed.
#[local] Hint Resolve no_absence_is_faked : never.

Lemma no_absence_add_bytes_loop rounds bufptr :
  no_absence (add_bytes_loop rounds bufptr).
Proof. revert bufptr. induction rounds as [|rounds IH]; intros bufptr; cbn [add_bytes_loop]; unfold lock_pool, unlock_pool; never_go. Qed.
#[local] Hint Resolve no_absence_add_bytes_loop : never.

Lemma no_absence_add_bytes buf quality :
  no_absence (_gcry_rngcsprng_add_bytes buf quality).
Proof. unfold _gcry_rngcsprng_add_bytes, initialize_basics. never_go. Qed.
#[local] Hint Resolve no_absence_add_bytes : never.

Lemma no_absence_set_seed_file name :
  no_absence (_gcry_rngcsprng_set_seed_file name).
Proof. unfold _gcry_rngcsprng_set_seed_file. never_go. Qed.
#[local] Hint Resolve no_absence_set_seed_file : never.

Lemma no_absence_update_seed_file :
  no_absence (_gcry_rngcsprng_update_seed_file).
Proof. unfold _gcry_rngcsprng_update_seed_file, initialize_basics, lock_pool, unlock_pool. never_go. Qed.
#[local] Hint Resolve no_absence_update_seed_file : never.

Lemma no_absence_fast_poll :
  no_absence (_gcry_rngcsprng_fast_poll E).
Proof. unfold _gcry_rngcsprng_fast_poll, initialize_basics, lock_pool, unlock_pool. never_go. Qed.
#[local] Hint Resolve no_absence_fast_poll : never.

(** *** The calls of the API *)

Lemma gated_cases s : gated s -> unallocated s \/ gset s.
Proof.
  unfold gated, unallocated, gset. destruct (rndpool_set s); [right|left]; auto.
Qed.

Lemma always_gated {A} (m : M A) :
  always unallocated m -> always gset m -> always gated m.
Proof.
  intros Hu Hg s Hs. destruct (gated_cases s Hs) as [Hc|Hc].
  - specialize (Hu s Hc). unfold gated. unfold unallocated in Hu. congruence.
  - specialize (Hg s Hc). by intros _.
Qed.

(** When [initialize] returns the gatherer is set. *)
Lemma initialize_sets_the_gatherer : hoare gated (initialize E) (fun _ => gset).
Proof.
  intros s a s' Hs. unfold initialize, initialize_basics, lock_pool, unlock_pool.
  rewrite bind_ret, bind_modify, bind_gets.
  change (rndpool_set (locked s)) with (rndpool_set s).
  destruct (rndpool_set s) eqn:Hset; cbn [negb].
  - rewrite bind_ret. intros Hr. injection Hr as <- <-. by apply Hs.
  - rewrite !bind_assoc, bind_modify, !bind_assoc, bind_ask.
    destruct (env_gather_module E _).
    + rewrite bind_assoc, !bind_modify. intros Hr. by injection Hr as <- <-.
    + rewrite bind_assoc, bind_die. discriminate.
Qed.

Lemma never_from_bind_hoare {A B} (P : rng_state -> Prop) (Q : A -> rng_state -> Prop)
  why (m : M A) (k : A -> M B) :
  never_from P why m -> hoare P m Q -> (forall a, never_from (Q a) why (k a)) ->
  never_from P why (bind m k).
Proof.
  intros Hn Hh Hk s Hs. unfold bind. specialize (Hn s Hs). specialize (Hh s).
  destruct (m s) as [[a|w|] s1]; cbn [fst] in *;
    [eapply Hk, Hh; done | congruence | discriminate].
Qed.

Lemma gated_gset s : gset s -> gated s.
Proof. by intros Hs _. Qed.

Lemma gated_run_call fuel c :
  hoare gated (run_call E fuel c) (fun _ => gated) /\
  never_from gated Fatal_gather_not_initialized (run_call E fuel c).
Proof.
  destruct c; cbn [run_call]; unfold ignore, _gcry_rngcsprng_initialize.
  - (* initialize *)
    destruct full; cbn [negb].
    + split; [|apply never_from_never, no_absence_initialize].
      eapply hoare_weaken; [apply initialize_sets_the_gatherer | done |].
      intros ? s. apply gated_gset.
    + split; [apply hoare_always, always_ret | apply never_from_never, never_ret].
  - (* close_fds *)
    split; [|apply never_from_never, no_absence_close_fds].
    intros s a s' _ Hr.
    unfold _gcry_rngcsprng_close_fds, lock_pool, unlock_pool in Hr.
    rewrite !bind_modify in Hr. injection Hr as <- <-.
    intros Hset. change (false = true) in Hset. discriminate Hset.
  - (* enable_quick_gen *)
    split; [|apply never_from_never; unfold _gcry_rngcsprng_enable_quick_gen; never_go].
    apply hoare_always. unfold _gcry_rngcsprng_enable_quick_gen.
    apply always_modify. intros s Hs. exact Hs.
  - (* is_faked *)
    split; [|apply never_from_never; never_go].
    unfold _gcry_rngcsprng_is_faked. intros s a s' Hs Hr.
    apply bind_Val in Hr as (b & s1 & Hr & Hret). injection Hret as <- <-.
    apply bind_Val in Hr as ([] & s0 & Hinit & Hq). injection Hq as <- <-.
    apply gated_gset. by eapply initialize_sets_the_gatherer.
  - (* add_bytes *)
    split; [|apply never_from_never; never_go].
    apply hoare_always, always_gated;
      always_go idtac ltac:(auto with unallocated gset).
  - (* randomize *)
    unfold _gcry_rngcsprng_randomize. split.
    + intros s a s' Hs Hr.
      apply bind_Val in Hr as (b & s1 & Hr & Hret). injection Hret as <- <-.
      apply bind_Val in Hr as ([] & s0 & Hinit & Hr).
      apply (initialize_sets_the_gatherer s tt s0 Hs) in Hinit.
      apply gated_gset.
      match type of Hr with ?m s0 = _ =>
        assert (Ha : always gset m)
          by (unfold lock_pool, unlock_pool, locked, released;
              always_go ltac:(gset_leaf) ltac:(auto with gset))
      end.
      specialize (Ha s0 Hinit). by rewrite Hr in Ha.
    + apply never_from_bind_never; [|intros ?; apply never_ret].
      eapply never_from_bind_hoare;
        [apply never_from_never, no_absence_initialize
        | apply initialize_sets_the_gatherer | intros ?].
      unfold lock_pool, unlock_pool, locked, released.
      match goal with |- never_from gset ?w ?m =>
        cut (safe gset w m); [by intros [_ ?] |] end.
      safe_go ltac:(gset_leaf) ltac:(auto with ready).
  - (* set_seed_file *)
    split; [|apply never_from_never, no_absence_set_seed_file].
    apply hoare_always, always_gated; auto with unallocated gset.
  - (* update_seed_file *)
    split; [|apply never_from_never, no_absence_update_seed_file].
    apply hoare_always, always_gated; auto with unallocated gset.
  - (* fast_poll *)
    split; [|apply never_from_never, no_absence_fast_poll].
    apply hoare_always, always_gated; auto with unallocated gset.
Qed.

Lemma gated_run_calls fuel cs :
  never_from gated Fatal_gather_not_initialized (run_calls E fuel cs).
Proof.
  induction cs as [|c cs IH]; cbn [run_calls]; [apply never_from_never, never_ret|].
  destruct (gated_run_call fuel c) as [Hh Hn].
  eapply never_from_bind_hoare; [exact Hn | exact Hh | intros ?; exact IH].
Qed.

(** X19.  No sequence of calls of the public functions, from the state the
    module is loaded in, ends in the fatal error of
    [read_random_source] for a slow gatherer that is not set. *)
Theorem the_gatherer_is_set_when_it_is_called fuel cs :
  (run_calls E fuel cs initial_state).1 <> Fatal Fatal_gather_not_initialized.
Proof. apply gated_run_calls. intros Hset. discriminate Hset. Qed.

End Gatherer.

(** ** The gather module and the name of the seed file *)

Create HintDb named discriminated.

Section NoModule.
Context `{Sha1} (E : environment).


End NoModule.

Section SeedName.
Context `{Sha1} (E : environment).

Lemma named_same n s s' :
  named n s -> seed_file_name s' = seed_file_name s -> named n s'.
Proof. unfold named. by intros Hs ->. Qed.

Lemma named_add_randomness n b o s : named n s -> named n (add_randomness b o s).
Proof.
  intros Hs. apply (named_same n s); [done|].
  pose proof (add_randomness_bystanders b o s) as Hb.
  unfold bystanders in Hb. injection Hb. intros. congruence.
Qed.

Lemma named_add_each n c o s : named n s -> named n (add_each c o s).
Proof.
  intros Hs. apply (named_same n s); [done|].
  pose proof (add_each_bystanders c o s) as Hb.
  unfold bystanders in Hb. injection Hb. intros. congruence.
Qed.

Lemma named_mix_pool n p s : named n s -> named n (mix_pool p s).
Proof. intros Hs. by destruct p. Qed.

Lemma named_bump n get set d s : named n s -> named n (bump get set d s).
Proof. intros Hs. exact Hs. Qed.

Lemma named_create_keypool n s : named n s -> named n (create_keypool s).
Proof. intros Hs. exact Hs. Qed.

Lemma named_deliver n k : forall buffer p length s,
  named n s -> named n (deliver k buffer p length s).2.
Proof.
  induction k as [|k IH]; intros buffer p length s Hs; [done|].
  cbn [deliver]. apply IH. by case_match.
Qed.

Ltac named_leaf n :=
  inv_leaf (named n) (named_add_randomness n) (named_add_each n)
    (named_mix_pool n) (named_bump n) (named_create_keypool n).

Lemma named_read_random_source n origin length level :
  always (named n) (read_random_source E origin length level).
Proof. unfold read_random_source. always_go ltac:(named_leaf n) ltac:(auto with named). Qed.
#[local] Hint Resolve named_read_random_source : named.

Lemma named_random_poll n :
  always (named n) (random_poll E).
Proof. unfold random_poll. always_go ltac:(named_leaf n) ltac:(auto with named). Qed.
#[local] Hint Resolve named_random_poll : named.

Lemma named_do_fast_random_poll n :
  always (named n) (do_fast_random_poll E).
Proof. unfold do_fast_random_poll. always_go ltac:(named_leaf n) ltac:(auto with named). Qed.
#[local] Hint Resolve named_do_fast_random_poll : named.

Lemma named_read_seed_file n :
  always (named n) (read_seed_file E).
Proof. unfold read_seed_file. always_go ltac:(named_leaf n) ltac:(auto with named). Qed.
#[local] Hint Resolve named_read_seed_file : named.

Lemma named_fork_check n :
  always (named n) (fork_check E).
Proof. unfold fork_check. always_go ltac:(named_leaf n) ltac:(auto with named). Qed.
#[local] Hint Resolve named_fork_check : named.

Lemma named_seed_on_demand n :
  always (named n) (seed_on_demand E).
Proof. unfold seed_on_demand. always_go ltac:(named_leaf n) ltac:(auto with named). Qed.
#[local] Hint Resolve named_seed_on_demand : named.

Lemma named_initial_extra_seeding n length level :
  always (named n) (initial_extra_seeding E length level).
Proof. unfold initial_extra_seeding. always_go ltac:(named_leaf n) ltac:(auto with named). Qed.
#[local] Hint Resolve named_initial_extra_seeding : named.

Lemma named_balance_topup n length level :
  always (named n) (balance_topup E length level).
Proof. unfold balance_topup. always_go ltac:(named_leaf n) ltac:(auto with named). Qed.
#[local] Hint Resolve named_balance_topup : named.

Lemma named_fill_pool n fuel :
  always (named n) (fill_pool E fuel).
Proof. induction fuel as [|fuel IH]; cbn [fill_pool]; always_go ltac:(named_leaf n) ltac:(auto with named). Qed.
#[local] Hint Resolve named_fill_pool : named.

Lemma named_add_own_pid n :
  always (named n) (add_own_pid).
Proof. unfold add_own_pid. always_go ltac:(named_leaf n) ltac:(auto with named). Qed.
#[local] Hint Resolve named_add_own_pid : named.

Lemma named_mix_if_needed n :
  always (named n) (mix_if_needed).
Proof. unfold mix_if_needed. always_go ltac:(named_leaf n) ltac:(auto with named). Qed.
#[local] Hint Resolve named_mix_if_needed : named.

Lemma named_read_pool_seeding n length level :
  always (named n) (read_pool_seeding E length level).
Proof. unfold read_pool_seeding. always_go ltac:(named_leaf n) ltac:(auto with named). Qed.
#[local] Hint Resolve named_read_pool_seeding : named.

Lemma named_read_pool_stirring n :
  always (named n) (read_pool_stirring E).
Proof. unfold read_pool_stirring. always_go ltac:(named_leaf n) ltac:(auto with named). Qed.
#[local] Hint Resolve named_read_pool_stirring : named.

Lemma named_read_pool n fuel buffer p length level :
  always (named n) (read_pool E fuel buffer p length level).
Proof.
  revert buffer p length.
  induction fuel as [|fuel IH]; intros buffer p length; cbn [read_pool];
    unfold add_own_pid, mix_if_needed.
  all: always_go ltac:(named_leaf n) ltac:(auto with named).
  all: try (intros s Hs;
            pose proof (named_deliver n (Z.to_nat length) buffer p length s Hs) as Hd;
            destruct (deliver (Z.to_nat length) buffer p length s) as [[[? ?] ?] ?];
            exact Hd).
Qed.
#[local] Hint Resolve named_read_pool : named.

Lemma named_lock_pool n :
  always (named n) (lock_pool).
Proof. unfold lock_pool, locked. always_go ltac:(named_leaf n) ltac:(auto with named). Qed.
#[local] Hint Resolve named_lock_pool : named.

Lemma named_unlock_pool n :
  always (named n) (unlock_pool).
Proof. unfold unlock_pool, released. always_go ltac:(named_leaf n) ltac:(auto with named). Qed.
#[local] Hint Resolve named_unlock_pool : named.

Lemma named_initialize_basics n :
  always (named n) (initialize_basics).
Proof. unfold initialize_basics. always_go ltac:(named_leaf n) ltac:(auto with named). Qed.
#[local] Hint Resolve named_initialize_basics : named.

Lemma named_initialize n :
  always (named n) (initialize E).
Proof. unfold initialize. always_go ltac:(named_leaf n) ltac:(auto with named). Qed.
#[local] Hint Resolve named_initialize : named.

Lemma named_close_fds n :
  always (named n) (_gcry_rngcsprng_close_fds).
Proof. unfold _gcry_rngcsprng_close_fds. always_go ltac:(named_leaf n) ltac:(auto with named). Qed.
#[local] Hint Resolve named_close_fds : named.

Lemma named_enable_quick_gen n :
  always (named n) (_gcry_rngcsprng_enable_quick_gen).
Proof. unfold _gcry_rngcsprng_enable_quick_gen. always_go ltac:(named_leaf n) ltac:(auto with named). Qed.
#[local] Hint Resolve named_enable_quick_gen : named.

Lemma named_is_faked n :
  always (named n) (_gcry_rngcsprng_is_faked E).
Proof. unfold _gcry_rngcsprng_is_faked. always_go ltac:(named_leaf n) ltac:(auto with named). Qed.
#[local] Hint Resolve named_is_faked : named.

Lemma named_add_bytes_loop n rounds bufptr :
  always (named n) (add_bytes_loop rounds bufptr).
Proof. revert bufptr. induction rounds as [|rounds IH]; intros bufptr; cbn [add_bytes_loop]; always_go ltac:(named_leaf n) ltac:(auto with named). Qed.
#[local] Hint Resolve named_add_bytes_loop : named.

Lemma named_add_bytes n buf quality :
  always (named n) (_gcry_rngcsprng_add_bytes buf quality).
Proof. unfold _gcry_rngcsprng_add_bytes. always_go ltac:(named_leaf n) ltac:(auto with named). Qed.
#[local] Hint Resolve named_add_bytes : named.

Lemma named_randomize_loop n rounds fuel buffer p length level :
  always (named n) (randomize_loop E rounds fuel buffer p length level).
Proof. revert buffer p length. induction rounds as [|rounds IH]; intros buffer p length; cbn [randomize_loop]; always_go ltac:(named_leaf n) ltac:(auto with named). Qed.
#[local] Hint Resolve named_randomize_loop : named.

Lemma named_randomize n fuel buffer length level :
  always (named n) (_gcry_rngcsprng_randomize E fuel buffer length level).
Proof. unfold _gcry_rngcsprng_randomize. always_go ltac:(named_leaf n) ltac:(auto with named). Qed.
#[local] Hint Resolve named_randomize : named.

Lemma named_update_seed_file n :
  always (named n) (_gcry_rngcsprng_update_seed_file).
Proof. unfold _gcry_rngcsprng_update_seed_file. always_go ltac:(named_leaf n) ltac:(auto with named). Qed.
#[local] Hint Resolve named_update_seed_file : named.

Lemma named_fast_poll n :
  always (named n) (_gcry_rngcsprng_fast_poll E).
Proof. unfold _gcry_rngcsprng_fast_poll. always_go ltac:(named_leaf n) ltac:(auto with named). Qed.
#[local] Hint Resolve named_fast_poll : named.

(** A second registration is a bug, and leaves the first in place. *)
Lemma set_seed_file_again n m s :
  named n s ->
  _gcry_rngcsprng_set_seed_file m s = (Fatal Bug_seed_file_set_twice, s).
Proof.
  intros Hs. unfold _gcry_rngcsprng_set_seed_file. by rewrite bind_gets, Hs.
Qed.

Lemma named_set_seed_file n m : always (named n) (_gcry_rngcsprng_set_seed_file m).
Proof. intros s Hs. by rewrite (set_seed_file_again n). Qed.
#[local] Hint Resolve named_set_seed_file : named.

Lemma named_run_call n fuel c : always (named n) (run_call E fuel c).
Proof.
  destruct c; cbn [run_call]; unfold ignore, _gcry_rngcsprng_initialize;
    always_go ltac:(named_leaf n) ltac:(auto with named).
Qed.

Lemma named_run_calls n fuel cs : always (named n) (run_calls E fuel cs).
Proof.
  induction cs as [|c cs IH]; cbn [run_calls];
    always_go ltac:(named_leaf n) ltac:(apply named_run_call).
Qed.

(** X21.  Once a seed file is registered, no sequence of calls of the
    public functions changes or removes its name, and a further
    [_gcry_rngcsprng_set_seed_file] ends in [BUG ()] and leaves the
    state as it is. *)
Theorem the_seed_file_is_registered_once fuel cs n m s :
  seed_file_name s = Some n ->
  let s' := (run_calls E fuel cs s).2 in
  seed_file_name s' = Some n /\
  _gcry_rngcsprng_set_seed_file m s' = (Fatal Bug_seed_file_set_twice, s').
Proof.
  intros Hs. cbv zeta.
  pose proof (named_run_calls n fuel cs s Hs) as Hn.
  split; [exact Hn|]. by apply (set_seed_file_again n).
Qed.

(** X22.  [read_seed_file] returns 0 without touching the pool when no seed
    file is registered, and also when the file cannot be opened, locked
    or examined, is not a regular file, is empty or has a size other
    than [POOLSIZE]; only for a missing or an empty file does it set
    [allow_seed_file_update]. *)
Theorem read_seed_file_turns_down_a_bad_file s :
  let f := env_seed_file E (tick s) in
  let absent_or_empty :=
    match f with
    | Seed_ENOENT => true
    | Seed_regular st_size _ _ => (st_size =? 0)%Z
    | _ => false
    end in
  let usable :=
    match f with
    | Seed_regular st_size _ _ => (st_size =? Z.of_nat POOLSIZE)%Z
    | _ => false
    end in
  match seed_file_name s with
  | None => read_seed_file E s = (Val false, s)
  | Some _ =>
      usable = false ->
      read_seed_file E s =
        (Val false,
         if absent_or_empty then set_allow_seed_file_update true (tick_step s)
         else tick_step s)
  end.
Proof.
  cbv zeta. unfold read_seed_file. rewrite bind_gets.
  destruct (seed_file_name s) as [name|]; [|reflexivity].
  rewrite bind_ask. change (set_tick (S (tick s)) s) with (tick_step s).
  destruct (env_seed_file E (tick s)) as [| | | | |st_size n buffer]; try reflexivity.
  intros Hsize. rewrite Hsize. cbn [negb].
  destruct (Z.eqb_spec st_size 0); reflexivity.
Qed.

End SeedName.

(** ** The buffer of a request *)

Section RandomizeFrame.
Context `{Sha1} (E : environment).

Lemma randomize_loop_frame level fuel rounds : forall buffer p len s out s',
  (0 <= len)%Z ->
  randomize_loop E rounds fuel buffer p len level s = (Val out, s') ->
  length out = length buffer /\
  forall j, ~ (p <= j < p + Z.to_nat len) -> out !! j = buffer !! j.
Proof.
  induction rounds as [|rounds IH]; intros buffer p len s out s' Hlen Hrun;
    cbn [randomize_loop] in Hrun;
    destruct (Z.gtb_spec len 0) as [Hpos|Hzero].
  - discriminate Hrun.
  - by injection Hrun as <- <-.
  - apply bind_Val in Hrun as (b & s1 & Hread & Hrun).
    set (n := if (len >? Z.of_nat POOLSIZE)%Z then Z.of_nat POOLSIZE else len) in *.
    assert (Hn : (0 < n <= len)%Z).
    { subst n. destruct (Z.gtb_spec len (Z.of_nat POOLSIZE)); pool_consts; lia. }
    apply read_pool_frame in Hread as [Hl1 Hj1]; [|lia].
    apply IH in Hrun as [Hl2 Hj2]; [|lia].
    split; [congruence|].
    intros j Hj. rewrite Hj2 by lia. apply Hj1. lia.
  - by injection Hrun as <- <-.
Qed.

(** X17.  When [_gcry_rngcsprng_randomize] returns, the caller's memory has
    the size it had and is unchanged from offset [len] on, also for a
    request longer than the pool, which is served in several rounds. *)
Theorem randomize_writes_only_what_was_asked fuel buffer len level s out s' :
  (0 <= len)%Z ->
  _gcry_rngcsprng_randomize E fuel buffer len level s = (Val out, s') ->
  length out = length buffer /\
  forall j, Z.to_nat len <= j -> out !! j = buffer !! j.
Proof.
  intros Hlen Hrun. unfold _gcry_rngcsprng_randomize in Hrun.
  apply bind_Val in Hrun as ([] & s1 & _ & Hrun).
  apply bind_Val in Hrun as (q & s2 & _ & Hrun).
  apply bind_Val in Hrun as ([] & s3 & _ & Hrun).
  apply bind_Val in Hrun as ([] & s4 & _ & Hrun).
  apply bind_Val in Hrun as (b & s5 & Hloop & Hrun).
  apply bind_Val in Hrun as ([] & s6 & _ & Hrun).
  injection Hrun as <- <-.
  apply randomize_loop_frame in Hloop as [Hl Hj]; [|done].
  split; [done|]. intros j Hge. apply Hj. lia.
Qed.

End RandomizeFrame.

(** ** More on [mix_pool] *)

Lemma read_bytes_ext (mem1 mem2 : list Z) off n :
  off + n <= length mem1 -> off + n <= length mem2 ->
  (forall j, off <= j < off + n -> peek mem1 j = peek mem2 j) ->
  read_bytes mem1 off n = read_bytes mem2 off n.
Proof.
  intros H1 H2 Hj. apply list_eq. intros i.
  destruct (decide (i < n)) as [Hi|Hi].
  - rewrite !lookup_read_bytes by done.
    rewrite !lookup_peek by lia. f_equal. apply Hj. lia.
  - rewrite !lookup_ge_None_2; [done| |]; rewrite length_read_bytes; lia.
Qed.

Section MixerMore.
Context `{Sha1}.

(** The block of the first step: the tail of the pool, then its head. *)
Lemma first_block mem :
  length mem = POOLSIZE + BLOCKLEN ->
  read_bytes (memcpy (memcpy mem POOLSIZE (POOLSIZE - DIGESTLEN) DIGESTLEN)
                (POOLSIZE + DIGESTLEN) 0 (BLOCKLEN - DIGESTLEN)) POOLSIZE BLOCKLEN
  = read_bytes mem (POOLSIZE - DIGESTLEN) DIGESTLEN
      ++ read_bytes mem 0 (BLOCKLEN - DIGESTLEN).
Proof.
  intros Hlen. apply list_eq. intros i.
  destruct (decide (i < BLOCKLEN)) as [Hi|Hi].
  - rewrite lookup_read_bytes by done.
    destruct (decide (i < DIGESTLEN)) as [Hd|Hd].
    + rewrite lookup_memcpy_out by (rewrite ?length_memcpy; pool_consts; lia).
      rewrite lookup_memcpy_in by (pool_consts; lia).
      rewrite lookup_app_l by (rewrite length_read_bytes; pool_consts; lia).
      rewrite lookup_read_bytes by done. f_equal; lia.
    + rewrite lookup_memcpy_in by (rewrite ?length_memcpy; pool_consts; lia).
      rewrite lookup_memcpy_out by (pool_consts; lia).
      rewrite lookup_app_r by (rewrite length_read_bytes; pool_consts; lia).
      rewrite length_read_bytes by (pool_consts; lia).
      rewrite lookup_read_bytes by (pool_consts; lia). f_equal; lia.
  - rewrite !lookup_ge_None_2; [done| |].
    + rewrite length_app, !length_read_bytes by (pool_consts; lia). pool_consts. lia.
    + rewrite length_read_bytes; rewrite ?length_memcpy; pool_consts; lia.
Qed.

(** X1.  The first step of [mix_pool] hashes the block made of the last
    [DIGESTLEN] bytes of the pool followed by its first
    [BLOCKLEN - DIGESTLEN] bytes, writes the result over the first
    [DIGESTLEN] bytes of the pool and leaves the rest of the pool as it
    was. *)
Theorem mix_pool_begins_with_tail_and_head md mem :
  length mem = POOLSIZE + BLOCKLEN ->
  let block := read_bytes mem (POOLSIZE - DIGESTLEN) DIGESTLEN
                 ++ read_bytes mem 0 (BLOCKLEN - DIGESTLEN) in
  let r := mix_first md mem in
  r.1 = (sha1_mixblock md block).1 /\
  read_bytes r.2 0 DIGESTLEN = (sha1_mixblock md block).2 /\
  forall j, DIGESTLEN <= j < POOLSIZE -> peek r.2 j = peek mem j.
Proof.
  intros Hlen. cbv zeta. unfold mix_first, mixblock_hashbuf.
  rewrite first_block by done. cbn [fst snd].
  set (block := _ ++ _).
  pose proof (sha1_mixblock_length md block) as Hr.
  set (r := sha1_mixblock md block) in *.
  split; [done|]. split.
  - apply list_eq. intros i. destruct (decide (i < DIGESTLEN)) as [Hi|Hi].
    + rewrite lookup_read_bytes by done.
      rewrite lookup_memcpy_in;
        rewrite ?length_write_bytes, ?length_memcpy; try (pool_consts; lia).
      rewrite lookup_write_bytes_in;
        rewrite ?length_memcpy; try (pool_consts; lia).
      f_equal; lia.
    + rewrite !lookup_ge_None_2; [done| lia |].
      rewrite length_read_bytes; [lia|].
      rewrite length_memcpy, length_write_bytes, !length_memcpy. pool_consts; lia.
  - intros j Hj.
    etrans; [apply peek_eq, lookup_memcpy_out|];
      rewrite ?length_write_bytes, ?length_memcpy; try (pool_consts; lia).
    etrans; [apply peek_eq, lookup_write_bytes_out|]; try (pool_consts; lia).
    etrans; [apply peek_eq, lookup_memcpy_out|];
      rewrite ?length_memcpy; try (pool_consts; lia).
    apply peek_eq, lookup_memcpy_out; pool_consts; lia.
Qed.

(** The digest of a round stays where it was put: the rounds after it
    write further on. *)
Lemma slot_after_rounds md mem n k :
  length mem = POOLSIZE + BLOCKLEN -> 1 <= n -> n + k < POOLBLOCKS ->
  let st := mix_rounds (n - 1) md mem in
  read_bytes (mix_rounds (n + k) md mem).1.2 (n * DIGESTLEN) DIGESTLEN
  = (sha1_mixblock st.1.1 (wrap_read st.1.2 ((n - 1) * DIGESTLEN))).2.
Proof.
  intros Hlen Hn Hk. cbv zeta.
  induction k as [|k IH].
  - rewrite Nat.add_0_r. replace n with (S (n - 1)) at 1 by lia.
    rewrite mix_rounds_S.
    pose proof (mix_rounds_pointer (n - 1) md mem) as Hp.
    pose proof (length_mix_rounds (n - 1) md mem) as Hl.
    destruct (mix_rounds (n - 1) md mem) as [[md0 mem0] p0]. cbn [fst snd] in *.
    subst p0.
    destruct (mix_iter_round md0 mem0 ((n - 1) * DIGESTLEN)) as (_ & _ & Hslot & _);
      [congruence | pool_consts; lia |].
    cbn [fst snd] in Hslot.
    replace (n * DIGESTLEN) with ((n - 1) * DIGESTLEN + DIGESTLEN) by (pool_consts; lia).
    exact Hslot.
  - rewrite <- IH by lia.
    replace (n + S k) with (S (n + k)) by lia. rewrite mix_rounds_S.
    pose proof (mix_rounds_pointer (n + k) md mem) as Hp.
    pose proof (length_mix_rounds (n + k) md mem) as Hl.
    pose proof (length_mix_iter (mix_rounds (n + k) md mem)) as Hli.
    destruct (mix_rounds (n + k) md mem) as [[md0 mem0] p0]. cbn [fst snd] in *.
    subst p0.
    destruct (mix_iter_round md0 mem0 ((n + k) * DIGESTLEN)) as (_ & _ & _ & Hframe);
      [congruence | pool_consts; lia |].
    cbn [fst snd] in Hframe.
    apply read_bytes_ext; [pool_consts; lia | pool_consts; lia |].
    intros j Hj. apply Hframe; pool_consts; lia.
Qed.

(** X2.  After [mix_pool] the [DIGESTLEN] bytes at offset [n * DIGESTLEN]
    of the pool, for [1 <= n < POOLBLOCKS], are the result of round [n]:
    the hash of the [BLOCKLEN] bytes read, wrapping at the end of the
    pool, from offset [(n - 1) * DIGESTLEN] of the pool as that round
    found it.  No later round overwrites them. *)
Theorem mix_pool_leaves_the_digests failsafe mem n :
  length mem = POOLSIZE + BLOCKLEN -> 1 <= n < POOLBLOCKS ->
  let start := mix_start failsafe mem in
  let st := mix_rounds (n - 1) start.1 start.2 in
  read_bytes (mix_bytes failsafe mem) (n * DIGESTLEN) DIGESTLEN
  = (sha1_mixblock st.1.1 (wrap_read st.1.2 ((n - 1) * DIGESTLEN))).2.
Proof.
  intros Hlen Hn. cbv zeta. unfold mix_bytes.
  replace (POOLBLOCKS - 1) with (n + (POOLBLOCKS - 1 - n)) by lia.
  apply slot_after_rounds; [by rewrite length_mix_start | lia | pool_consts; lia].
Qed.

End MixerMore.

(** ** The key pool *)

Ltac word_consts :=
  change POOLWORDS with 75 in *; change SIZEOF_UNSIGNED_LONG with 8 in *;
  pool_consts.

Section Words.
Implicit Types (mem bs : list Z).

Lemma length_bytes_of_word n w : length (bytes_of_word n w) = n.
Proof. revert w. induction n as [|n IH]; intros w; cbn; [done | by rewrite IH]. Qed.

(** A word written and read again is the word, as far as it fits. *)
Lemma word_of_bytes_of_word n w :
  word_of_bytes (bytes_of_word n w) = (w mod 256 ^ Z.of_nat n)%Z.
Proof.
  revert w. induction n as [|n IH]; intros w.
  - cbn. by rewrite Z.mod_1_r.
  - cbn [bytes_of_word word_of_bytes]. rewrite IH.
    rewrite Nat2Z.inj_succ, Z.pow_succ_r by lia.
    rewrite Z.rem_mul_r by lia. done.
Qed.

Lemma read_write_same mem off bs :
  off + length bs <= length mem ->
  read_bytes (write_bytes mem off bs) off (length bs) = bs.
Proof.
  intros Hfit. apply list_eq. intros i.
  destruct (decide (i < length bs)) as [Hi|Hi].
  - rewrite lookup_read_bytes by done.
    rewrite lookup_write_bytes_in by lia. f_equal; lia.
  - rewrite !lookup_ge_None_2; [done | lia |].
    rewrite length_read_bytes; rewrite ?length_write_bytes; lia.
Qed.

Lemma read_write_other mem off bs off' n :
  off' + n <= off \/ off + length bs <= off' ->
  read_bytes (write_bytes mem off bs) off' n = read_bytes mem off' n.
Proof.
  intros Hapart. unfold read_bytes. apply list_eq. intros i.
  destruct (decide (i < n)) as [Hi|Hi].
  - rewrite !lookup_take_lt, !lookup_drop by done.
    apply lookup_write_bytes_out. lia.
  - by rewrite !lookup_take_ge by lia.
Qed.

Lemma load_store_same mem i w :
  (i + 1) * SIZEOF_UNSIGNED_LONG <= length mem ->
  load_word (store_word mem i w) i = wrap64 w.
Proof.
  intros Hfit. unfold load_word, store_word.
  pose proof (length_bytes_of_word SIZEOF_UNSIGNED_LONG w) as Hl.
  rewrite <- Hl at 3. rewrite read_write_same by lia.
  by rewrite word_of_bytes_of_word.
Qed.

Lemma load_store_other mem i j w :
  i <> j -> load_word (store_word mem j w) i = load_word mem i.
Proof.
  intros Hne. unfold load_word, store_word. f_equal.
  apply read_write_other. rewrite length_bytes_of_word. word_consts. lia.
Qed.

Lemma wrap64_wrap64 w : wrap64 (wrap64 w) = wrap64 w.
Proof. unfold wrap64. by rewrite Z.mod_mod. Qed.

(** The copying loop after [m] words. *)
Lemma copy_words rnd kp m :
  m * SIZEOF_UNSIGNED_LONG <= length kp ->
  let kp' := foldl (fun kp i => store_word kp i (wrap64 (load_word rnd i + ADD_VALUE)))
               kp (seq 0 m) in
  length kp' = length kp /\
  (forall i, i < m -> load_word kp' i = wrap64 (load_word rnd i + ADD_VALUE)) /\
  (forall j, m * SIZEOF_UNSIGNED_LONG <= j -> kp' !! j = kp !! j).
Proof.
  cbv zeta. induction m as [|m IH]; intros Hfit.
  - cbn [seq foldl]. split; [done|]. split; [intros i Hi; lia | done].
  - rewrite seq_S, foldl_app. cbn [foldl]. rewrite Nat.add_0_l.
    destruct IH as (Hl & Hw & Hj); [lia|].
    set (kp' := foldl _ kp (seq 0 m)) in *. clearbody kp'.
    split; [by rewrite length_store_word|]. split.
    + intros i Hi. destruct (decide (i = m)) as [->|Hne].
      * rewrite load_store_same by lia. apply wrap64_wrap64.
      * rewrite load_store_other by done. apply Hw. lia.
    + intros j Hge. unfold store_word.
      rewrite lookup_write_bytes_out by (rewrite length_bytes_of_word; lia).
      apply Hj. lia.
Qed.

End Words.

Section CreateKeypool.
Context `{Sha1}.

(** X23.  The loop of [read_pool] that creates the key pool makes each of
    its [POOLWORDS] words the word of [rndpool] at the same place plus
    [ADD_VALUE], modulo [2 ^ 64], and leaves the size of the key pool
    and its bytes from [POOLSIZE] on as they were. *)
Theorem create_keypool_adds_the_constant s :
  POOLSIZE <= length (keypool s) ->
  let kp := keypool (create_keypool s) in
  length kp = length (keypool s) /\
  (forall i, i < POOLWORDS ->
     load_word kp i = wrap64 (load_word (rndpool s) i + ADD_VALUE)) /\
  (forall j, POOLSIZE <= j -> kp !! j = keypool s !! j).
Proof.
  intros Hlen. cbv zeta. unfold create_keypool. cbn [keypool set_keypool].
  destruct (copy_words (rndpool s) (keypool s) POOLWORDS) as (Hl & Hw & Hj).
  { word_consts. lia. }
  split; [exact Hl|]. split; [exact Hw|].
  intros j Hge. apply Hj. word_consts. lia.
Qed.

End CreateKeypool.

(** ** Locking the seed file and looking at its name *)

Section LockSeedFile.
Variable fcntl : nat -> fcntl_result.

Lemma lock_loop_busy d : forall k fuel,
  (forall i, k <= i < k + d -> fcntl i = Fcntl_busy) ->
  fcntl (k + d) <> Fcntl_busy ->
  d < fuel ->
  lock_loop fcntl fuel k (Z.min (Z.of_nat k) 10) =
    Some (match fcntl (k + d) with Fcntl_granted => 0%Z | _ => (-1)%Z end,
          flat_map wait_events (seq k d)
            ++ match fcntl (k + d) with
               | Fcntl_granted => []
               | _ => [Log_cannot_lock]
               end).
Proof.
  induction d as [|d IH]; intros k fuel Hbusy Hend Hfuel.
  - rewrite Nat.add_0_r in *. destruct fuel as [|fuel]; [lia|].
    cbn [lock_loop seq flat_map app]. by destruct (fcntl k).
  - destruct fuel as [|fuel]; [lia|]. cbn [lock_loop].
    rewrite Hbusy by lia.
    replace (k + S d) with (S k + d) in * by lia.
    replace (if (Z.min (Z.of_nat k) 10 <? 10)%Z
             then (Z.min (Z.of_nat k) 10 + 1)%Z else Z.min (Z.of_nat k) 10)
      with (Z.min (Z.of_nat (S k)) 10)
      by (destruct (Z.ltb_spec (Z.min (Z.of_nat k) 10) 10); cbv iota; lia).
    rewrite IH; [| intros i Hi; apply Hbusy; lia | done | lia].
    assert (Hev : (if (Z.min (Z.of_nat k) 10 >? 2)%Z then [Log_waiting] else [])
                    ++ [Sleep (Z.min (Z.of_nat k) 10) 250000] = wait_events k).
    { unfold wait_events.
      destruct (Z.gtb_spec (Z.min (Z.of_nat k) 10) 2), (Nat.ltb_spec 2 k);
        (reflexivity || lia). }
    rewrite Hev. cbn [seq flat_map]. by rewrite <- app_assoc.
Qed.

End LockSeedFile.

(** X25.  If [fcntl] answers busy [n] times and then something else,
    [lock_seed_file] sleeps [n] times, the [i]-th time (from 0) for the
    smaller of [i] and 10 seconds and 250000 microseconds, logs that it
    waits before each sleep from the fourth on, and returns 0 if the
    lock was then granted and -1, after logging the error, otherwise.
    Compiled without [LOCK_SEED_FILE] it returns 0 at once. *)
Theorem lock_seed_file_backs_off fcntl fuel for_write n :
  (forall i, i < n -> fcntl for_write i = Fcntl_busy) ->
  fcntl for_write n <> Fcntl_busy ->
  n < fuel ->
  lock_seed_file true fcntl fuel for_write =
    Some (match fcntl for_write n with Fcntl_granted => 0%Z | _ => (-1)%Z end,
          flat_map wait_events (seq 0 n)
            ++ match fcntl for_write n with
               | Fcntl_granted => []
               | _ => [Log_cannot_lock]
               end) /\
  lock_seed_file false fcntl fuel for_write = Some (0%Z, []).
Proof.
  intros Hbusy Hend Hfuel. split; [|reflexivity].
  unfold lock_seed_file.
  apply (lock_loop_busy (fcntl for_write) n 0 fuel); [|done|done].
  intros i Hi. apply Hbusy. lia.
Qed.

(** Of a byte, [& 0x80] asks whether it is 128 at least. *)
Lemma land_128 c : (0 <= c < 256)%Z -> (Z.land c 128 =? 0)%Z = (c <? 128)%Z.
Proof.
  intros Hc. destruct (Z.ltb_spec c 128) as [Hlow|Hhigh].
  - apply Z.eqb_eq. apply Z.bits_inj'. intros n Hn.
    rewrite Z.land_spec, Z.bits_0.
    change 128%Z with (2 ^ 7)%Z. rewrite Z.pow2_bits_eqb by lia.
    destruct (Z.eqb_spec 7 n) as [<-|Hne]; [|apply andb_false_r].
    rewrite andb_true_r. apply Z.testbit_false; [lia|].
    change (2 ^ 7)%Z with 128%Z. by rewrite Z.div_small by lia.
  - apply Z.eqb_neq. intros Hz.
    apply (f_equal (fun z => Z.testbit z 7%Z)) in Hz.
    rewrite Z.land_spec, Z.bits_0 in Hz.
    change (Z.testbit 128 7%Z) with true in Hz. rewrite andb_true_r in Hz.
    assert (Ht : Z.testbit c 7%Z = true).
    { apply Z.testbit_true; [lia|]. change (2 ^ 7)%Z with 128%Z.
      replace (c / 128)%Z with 1%Z; [done|].
      apply Z.div_unique with (r := (c - 128)%Z); lia. }
    congruence.
Qed.

(** X26.  [any8bitchar] returns 0 for a NULL pointer and otherwise 1 or 0;
    it returns 1 exactly when the string has a byte of 128 or more with
    no NUL byte before it. *)
Theorem any8bitchar_finds_the_first_high_byte bytes :
  Forall (fun c => 0 <= c < 256)%Z bytes ->
  any8bitchar None = 0%Z /\
  (any8bitchar (Some bytes) = 1%Z \/ any8bitchar (Some bytes) = 0%Z) /\
  (any8bitchar (Some bytes) = 1%Z <->
   exists i c, bytes !! i = Some c /\ (128 <= c)%Z /\
               forall j, j < i -> peek bytes j <> 0%Z).
Proof.
  intros Hbytes. split; [reflexivity|]. cbn [any8bitchar].
  induction Hbytes as [|c rest Hc Hrest IH]; cbn [any8bit_loop].
  - split; [by right|]. split; [discriminate|]. by intros (i & c & Hi & _).
  - pose proof (land_128 c Hc) as Hbit.
    rewrite Hbit.
    destruct IH as [Hval IH].
    destruct (Z.eqb_spec c 0) as [->|Hnz].
    + split; [by right|]. split; [discriminate|].
      intros (i & c & Hi & Hc128 & Hbefore). destruct i as [|i].
      * injection Hi as <-. lia.
      * specialize (Hbefore 0 ltac:(lia)). by cbn in Hbefore.
    + destruct (Z.ltb_spec c 128) as [Hlow|Hhigh]; cbn [negb].
      * split; [exact Hval|]. rewrite IH. split.
        -- intros (i & c' & Hi & Hc' & Hbefore). exists (S i), c'.
           split; [done|]. split; [done|]. intros [|j] Hj; [done|].
           apply (Hbefore j). lia.
        -- intros (i & c' & Hi & Hc' & Hbefore). destruct i as [|i].
           ++ injection Hi as <-. lia.
           ++ exists i, c'. split; [done|]. split; [done|].
              intros j Hj. apply (Hbefore (S j)). lia.
      * split; [by left|]. split; [|done]. intros _. exists 0, c.
        split; [done|]. split; [done|]. intros j Hj. lia.
Qed.

(** ** The statistics of the requests *)

Create HintDb requests discriminated.
Create HintDb no_extrapoll discriminated.

Section Faked.
Context `{Sha1} (E : environment).

Lemma quick_is_initialize q : always (quick_is q) (initialize E).
Proof.
  unfold initialize, initialize_basics, lock_pool, unlock_pool, locked, released.
  always_go ltac:(inv_leaf (quick_is q) I I I I I) idtac.
Qed.

(** X27.  [_gcry_rngcsprng_is_faked] returns the value of [quick_test],
    after a full initialization that is fatal when the pools are not yet
    allocated and no module to gather entropy is found. *)
Theorem is_faked_reports_quick_test s :
  (_gcry_rngcsprng_is_faked E s).1 =
    if rndpool_set s || env_gather_module E (tick s)
    then Val (quick_test s) else Fatal Fatal_no_gather_module.
Proof.
  unfold _gcry_rngcsprng_is_faked, bind.
  pose proof (initialize_result E s) as Hinit.
  pose proof (quick_is_initialize (quick_test s) s eq_refl) as Hq.
  destruct (initialize E s) as [[[]|why|] s1]; cbn [fst snd] in *;
    destruct (_ || _); try discriminate Hinit.
  - unfold gets. cbn [fst]. by rewrite Hq.
  - by injection Hinit as ->.
Qed.

End Faked.

Section Requests.
Context `{Sha1} (E : environment).
Implicit Type v : Z * Z * Z * Z.

Lemma add_loop_requests bytes : forall count origin s,
  requests (add_loop bytes count origin s) = requests s.
Proof.
  induction bytes as [|b rest IH]; intros count origin s; [done|].
  cbn [add_loop]. case_match; rewrite IH; [|done].
  unfold credit_fill. by repeat case_match.
Qed.

Lemma requests_add_randomness v b o s :
  requests_are v s -> requests_are v (add_randomness b o s).
Proof.
  unfold requests_are. intros <-. unfold add_randomness. by rewrite add_loop_requests.
Qed.

Lemma requests_add_each v c o s : requests_are v s -> requests_are v (add_each c o s).
Proof.
  revert s. induction c as [|b c IH]; intros s Hs; [done|].
  unfold add_each. cbn [foldl]. apply IH. by apply requests_add_randomness.
Qed.

Lemma requests_mix_pool v p s : requests_are v s -> requests_are v (mix_pool p s).
Proof. intros Hs. by destruct p. Qed.

Lemma requests_create_keypool v s :
  requests_are v s -> requests_are v (create_keypool s).
Proof. intros Hs. exact Hs. Qed.

Lemma requests_deliver v k : forall buffer p length s,
  requests_are v s -> requests_are v (deliver k buffer p length s).2.
Proof.
  induction k as [|k IH]; intros buffer p length s Hs; [done|].
  cbn [deliver]. apply IH. by case_match.
Qed.

(** The counters that are bumped on the way are other ones. *)
Ltac requests_leaf v :=
  inv_leaf (requests_are v) (requests_add_randomness v) (requests_add_each v)
    (requests_mix_pool v) I (requests_create_keypool v).

Lemma requests_read_random_source v origin length level :
  always (requests_are v) (read_random_source E origin length level).
Proof. unfold read_random_source. always_go ltac:(requests_leaf v) ltac:(auto with requests). Qed.
#[local] Hint Resolve requests_read_random_source : requests.

Lemma requests_random_poll v :
  always (requests_are v) (random_poll E).
Proof. unfold random_poll. always_go ltac:(requests_leaf v) ltac:(auto with requests). Qed.
#[local] Hint Resolve requests_random_poll : requests.

Lemma requests_do_fast_random_poll v :
  always (requests_are v) (do_fast_random_poll E).
Proof. unfold do_fast_random_poll. always_go ltac:(requests_leaf v) ltac:(auto with requests). Qed.
#[local] Hint Resolve requests_do_fast_random_poll : requests.

Lemma requests_read_seed_file v :
  always (requests_are v) (read_seed_file E).
Proof. unfold read_seed_file. always_go ltac:(requests_leaf v) ltac:(auto with requests). Qed.
#[local] Hint Resolve requests_read_seed_file : requests.

Lemma requests_fork_check v :
  always (requests_are v) (fork_check E).
Proof. unfold fork_check. always_go ltac:(requests_leaf v) ltac:(auto with requests). Qed.
#[local] Hint Resolve requests_fork_check : requests.

Lemma requests_seed_on_demand v :
  always (requests_are v) (seed_on_demand E).
Proof. unfold seed_on_demand. always_go ltac:(requests_leaf v) ltac:(auto with requests). Qed.
#[local] Hint Resolve requests_seed_on_demand : requests.

Lemma requests_initial_extra_seeding v length level :
  always (requests_are v) (initial_extra_seeding E length level).
Proof. unfold initial_extra_seeding. always_go ltac:(requests_leaf v) ltac:(auto with requests). Qed.
#[local] Hint Resolve requests_initial_extra_seeding : requests.

Lemma requests_balance_topup v length level :
  always (requests_are v) (balance_topup E length level).
Proof. unfold balance_topup. always_go ltac:(requests_leaf v) ltac:(auto with requests). Qed.
#[local] Hint Resolve requests_balance_topup : requests.

Lemma requests_fill_pool v fuel :
  always (requests_are v) (fill_pool E fuel).
Proof. induction fuel as [|fuel IH]; cbn [fill_pool]; always_go ltac:(requests_leaf v) ltac:(auto with requests). Qed.
#[local] Hint Resolve requests_fill_pool : requests.

Lemma requests_add_own_pid v :
  always (requests_are v) (add_own_pid).
Proof. unfold add_own_pid. always_go ltac:(requests_leaf v) ltac:(auto with requests). Qed.
#[local] Hint Resolve requests_add_own_pid : requests.

Lemma requests_mix_if_needed v :
  always (requests_are v) (mix_if_needed).
Proof. unfold mix_if_needed. always_go ltac:(requests_leaf v) ltac:(auto with requests). Qed.
#[local] Hint Resolve requests_mix_if_needed : requests.

Lemma requests_read_pool_seeding v length level :
  always (requests_are v) (read_pool_seeding E length level).
Proof. unfold read_pool_seeding. always_go ltac:(requests_leaf v) ltac:(auto with requests). Qed.
#[local] Hint Resolve requests_read_pool_seeding : requests.

Lemma requests_read_pool_stirring v :
  always (requests_are v) (read_pool_stirring E).
Proof. unfold read_pool_stirring. always_go ltac:(requests_leaf v) ltac:(auto with requests). Qed.
#[local] Hint Resolve requests_read_pool_stirring : requests.

Lemma requests_read_pool v fuel buffer p length level :
  always (requests_are v) (read_pool E fuel buffer p length level).
Proof.
  revert buffer p length.
  induction fuel as [|fuel IH]; intros buffer p length; cbn [read_pool];
    unfold add_own_pid, mix_if_needed.
  all: always_go ltac:(requests_leaf v) ltac:(auto with requests).
  all: try (intros s Hs;
            pose proof (requests_deliver v (Z.to_nat length) buffer p length s Hs) as Hd;
            destruct (deliver (Z.to_nat length) buffer p length s) as [[[? ?] ?] ?];
            exact Hd).
Qed.
#[local] Hint Resolve requests_read_pool : requests.

Lemma requests_randomize_loop v rounds fuel : forall buffer p length level,
  always (requests_are v) (randomize_loop E rounds fuel buffer p length level).
Proof.
  induction rounds as [|rounds IH]; intros buffer p length level; cbn [randomize_loop];
    always_go ltac:(requests_leaf v) ltac:(auto with requests).
Qed.

(** X18.  A request that [_gcry_rngcsprng_randomize] serves is counted
    once and under one level only: at the level 2 (after masking and
    the quick-test degradation) [getbytes2] grows by the length and
    [ngetbytes2] by one, otherwise [getbytes1] and [ngetbytes1] do; the
    other pair is unchanged, however many rounds the request takes. *)
Theorem randomize_counts_the_request fuel buffer len level s out s' :
  _gcry_rngcsprng_randomize E fuel buffer len level s = (Val out, s') ->
  let level := Z.land (if quick_test s && (level >? GCRY_STRONG_RANDOM)%Z
                       then GCRY_STRONG_RANDOM else level) 3 in
  let st := rndstats s in
  requests s' =
    if (level >=? GCRY_VERY_STRONG_RANDOM)%Z
    then (getbytes1 st, ngetbytes1 st,
          wrap64 (getbytes2 st + len), wrap64 (ngetbytes2 st + 1))
    else (wrap64 (getbytes1 st + len), wrap64 (ngetbytes1 st + 1),
          getbytes2 st, ngetbytes2 st).
Proof.
  intros Hrun. cbv zeta. unfold _gcry_rngcsprng_randomize in Hrun.
  apply bind_Val in Hrun as ([] & s1 & Hinit & Hrun).
  pose proof (quick_is_initialize E (quick_test s) s eq_refl) as Hq.
  assert (Hr1 : requests s1 = requests s).
  { assert (Ha : always (requests_are (requests s)) (initialize E)).
    { unfold initialize, initialize_basics, lock_pool, unlock_pool, locked, released.
      always_go ltac:(requests_leaf (requests s)) idtac. }
    specialize (Ha s eq_refl). by rewrite Hinit in Ha. }
  rewrite Hinit in Hq. cbn [snd] in Hq. unfold quick_is in Hq.
  rewrite bind_gets, Hq in Hrun.
  set (lvl := Z.land _ 3) in *. clearbody lvl.
  unfold lock_pool at 1 in Hrun. rewrite bind_modify in Hrun.
  apply bind_Val in Hrun as ([] & s3 & Hcount & Hrun).
  apply bind_Val in Hrun as (b & s4 & Hloop & Hrun).
  unfold unlock_pool in Hrun. rewrite bind_modify in Hrun. injection Hrun as <- <-.
  assert (Hr4 : requests s4 = requests s3).
  { pose proof (requests_randomize_loop (requests s3) (Z.to_nat len) fuel buffer 0 len lvl
                  s3 eq_refl) as Ha.
    by rewrite Hloop in Ha. }
  change (requests (released s4)) with (requests s4). rewrite Hr4.
  unfold requests in Hr1. injection Hr1 as H1 H2 H3 H4.
  rewrite <- H1, <- H2, <- H3, <- H4.
  destruct (lvl >=? GCRY_VERY_STRONG_RANDOM)%Z; injection Hcount as <-; reflexivity.
Qed.

End Requests.

(** ** Extra polls *)

Section ExtraPoll.
Context `{Sha1} (E : environment).

Lemma no_extrapoll_same s s' :
  no_extrapoll s -> gather_log s' = gather_log s -> no_extrapoll s'.
Proof. unfold no_extrapoll. by intros Hs ->. Qed.

Lemma no_extrapoll_add_randomness b o s :
  no_extrapoll s -> no_extrapoll (add_randomness b o s).
Proof.
  intros Hs. apply (no_extrapoll_same s); [done|]. apply add_randomness_gather_log.
Qed.

Lemma no_extrapoll_add_each c o s : no_extrapoll s -> no_extrapoll (add_each c o s).
Proof.
  intros Hs. apply (no_extrapoll_same s); [done|].
  pose proof (add_each_bystanders c o s) as Hb.
  unfold bystanders in Hb. injection Hb. intros. congruence.
Qed.

Lemma no_extrapoll_mix_pool p s : no_extrapoll s -> no_extrapoll (mix_pool p s).
Proof. intros Hs. by destruct p. Qed.

Lemma no_extrapoll_bump get set d s : no_extrapoll s -> no_extrapoll (bump get set d s).
Proof. intros Hs. exact Hs. Qed.

Lemma no_extrapoll_create_keypool s : no_extrapoll s -> no_extrapoll (create_keypool s).
Proof. intros Hs. exact Hs. Qed.

Lemma no_extrapoll_deliver k : forall buffer p length s,
  no_extrapoll s -> no_extrapoll (deliver k buffer p length s).2.
Proof.
  induction k as [|k IH]; intros buffer p length s Hs; [done|].
  cbn [deliver]. apply IH. by case_match.
Qed.

Ltac no_extrapoll_leaf :=
  inv_leaf no_extrapoll no_extrapoll_add_randomness no_extrapoll_add_each
    no_extrapoll_mix_pool no_extrapoll_bump no_extrapoll_create_keypool.

Lemma no_extrapoll_read_random_source origin length level :
  origin <> RANDOM_ORIGIN_EXTRAPOLL ->
  always no_extrapoll (read_random_source E origin length level).
Proof.
  intros Ho. unfold read_random_source. always_go ltac:(no_extrapoll_leaf) idtac.
  unfold no_extrapoll in *. cbn [gather_log set_gather_log].
  apply Forall_app. split; [done|]. by constructor.
Qed.

Ltac no_extrapoll_known :=
  first [ solve [auto with no_extrapoll]
        | apply no_extrapoll_read_random_source; discriminate ].

Lemma no_extrapoll_random_poll : always no_extrapoll (random_poll E).
Proof.
  unfold random_poll. always_go ltac:(no_extrapoll_leaf) ltac:(no_extrapoll_known).
Qed.
#[local] Hint Resolve no_extrapoll_random_poll : no_extrapoll.

Lemma no_extrapoll_do_fast_random_poll : always no_extrapoll (do_fast_random_poll E).
Proof.
  unfold do_fast_random_poll.
  always_go ltac:(no_extrapoll_leaf) ltac:(no_extrapoll_known).
Qed.
#[local] Hint Resolve no_extrapoll_do_fast_random_poll : no_extrapoll.

Lemma no_extrapoll_read_seed_file : always no_extrapoll (read_seed_file E).
Proof.
  unfold read_seed_file. always_go ltac:(no_extrapoll_leaf) ltac:(no_extrapoll_known).
Qed.
#[local] Hint Resolve no_extrapoll_read_seed_file : no_extrapoll.

Lemma no_extrapoll_fork_check : always no_extrapoll (fork_check E).
Proof.
  unfold fork_check. always_go ltac:(no_extrapoll_leaf) ltac:(no_extrapoll_known).
Qed.
#[local] Hint Resolve no_extrapoll_fork_check : no_extrapoll.

Lemma no_extrapoll_seed_on_demand : always no_extrapoll (seed_on_demand E).
Proof.
  unfold seed_on_demand. always_go ltac:(no_extrapoll_leaf) ltac:(no_extrapoll_known).
Qed.
#[local] Hint Resolve no_extrapoll_seed_on_demand : no_extrapoll.

Lemma no_extrapoll_fill_pool fuel : always no_extrapoll (fill_pool E fuel).
Proof.
  induction fuel as [|fuel IH]; cbn [fill_pool];
    always_go ltac:(no_extrapoll_leaf) ltac:(no_extrapoll_known).
Qed.
#[local] Hint Resolve no_extrapoll_fill_pool : no_extrapoll.

(** Below the very strong level the two blocks for it are skipped. *)
Lemma initial_extra_seeding_skipped length level :
  level <> GCRY_VERY_STRONG_RANDOM ->
  always no_extrapoll (initial_extra_seeding E length level).
Proof.
  intros Hl. unfold initial_extra_seeding.
  rewrite (proj2 (Z.eqb_neq level GCRY_VERY_STRONG_RANDOM)) by done.
  cbn [andb]. always_go idtac idtac.
Qed.

Lemma balance_topup_skipped length level :
  level <> GCRY_VERY_STRONG_RANDOM ->
  always no_extrapoll (balance_topup E length level).
Proof.
  intros Hl. unfold balance_topup.
  rewrite (proj2 (Z.eqb_neq level GCRY_VERY_STRONG_RANDOM)) by done.
  cbn [andb]. always_go idtac idtac.
Qed.

Lemma no_extrapoll_read_pool level fuel :
  level <> GCRY_VERY_STRONG_RANDOM ->
  forall buffer p length,
    always no_extrapoll (read_pool E fuel buffer p length level).
Proof.
  intros Hl.
  induction fuel as [|fuel IH]; intros buffer p length; cbn [read_pool];
    unfold add_own_pid, mix_if_needed.
  all: always_go ltac:(no_extrapoll_leaf)
         ltac:(first [ no_extrapoll_known
                     | by apply initial_extra_seeding_skipped
                     | by apply balance_topup_skipped ]).
  all: try (intros s Hs;
            pose proof (no_extrapoll_deliver (Z.to_nat length) buffer p length s Hs) as Hd;
            destruct (deliver (Z.to_nat length) buffer p length s) as [[[? ?] ?] ?];
            exact Hd).
Qed.

(** X28.  A [read_pool] at a level other than [GCRY_VERY_STRONG_RANDOM]
    never asks the slow gatherer for bytes of the origin
    [RANDOM_ORIGIN_EXTRAPOLL], whether it returns or not. *)
Theorem only_very_strong_requests_poll_extra fuel buffer p length level s :
  level <> GCRY_VERY_STRONG_RANDOM ->
  Forall (fun r : gather_request => r.1.1 <> RANDOM_ORIGIN_EXTRAPOLL) (gather_log s) ->
  Forall (fun r : gather_request => r.1.1 <> RANDOM_ORIGIN_EXTRAPOLL)
    (gather_log (read_pool E fuel buffer p length level s).2).
Proof. intros Hl Hs. by apply no_extrapoll_read_pool. Qed.

End ExtraPoll.

(** ** The quick generator *)

Create HintDb quick discriminated.

Section QuickTest.
Context `{Sha1} (E : environment).

Lemma add_loop_quick bytes : forall count origin s,
  quick_test (add_loop bytes count origin s) = quick_test s.
Proof.
  induction bytes as [|b rest IH]; intros count origin s; [done|].
  cbn [add_loop]. case_match; rewrite IH; [|done].
  unfold credit_fill. by repeat case_match.
Qed.

Lemma quick_kept_add_randomness q b o s : quick_is q s -> quick_is q (add_randomness b o s).
Proof.
  unfold quick_is. intros <-. unfold add_randomness. by rewrite add_loop_quick.
Qed.

Lemma quick_kept_add_each q c o s : quick_is q s -> quick_is q (add_each c o s).
Proof.
  revert s. induction c as [|b c IH]; intros s Hs; [done|].
  unfold add_each. cbn [foldl]. apply IH. by apply quick_kept_add_randomness.
Qed.

Lemma quick_kept_mix_pool q p s : quick_is q s -> quick_is q (mix_pool p s).
Proof. intros Hs. by destruct p. Qed.

Lemma quick_kept_create_keypool q s : quick_is q s -> quick_is q (create_keypool s).
Proof. intros Hs. exact Hs. Qed.

Lemma quick_kept_deliver q k : forall buffer p length s,
  quick_is q s -> quick_is q (deliver k buffer p length s).2.
Proof.
  induction k as [|k IH]; intros buffer p length s Hs; [done|].
  cbn [deliver]. apply IH. by case_match.
Qed.

Ltac quick_leaf q :=
  inv_leaf (quick_is q) (quick_kept_add_randomness q) (quick_kept_add_each q)
    (quick_kept_mix_pool q) I (quick_kept_create_keypool q).

Lemma quick_kept_read_random_source q origin length level :
  always (quick_is q) (read_random_source E origin length level).
Proof. unfold read_random_source. always_go ltac:(quick_leaf q) ltac:(auto with quick). Qed.
#[local] Hint Resolve quick_kept_read_random_source : quick.

Lemma quick_kept_random_poll q :
  always (quick_is q) (random_poll E).
Proof. unfold random_poll. always_go ltac:(quick_leaf q) ltac:(auto with quick). Qed.
#[local] Hint Resolve quick_kept_random_poll : quick.

Lemma quick_kept_do_fast_random_poll q :
  always (quick_is q) (do_fast_random_poll E).
Proof. unfold do_fast_random_poll. always_go ltac:(quick_leaf q) ltac:(auto with quick). Qed.
#[local] Hint Resolve quick_kept_do_fast_random_poll : quick.

Lemma quick_kept_read_seed_file q :
  always (quick_is q) (read_seed_file E).
Proof. unfold read_seed_file. always_go ltac:(quick_leaf q) ltac:(auto with quick). Qed.
#[local] Hint Resolve quick_kept_read_seed_file : quick.

Lemma quick_kept_fork_check q :
  always (quick_is q) (fork_check E).
Proof. unfold fork_check. always_go ltac:(quick_leaf q) ltac:(auto with quick). Qed.
#[local] Hint Resolve quick_kept_fork_check : quick.

Lemma quick_kept_seed_on_demand q :
  always (quick_is q) (seed_on_demand E).
Proof. unfold seed_on_demand. always_go ltac:(quick_leaf q) ltac:(auto with quick). Qed.
#[local] Hint Resolve quick_kept_seed_on_demand : quick.

Lemma quick_kept_initial_extra_seeding q length level :
  always (quick_is q) (initial_extra_seeding E length level).
Proof. unfold initial_extra_seeding. always_go ltac:(quick_leaf q) ltac:(auto with quick). Qed.
#[local] Hint Resolve quick_kept_initial_extra_seeding : quick.

Lemma quick_kept_balance_topup q length level :
  always (quick_is q) (balance_topup E length level).
Proof. unfold balance_topup. always_go ltac:(quick_leaf q) ltac:(auto with quick). Qed.
#[local] Hint Resolve quick_kept_balance_topup : quick.

Lemma quick_kept_fill_pool q fuel :
  always (quick_is q) (fill_pool E fuel).
Proof. induction fuel as [|fuel IH]; cbn [fill_pool]; always_go ltac:(quick_leaf q) ltac:(auto with quick). Qed.
#[local] Hint Resolve quick_kept_fill_pool : quick.

Lemma quick_kept_add_own_pid q :
  always (quick_is q) (add_own_pid).
Proof. unfold add_own_pid. always_go ltac:(quick_leaf q) ltac:(auto with quick). Qed.
#[local] Hint Resolve quick_kept_add_own_pid : quick.

Lemma quick_kept_mix_if_needed q :
  always (quick_is q) (mix_if_needed).
Proof. unfold mix_if_needed. always_go ltac:(quick_leaf q) ltac:(auto with quick). Qed.
#[local] Hint Resolve quick_kept_mix_if_needed : quick.

Lemma quick_kept_read_pool_seeding q length level :
  always (quick_is q) (read_pool_seeding E length level).
Proof. unfold read_pool_seeding. always_go ltac:(quick_leaf q) ltac:(auto with quick). Qed.
#[local] Hint Resolve quick_kept_read_pool_seeding : quick.

Lemma quick_kept_read_pool_stirring q :
  always (quick_is q) (read_pool_stirring E).
Proof. unfold read_pool_stirring. always_go ltac:(quick_leaf q) ltac:(auto with quick). Qed.
#[local] Hint Resolve quick_kept_read_pool_stirring : quick.

Lemma quick_kept_read_pool q fuel buffer p length level :
  always (quick_is q) (read_pool E fuel buffer p length level).
Proof.
  revert buffer p length.
  induction fuel as [|fuel IH]; intros buffer p length; cbn [read_pool];
    unfold add_own_pid, mix_if_needed.
  all: always_go ltac:(quick_leaf q) ltac:(auto with quick).
  all: try (intros s Hs;
            pose proof (quick_kept_deliver q (Z.to_nat length) buffer p length s Hs) as Hd;
            destruct (deliver (Z.to_nat length) buffer p length s) as [[[? ?] ?] ?];
            exact Hd).
Qed.
#[local] Hint Resolve quick_kept_read_pool : quick.

Lemma quick_kept_lock_pool q :
  always (quick_is q) (lock_pool).
Proof. unfold lock_pool, locked. always_go ltac:(quick_leaf q) ltac:(auto with quick). Qed.
#[local] Hint Resolve quick_kept_lock_pool : quick.

Lemma quick_kept_unlock_pool q :
  always (quick_is q) (unlock_pool).
Proof. unfold unlock_pool, released. always_go ltac:(quick_leaf q) ltac:(auto with quick). Qed.
#[local] Hint Resolve quick_kept_unlock_pool : quick.

Lemma quick_kept_initialize_basics q :
  always (quick_is q) (initialize_basics).
Proof. unfold initialize_basics. always_go ltac:(quick_leaf q) ltac:(auto with quick). Qed.
#[local] Hint Resolve quick_kept_initialize_basics : quick.

Lemma quick_kept_initialize q :
  always (quick_is q) (initialize E).
Proof. unfold initialize. always_go ltac:(quick_leaf q) ltac:(auto with quick). Qed.
#[local] Hint Resolve quick_kept_initialize : quick.

Lemma quick_kept_close_fds q :
  always (quick_is q) (_gcry_rngcsprng_close_fds).
Proof. unfold _gcry_rngcsprng_close_fds. always_go ltac:(quick_leaf q) ltac:(auto with quick). Qed.
#[local] Hint Resolve quick_kept_close_fds : quick.

Lemma quick_kept_is_faked q :
  always (quick_is q) (_gcry_rngcsprng_is_faked E).
Proof. unfold _gcry_rngcsprng_is_faked. always_go ltac:(quick_leaf q) ltac:(auto with quick). Qed.
#[local] Hint Resolve quick_kept_is_faked : quick.

Lemma quick_kept_add_bytes_loop q rounds bufptr :
  always (quick_is q) (add_bytes_loop rounds bufptr).
Proof. revert bufptr. induction rounds as [|rounds IH]; intros bufptr; cbn [add_bytes_loop]; always_go ltac:(quick_leaf q) ltac:(auto with quick). Qed.
#[local] Hint Resolve quick_kept_add_bytes_loop : quick.

Lemma quick_kept_add_bytes q buf quality :
  always (quick_is q) (_gcry_rngcsprng_add_bytes buf quality).
Proof. unfold _gcry_rngcsprng_add_bytes. always_go ltac:(quick_leaf q) ltac:(auto with quick). Qed.
#[local] Hint Resolve quick_kept_add_bytes : quick.

Lemma quick_kept_randomize_loop q rounds fuel buffer p length level :
  always (quick_is q) (randomize_loop E rounds fuel buffer p length level).
Proof. revert buffer p length. induction rounds as [|rounds IH]; intros buffer p length; cbn [randomize_loop]; always_go ltac:(quick_leaf q) ltac:(auto with quick). Qed.
#[local] Hint Resolve quick_kept_randomize_loop : quick.

Lemma quick_kept_randomize q fuel buffer length level :
  always (quick_is q) (_gcry_rngcsprng_randomize E fuel buffer length level).
Proof. unfold _gcry_rngcsprng_randomize. always_go ltac:(quick_leaf q) ltac:(auto with quick). Qed.
#[local] Hint Resolve quick_kept_randomize : quick.

Lemma quick_kept_set_seed_file q name :
  always (quick_is q) (_gcry_rngcsprng_set_seed_file name).
Proof. unfold _gcry_rngcsprng_set_seed_file. always_go ltac:(quick_leaf q) ltac:(auto with quick). Qed.
#[local] Hint Resolve quick_kept_set_seed_file : quick.

Lemma quick_kept_update_seed_file q :
  always (quick_is q) (_gcry_rngcsprng_update_seed_file).
Proof. unfold _gcry_rngcsprng_update_seed_file. always_go ltac:(quick_leaf q) ltac:(auto with quick). Qed.
#[local] Hint Resolve quick_kept_update_seed_file : quick.

Lemma quick_kept_fast_poll q :
  always (quick_is q) (_gcry_rngcsprng_fast_poll E).
Proof. unfold _gcry_rngcsprng_fast_poll. always_go ltac:(quick_leaf q) ltac:(auto with quick). Qed.
#[local] Hint Resolve quick_kept_fast_poll : quick.

Lemma quick_kept_run_call q fuel c :
  c <> Call_enable_quick_gen -> always (quick_is q) (run_call E fuel c).
Proof.
  intros Hc. destruct c; [ | | done | ..]; cbn [run_call];
    unfold ignore, _gcry_rngcsprng_initialize;
    always_go ltac:(quick_leaf q) ltac:(auto with quick).
Qed.

(** X29.  Of the public functions only [_gcry_rngcsprng_enable_quick_gen]
    changes [quick_test], and it sets it: every other call leaves the
    flag as it found it, so that the quick generator cannot be switched
    off again. *)
Theorem only_enable_quick_gen_changes_quick_test fuel c s :
  quick_test (run_call E fuel c s).2 =
    match c with Call_enable_quick_gen => true | _ => quick_test s end.
Proof.
  destruct c; try (by apply (quick_kept_run_call (quick_test s))). reflexivity.
Qed.

End QuickTest.

(** ** The properties at concrete inputs *)

Lemma mix_pool_begins_with_tail_and_head_witness :
  length ramp = POOLSIZE + BLOCKLEN /\
  let block := read_bytes ramp (POOLSIZE - DIGESTLEN) DIGESTLEN
                 ++ read_bytes ramp 0 (BLOCKLEN - DIGESTLEN) in
  let r := @mix_first stub_sha1 tt ramp in
  r.1 = (@sha1_mixblock stub_sha1 tt block).1 /\
  read_bytes r.2 0 DIGESTLEN = (@sha1_mixblock stub_sha1 tt block).2 /\
  forall j, DIGESTLEN <= j < POOLSIZE -> peek r.2 j = peek ramp j.
Proof.
  split; [reflexivity|].
  apply (@mix_pool_begins_with_tail_and_head stub_sha1 tt ramp). reflexivity.
Defined.

Lemma mix_pool_leaves_the_digests_witness :
  length ramp = POOLSIZE + BLOCKLEN /\ 1 <= 2 < POOLBLOCKS /\
  let start := @mix_start stub_sha1 None ramp in
  let st := @mix_rounds stub_sha1 (2 - 1) start.1 start.2 in
  read_bytes (@mix_bytes stub_sha1 None ramp) (2 * DIGESTLEN) DIGESTLEN
  = (@sha1_mixblock stub_sha1 st.1.1 (wrap_read st.1.2 ((2 - 1) * DIGESTLEN))).2.
Proof.
  split; [reflexivity|]. split; [pool_consts; lia|].
  apply (@mix_pool_leaves_the_digests stub_sha1 None ramp 2);
    [reflexivity | pool_consts; lia].
Defined.

Lemma add_randomness_below_the_end_witness :
  pool_writepos ready_state + length (replicate 10 1%Z) < POOLSIZE /\
  let s' := @add_randomness stub_sha1 (replicate 10 1%Z) RANDOM_ORIGIN_SLOWPOLL
              ready_state in
  rndpool s' = xor_into (rndpool ready_state) (pool_writepos ready_state)
                 (replicate 10 1%Z) /\
  pool_writepos s' = pool_writepos ready_state + length (replicate 10 1%Z) /\
  pool_filled s' = pool_filled ready_state /\
  pool_filled_counter s' = pool_filled_counter ready_state /\
  just_mixed s' = just_mixed ready_state /\
  mixrnd (rndstats s') = mixrnd (rndstats ready_state).
Proof.
  assert (Hw : pool_writepos ready_state + length (replicate 10 1%Z) < POOLSIZE)
    by (apply Nat.ltb_lt; vm_compute; reflexivity).
  split; [exact Hw|].
  exact (@add_randomness_below_the_end stub_sha1 _ RANDOM_ORIGIN_SLOWPOLL _ Hw).
Defined.


Lemma wrap_credits_the_bytes_of_this_buffer_witness :
  pool_writepos ready_state < POOLSIZE /\
  POOLSIZE <= pool_writepos ready_state + length (replicate 700 0x5A%Z)
    < 2 * POOLSIZE /\
  (origin_value RANDOM_ORIGIN_SLOWPOLL <= origin_value RANDOM_ORIGIN_SLOWPOLL)%Z /\
  pool_filled ready_state = false /\
  (0 <= pool_filled_counter ready_state)%Z /\
  (pool_filled_counter ready_state + Z.of_nat POOLSIZE < 2 ^ 64)%Z /\
  let s' := @add_randomness stub_sha1 (replicate 700 0x5A%Z) RANDOM_ORIGIN_SLOWPOLL
              ready_state in
  let credit := Z.of_nat (POOLSIZE - pool_writepos ready_state) in
  pool_filled_counter s' = (pool_filled_counter ready_state + credit)%Z /\
  pool_filled s'
  = bool_decide (Z.of_nat POOLSIZE <= pool_filled_counter ready_state + credit)%Z.
Proof.
  assert (Hw : pool_writepos ready_state < POOLSIZE)
    by (apply Nat.ltb_lt; vm_compute; reflexivity).
  assert (Hr : POOLSIZE <= pool_writepos ready_state + length (replicate 700 0x5A%Z)
               < 2 * POOLSIZE)
    by (split; [apply Nat.leb_le | apply Nat.ltb_lt]; vm_compute; reflexivity).
  assert (Ho : (origin_value RANDOM_ORIGIN_SLOWPOLL
                <= origin_value RANDOM_ORIGIN_SLOWPOLL)%Z) by lia.
  assert (Hf : pool_filled ready_state = false) by (vm_compute; reflexivity).
  assert (Hc : (0 <= pool_filled_counter ready_state)%Z)
    by (apply Z.leb_le; vm_compute; reflexivity).
  assert (Hb : (pool_filled_counter ready_state + Z.of_nat POOLSIZE < 2 ^ 64)%Z)
    by (apply Z.ltb_lt; vm_compute; reflexivity).
  split; [exact Hw|]. split; [exact Hr|]. split; [exact Ho|]. split; [exact Hf|].
  split; [exact Hc|]. split; [exact Hb|].
  exact (@wrap_credits_the_bytes_of_this_buffer stub_sha1 _ _ _ Hw Hr Ho Hf Hc Hb).
Defined.

Lemma fast_poll_is_idle_before_initialization_witness :
  rndpool_set initial_state = false /\
  @_gcry_rngcsprng_fast_poll stub_sha1 quiet_env initial_state
  = (Val tt, released (locked initial_state)).
Proof.
  split; [reflexivity|].
  apply (@fast_poll_is_idle_before_initialization stub_sha1 quiet_env). reflexivity.
Defined.

Lemma read_pool_rejects_oversize_witness :
  (Z.of_nat POOLSIZE < 601)%Z /\
  (@read_pool stub_sha1 quiet_env 1 (replicate 601 0%Z) 0 601 GCRY_STRONG_RANDOM
     ready_state).1 = Fatal Bug_too_many_random_bits.
Proof.
  split; [pool_consts; lia|].
  apply (@read_pool_rejects_oversize stub_sha1 quiet_env 1). pool_consts. lia.
Defined.

Lemma read_pool_returns_with_a_filled_pool_witness :
  (0 <= 32)%Z /\
  @read_pool stub_sha1 quiet_env 1 (replicate 32 0%Z) 0 32 GCRY_STRONG_RANDOM ready_state
  = (Val (replicate 32 255%Z),
     (@read_pool stub_sha1 quiet_env 1 (replicate 32 0%Z) 0 32 GCRY_STRONG_RANDOM
        ready_state).2) /\
  pool_filled (@read_pool stub_sha1 quiet_env 1 (replicate 32 0%Z) 0 32
                 GCRY_STRONG_RANDOM ready_state).2 = true.
Proof.
  assert (Hl : (0 <= 32)%Z) by lia.
  assert (Hrun : @read_pool stub_sha1 quiet_env 1 (replicate 32 0%Z) 0 32
                   GCRY_STRONG_RANDOM ready_state
    = (Val (replicate 32 255%Z),
       (@read_pool stub_sha1 quiet_env 1 (replicate 32 0%Z) 0 32 GCRY_STRONG_RANDOM
          ready_state).2))
    by (vm_compute; reflexivity).
  split; [exact Hl|]. split; [exact Hrun|].
  exact (@read_pool_returns_with_a_filled_pool stub_sha1 quiet_env 1 _ _ _ _ _ _ _
           Hl Hrun).
Defined.

Lemma read_pool_writes_only_what_was_asked_witness :
  (0 <= 8)%Z /\
  @read_pool stub_sha1 quiet_env 1 (replicate 12 0%Z) 2 8 GCRY_STRONG_RANDOM ready_state
  = (Val ([0; 0] ++ replicate 8 255 ++ [0; 0])%Z,
     (@read_pool stub_sha1 quiet_env 1 (replicate 12 0%Z) 2 8 GCRY_STRONG_RANDOM
        ready_state).2) /\
  length ([0; 0] ++ replicate 8 255 ++ [0; 0])%Z = length (replicate 12 0%Z) /\
  forall j, ~ (2 <= j < 2 + Z.to_nat 8) ->
    ([0; 0] ++ replicate 8 255 ++ [0; 0])%Z !! j = replicate 12 0%Z !! j.
Proof.
  assert (Hl : (0 <= 8)%Z) by lia.
  assert (Hrun : @read_pool stub_sha1 quiet_env 1 (replicate 12 0%Z) 2 8
                   GCRY_STRONG_RANDOM ready_state
    = (Val ([0; 0] ++ replicate 8 255 ++ [0; 0])%Z,
       (@read_pool stub_sha1 quiet_env 1 (replicate 12 0%Z) 2 8 GCRY_STRONG_RANDOM
          ready_state).2))
    by (vm_compute; reflexivity).
  split; [exact Hl|]. split; [exact Hrun|].
  exact (@read_pool_writes_only_what_was_asked stub_sha1 quiet_env 1 _ _ _ _ _ _ _
           Hl Hrun).
Defined.

Lemma read_pool_moves_the_read_cursor_witness :
  (0 <= 48)%Z /\
  pool_readpos ready_state < POOLSIZE /\
  @read_pool stub_sha1 quiet_env 1 (replicate 48 0%Z) 0 48 GCRY_STRONG_RANDOM ready_state
  = (Val (replicate 48 255%Z),
     (@read_pool stub_sha1 quiet_env 1 (replicate 48 0%Z) 0 48 GCRY_STRONG_RANDOM
        ready_state).2) /\
  pool_readpos (@read_pool stub_sha1 quiet_env 1 (replicate 48 0%Z) 0 48
                  GCRY_STRONG_RANDOM ready_state).2
  = (pool_readpos ready_state + Z.to_nat 48) mod POOLSIZE.
Proof.
  assert (Hl : (0 <= 48)%Z) by lia.
  assert (Hp : pool_readpos ready_state < POOLSIZE)
    by (apply Nat.ltb_lt; vm_compute; reflexivity).
  assert (Hrun : @read_pool stub_sha1 quiet_env 1 (replicate 48 0%Z) 0 48
                   GCRY_STRONG_RANDOM ready_state
    = (Val (replicate 48 255%Z),
       (@read_pool stub_sha1 quiet_env 1 (replicate 48 0%Z) 0 48 GCRY_STRONG_RANDOM
          ready_state).2))
    by (vm_compute; reflexivity).
  split; [exact Hl|]. split; [exact Hp|]. split; [exact Hrun|].
  exact (@read_pool_moves_the_read_cursor stub_sha1 quiet_env 1 _ _ _ _ _ _ _
           Hl Hp Hrun).
Defined.

Lemma read_pool_leaves_no_negative_balance_witness :
  (0 <= 64)%Z /\
  @read_pool stub_sha1 quiet_env 1 (replicate 64 0%Z) 0 64 GCRY_VERY_STRONG_RANDOM
    ready_state
  = (Val (replicate 64 255%Z),
     (@read_pool stub_sha1 quiet_env 1 (replicate 64 0%Z) 0 64 GCRY_VERY_STRONG_RANDOM
        ready_state).2) /\
  (0 <= pool_balance (@read_pool stub_sha1 quiet_env 1 (replicate 64 0%Z) 0 64
                        GCRY_VERY_STRONG_RANDOM ready_state).2)%Z.
Proof.
  assert (Hl : (0 <= 64)%Z) by lia.
  assert (Hrun : @read_pool stub_sha1 quiet_env 1 (replicate 64 0%Z) 0 64
                   GCRY_VERY_STRONG_RANDOM ready_state
    = (Val (replicate 64 255%Z),
       (@read_pool stub_sha1 quiet_env 1 (replicate 64 0%Z) 0 64
          GCRY_VERY_STRONG_RANDOM ready_state).2))
    by (vm_compute; reflexivity).
  split; [exact Hl|]. split; [exact Hrun|].
  exact (@read_pool_leaves_no_negative_balance stub_sha1 quiet_env 1 _ _ _ _ _ _ _
           Hl Hrun).
Defined.

Lemma read_pool_never_reaches_the_topup_bug_witness :
  (0 <= 600)%Z /\
  (- 2 ^ 31 <= pool_balance ready_state < 2 ^ 31)%Z /\
  (@read_pool stub_sha1 quiet_env 1 (replicate 600 0%Z) 0 600 GCRY_VERY_STRONG_RANDOM
     ready_state).1 <> Fatal Bug_balance_topup.
Proof.
  assert (Hl : (0 <= 600)%Z) by lia.
  assert (Hb : (- 2 ^ 31 <= pool_balance ready_state < 2 ^ 31)%Z)
    by (split; [apply Z.leb_le | apply Z.ltb_lt]; vm_compute; reflexivity).
  split; [exact Hl|]. split; [exact Hb|].
  exact (@read_pool_never_reaches_the_topup_bug stub_sha1 quiet_env 1
           (replicate 600 0%Z) 0 _ GCRY_VERY_STRONG_RANDOM _ Hl Hb).
Defined.

Lemma quick_test_degrades_very_strong_witness :
  quick_test (set_quick_test true initial_state) = true /\
  @_gcry_rngcsprng_randomize stub_sha1 quiet_env 10 (replicate 8 0%Z) 8
    GCRY_VERY_STRONG_RANDOM (set_quick_test true initial_state)
  = @_gcry_rngcsprng_randomize stub_sha1 quiet_env 10 (replicate 8 0%Z) 8
      GCRY_STRONG_RANDOM (set_quick_test true initial_state).
Proof.
  split; [reflexivity|].
  apply (@quick_test_degrades_very_strong stub_sha1 quiet_env). reflexivity.
Defined.

Lemma randomize_writes_only_what_was_asked_witness :
  (0 <= 8)%Z /\
  @_gcry_rngcsprng_randomize stub_sha1 quiet_env 10 (replicate 12 0%Z) 8
    GCRY_STRONG_RANDOM initial_state
  = (Val (replicate 8 255 ++ replicate 4 0)%Z,
     (@_gcry_rngcsprng_randomize stub_sha1 quiet_env 10 (replicate 12 0%Z) 8
        GCRY_STRONG_RANDOM initial_state).2) /\
  length (replicate 8 255 ++ replicate 4 0)%Z = length (replicate 12 0%Z) /\
  forall j, Z.to_nat 8 <= j ->
    (replicate 8 255 ++ replicate 4 0)%Z !! j = replicate 12 0%Z !! j.
Proof.
  assert (Hl : (0 <= 8)%Z) by lia.
  assert (Hrun : @_gcry_rngcsprng_randomize stub_sha1 quiet_env 10 (replicate 12 0%Z) 8
                   GCRY_STRONG_RANDOM initial_state
    = (Val (replicate 8 255 ++ replicate 4 0)%Z,
       (@_gcry_rngcsprng_randomize stub_sha1 quiet_env 10 (replicate 12 0%Z) 8
          GCRY_STRONG_RANDOM initial_state).2))
    by (vm_compute; reflexivity).
  split; [exact Hl|]. split; [exact Hrun|].
  exact (@randomize_writes_only_what_was_asked stub_sha1 quiet_env 10 _ _ _ _ _ _
           Hl Hrun).
Defined.

Lemma randomize_counts_the_request_witness :
  @_gcry_rngcsprng_randomize stub_sha1 quiet_env 10 (replicate 16 0%Z) 16
    GCRY_VERY_STRONG_RANDOM initial_state
  = (Val (replicate 16 255%Z),
     (@_gcry_rngcsprng_randomize stub_sha1 quiet_env 10 (replicate 16 0%Z) 16
        GCRY_VERY_STRONG_RANDOM initial_state).2) /\
  let level := Z.land (if quick_test initial_state
                          && (GCRY_VERY_STRONG_RANDOM >? GCRY_STRONG_RANDOM)%Z
                       then GCRY_STRONG_RANDOM else GCRY_VERY_STRONG_RANDOM) 3 in
  let st := rndstats initial_state in
  requests (@_gcry_rngcsprng_randomize stub_sha1 quiet_env 10 (replicate 16 0%Z) 16
              GCRY_VERY_STRONG_RANDOM initial_state).2 =
    if (level >=? GCRY_VERY_STRONG_RANDOM)%Z
    then (getbytes1 st, ngetbytes1 st,
          wrap64 (getbytes2 st + 16), wrap64 (ngetbytes2 st + 1))
    else (wrap64 (getbytes1 st + 16), wrap64 (ngetbytes1 st + 1),
          getbytes2 st, ngetbytes2 st).
Proof.
  assert (Hrun : @_gcry_rngcsprng_randomize stub_sha1 quiet_env 10 (replicate 16 0%Z) 16
                   GCRY_VERY_STRONG_RANDOM initial_state
    = (Val (replicate 16 255%Z),
       (@_gcry_rngcsprng_randomize stub_sha1 quiet_env 10 (replicate 16 0%Z) 16
          GCRY_VERY_STRONG_RANDOM initial_state).2))
    by (vm_compute; reflexivity).
  split; [exact Hrun|].
  exact (@randomize_counts_the_request stub_sha1 quiet_env 10 _ _ _ _ _ _ Hrun).
Defined.


Lemma the_seed_file_is_registered_once_witness :
  seed_file_name seeded_state = Some "random_seed"%string /\
  let s' := (@run_calls stub_sha1 quiet_env 10
               [Call_fast_poll; Call_set_seed_file "other"%string] seeded_state).2 in
  seed_file_name s' = Some "random_seed"%string /\
  _gcry_rngcsprng_set_seed_file "third"%string s'
  = (Fatal Bug_seed_file_set_twice, s').
Proof.
  assert (Hn : seed_file_name seeded_state = Some "random_seed"%string)
    by reflexivity.
  split; [exact Hn|].
  exact (@the_seed_file_is_registered_once stub_sha1 quiet_env 10 _ _ _ _ Hn).
Defined.

Lemma create_keypool_adds_the_constant_witness :
  POOLSIZE <= length (keypool ready_state) /\
  let kp := keypool (create_keypool ready_state) in
  length kp = length (keypool ready_state) /\
  (forall i, i < POOLWORDS ->
     load_word kp i = wrap64 (load_word (rndpool ready_state) i + ADD_VALUE)) /\
  (forall j, POOLSIZE <= j -> kp !! j = keypool ready_state !! j).
Proof.
  assert (Hk : POOLSIZE <= length (keypool ready_state))
    by (apply Nat.leb_le; vm_compute; reflexivity).
  split; [exact Hk|].
  exact (create_keypool_adds_the_constant ready_state Hk).
Defined.

Lemma only_close_fds_unfills_the_pool_witness :
  pool_filled (@_gcry_rngcsprng_randomize stub_sha1 quiet_env 10 (replicate 8 0%Z) 8
                 GCRY_STRONG_RANDOM initial_state).2 = true /\
  pool_filled
    (@run_call stub_sha1 quiet_env 10 Call_close_fds
       (@_gcry_rngcsprng_randomize stub_sha1 quiet_env 10 (replicate 8 0%Z) 8
          GCRY_STRONG_RANDOM initial_state).2).2 = false.
Proof.
  assert (Hf : pool_filled (@_gcry_rngcsprng_randomize stub_sha1 quiet_env 10
                              (replicate 8 0%Z) 8 GCRY_STRONG_RANDOM initial_state).2
               = true) by (vm_compute; reflexivity).
  split; [exact Hf|].
  exact (@only_close_fds_unfills_the_pool stub_sha1 quiet_env 10 Call_close_fds _ Hf).
Defined.

Lemma lock_seed_file_backs_off_witness :
  (forall i, i < 4 -> busy_fcntl true i = Fcntl_busy) /\
  busy_fcntl true 4 <> Fcntl_busy /\
  4 < 10 /\
  lock_seed_file true busy_fcntl 10 true =
    Some (match busy_fcntl true 4 with Fcntl_granted => 0%Z | _ => (-1)%Z end,
          flat_map wait_events (seq 0 4)
            ++ match busy_fcntl true 4 with
               | Fcntl_granted => []
               | _ => [Log_cannot_lock]
               end) /\
  lock_seed_file false busy_fcntl 10 true = Some (0%Z, []).
Proof.
  assert (Hb : forall i, i < 4 -> busy_fcntl true i = Fcntl_busy).
  { intros i Hi. unfold busy_fcntl. by rewrite (proj2 (Nat.ltb_lt i 4)) by exact Hi. }
  assert (Hg : busy_fcntl true 4 <> Fcntl_busy) by discriminate.
  assert (Hn : 4 < 10) by lia.
  split; [exact Hb|]. split; [exact Hg|]. split; [exact Hn|].
  exact (lock_seed_file_backs_off busy_fcntl 10 true 4 Hb Hg Hn).
Defined.

Lemma any8bitchar_finds_the_first_high_byte_witness :
  Forall (fun c => 0 <= c < 256)%Z [0x66; 0xC3; 0xA9; 0]%Z /\
  any8bitchar None = 0%Z /\
  (any8bitchar (Some [0x66; 0xC3; 0xA9; 0]%Z) = 1%Z
   \/ any8bitchar (Some [0x66; 0xC3; 0xA9; 0]%Z) = 0%Z) /\
  (any8bitchar (Some [0x66; 0xC3; 0xA9; 0]%Z) = 1%Z <->
   exists i c, [0x66; 0xC3; 0xA9; 0]%Z !! i = Some c /\ (128 <= c)%Z /\
               forall j, j < i -> peek [0x66; 0xC3; 0xA9; 0]%Z j <> 0%Z).
Proof.
  assert (Hb : Forall (fun c => 0 <= c < 256)%Z [0x66; 0xC3; 0xA9; 0]%Z)
    by (repeat constructor; lia).
  split; [exact Hb|].
  exact (any8bitchar_finds_the_first_high_byte _ Hb).
Defined.

Lemma only_very_strong_requests_poll_extra_witness :
  GCRY_STRONG_RANDOM <> GCRY_VERY_STRONG_RANDOM /\
  Forall (fun r : gather_request => r.1.1 <> RANDOM_ORIGIN_EXTRAPOLL)
    (gather_log ready_state) /\
  Forall (fun r : gather_request => r.1.1 <> RANDOM_ORIGIN_EXTRAPOLL)
    (gather_log (@read_pool stub_sha1 quiet_env 1 (replicate 32 0%Z) 0 32
                   GCRY_STRONG_RANDOM ready_state).2).
Proof.
  assert (Hl : GCRY_STRONG_RANDOM <> GCRY_VERY_STRONG_RANDOM) by discriminate.
  assert (Hs : Forall (fun r : gather_request => r.1.1 <> RANDOM_ORIGIN_EXTRAPOLL)
                 (gather_log ready_state)) by (vm_compute; constructor).
  split; [exact Hl|]. split; [exact Hs|].
  exact (@only_very_strong_requests_poll_extra stub_sha1 quiet_env 1
           (replicate 32 0%Z) 0 32 _ _ Hl Hs).
Defined.
